(** * Event management API: registration, check-in and event lifecycle

    A shallow embedding of the service layer of the event management
    backend ([app/services/event_service.py],
    [app/services/attendee_service.py]) over the tables declared in
    [app/models] and the request bodies declared in [app/schemas].

    The relational store is a pair of tables kept as lists of rows in
    storage order.  A request runs inside an [AsyncSession]: it reads and
    writes a pending copy of the store, [commit] makes the pending copy
    durable when the declared constraints hold, and an exception leaves the
    durable store as it was when the request started. *)

From Stdlib Require Import ZArith List String Bool Lia Permutation.
Import ListNotations.

Set Implicit Arguments.
Open Scope Z_scope.

(** ** Models ([app/models]) *)

(** [class EventStatus(str, Enum)] *)
Inductive EventStatus : Type := SCHEDULED | ONGOING | COMPLETED | CANCELED.

Definition EventStatus_eqb (a b : EventStatus) : bool :=
  match a, b with
  | SCHEDULED, SCHEDULED | ONGOING, ONGOING
  | COMPLETED, COMPLETED | CANCELED, CANCELED => true
  | _, _ => false
  end.

(** Datetimes are naive timestamps; only their order is used. *)
Definition datetime : Type := Z.

(** [class Event(Base)], table [events]. *)
Module Event.
Record t : Type := mk {
  event_id : Z;                  (* primary key *)
  name : string;                 (* nullable=False *)
  description : option string;   (* nullable=True *)
  start_time : datetime;
  end_time : datetime;
  location : string;
  max_attendees : Z;
  status : EventStatus
}.

Definition set_name (v : string) (e : t) : t :=
  mk (event_id e) v (description e) (start_time e) (end_time e)
     (location e) (max_attendees e) (status e).
Definition set_description (v : option string) (e : t) : t :=
  mk (event_id e) (name e) v (start_time e) (end_time e)
     (location e) (max_attendees e) (status e).
Definition set_start_time (v : datetime) (e : t) : t :=
  mk (event_id e) (name e) (description e) v (end_time e)
     (location e) (max_attendees e) (status e).
Definition set_end_time (v : datetime) (e : t) : t :=
  mk (event_id e) (name e) (description e) (start_time e) v
     (location e) (max_attendees e) (status e).
Definition set_location (v : string) (e : t) : t :=
  mk (event_id e) (name e) (description e) (start_time e) (end_time e)
     v (max_attendees e) (status e).
Definition set_max_attendees (v : Z) (e : t) : t :=
  mk (event_id e) (name e) (description e) (start_time e) (end_time e)
     (location e) v (status e).
Definition set_status (v : EventStatus) (e : t) : t :=
  mk (event_id e) (name e) (description e) (start_time e) (end_time e)
     (location e) (max_attendees e) v.
End Event.

(** [class Attendee(Base)], table [attendees].  The [email] column is
    declared [unique=True]: the table carries a unique index on [email]
    alone. *)
Module Attendee.
Record t : Type := mk {
  attendee_id : Z;               (* primary key *)
  first_name : string;
  last_name : string;
  email : string;                (* nullable=False, unique=True *)
  phone_number : option string;  (* nullable=True *)
  event_id : Z;                  (* ForeignKey events.event_id *)
  check_in_status : bool
}.

Definition set_first_name (v : string) (a : t) : t :=
  mk (attendee_id a) v (last_name a) (email a) (phone_number a)
     (event_id a) (check_in_status a).
Definition set_last_name (v : string) (a : t) : t :=
  mk (attendee_id a) (first_name a) v (email a) (phone_number a)
     (event_id a) (check_in_status a).
Definition set_email (v : string) (a : t) : t :=
  mk (attendee_id a) (first_name a) (last_name a) v (phone_number a)
     (event_id a) (check_in_status a).
Definition set_phone_number (v : option string) (a : t) : t :=
  mk (attendee_id a) (first_name a) (last_name a) (email a) v
     (event_id a) (check_in_status a).
Definition set_check_in_status (v : bool) (a : t) : t :=
  mk (attendee_id a) (first_name a) (last_name a) (email a)
     (phone_number a) (event_id a) v.
End Attendee.

(** ** Schemas ([app/schemas]) *)

(** A field of an update body: left out of the request, or present with a
    value that may be [null] ([Optional[...] = Field(None, ...)] together
    with [dict(exclude_unset=True)]). *)
Inductive Field (T : Type) : Type :=
| Unset
| Given (v : option T).
Arguments Unset {T}.
Arguments Given {T} v.

(** Attribute access on the body: an unset field reads as its default,
    [None]. *)
Definition attr {T : Type} (f : Field T) : option T :=
  match f with
  | Unset => None
  | Given v => v
  end.

Module EventCreate.
Record t : Type := mk {
  name : string;
  description : option string;
  start_time : datetime;
  end_time : datetime;
  location : string;
  max_attendees : Z;
  status : EventStatus
}.

(** [min_length]/[max_length], [gt=0] and the [end_time] validator. *)
Definition valid (d : t) : bool :=
  (1 <=? String.length (name d))%nat && (String.length (name d) <=? 100)%nat
  && (1 <=? String.length (location d))%nat && (String.length (location d) <=? 255)%nat
  && (0 <? max_attendees d)
  && negb (end_time d <=? start_time d).
End EventCreate.

Module EventUpdate.
Record t : Type := mk {
  name : Field string;
  description : Field string;
  start_time : Field datetime;
  end_time : Field datetime;
  location : Field string;
  max_attendees : Field Z;
  status : Field EventStatus
}.

Definition empty : t := mk Unset Unset Unset Unset Unset Unset Unset.

Definition len_between (lo hi : nat) (f : Field string) : bool :=
  match attr f with
  | Some s => (lo <=? String.length s)%nat && (String.length s <=? hi)%nat
  | None => true
  end.

(** [end_time_must_be_after_start_time]: checked only when both are
    provided and not null. *)
Definition valid (d : t) : bool :=
  len_between 1 100 (name d) && len_between 1 255 (location d)
  && match attr (max_attendees d) with
     | Some m => 0 <? m
     | None => true
     end
  && match attr (end_time d), attr (start_time d) with
     | Some v, Some s => negb (v <=? s)
     | _, _ => true
     end.
End EventUpdate.

Module AttendeeCreate.
Record t : Type := mk {
  first_name : string;
  last_name : string;
  email : string;
  phone_number : option string;
  event_id : Z
}.
End AttendeeCreate.

Module AttendeeUpdate.
Record t : Type := mk {
  first_name : Field string;
  last_name : Field string;
  email : Field string;
  phone_number : Field string;
  check_in_status : Field bool
}.

Definition empty : t := mk Unset Unset Unset Unset Unset.
End AttendeeUpdate.

Module AttendeeCsv.
Record t : Type := mk {
  first_name : string;
  last_name : string;
  email : string;
  phone_number : option string
}.
End AttendeeCsv.

Module AttendeeBulkCreate.
Record t : Type := mk {
  event_id : Z;
  attendees : list AttendeeCsv.t
}.
End AttendeeBulkCreate.

(** An uploaded file as the tabular parser and the row schema see it:
    [pd.read_csv] either raises or yields a frame with its column names,
    and the construction [AttendeeCsv(...)] of each row either yields a
    candidate or raises. *)
Inductive UploadFile : Type :=
| Unreadable
| Frame (columns : list string) (rows : list (option AttendeeCsv.t)).

(** ** Failures *)

(** One constructor per [raise HTTPException(...)] site, carrying what the
    [detail] string interpolates, the store's own [IntegrityError] and
    the driver's [OverflowError]. *)
Inductive Exception : Type :=
| EventNotFound (event_id : Z)
| AttendeeNotFound (attendee_id : Z)
| EventAtCapacity (max_attendees : Z)
| EmailAlreadyRegistered (email : string)
| AlreadyCheckedIn (attendee_id : Z)
| InvalidCsvFormat
| MissingRequiredColumns (cols : list string)
| CsvDataError
| CannotRegister (n : nat) (max_attendees : Z) (current : nat)
| DuplicateEmailsInCsv (emails : list string)
| DuplicateEmailsInRequest (emails : list string)
| EmailsAlreadyRegistered (emails : list string)
| EventIdMismatch
| IntegrityError
| OverflowError.

Definition status_code (e : Exception) : Z :=
  match e with
  | EventNotFound _ | AttendeeNotFound _ => 404
  | IntegrityError | OverflowError => 500
  | _ => 400
  end.

(** The failure classes of the error taxonomy. *)
Inductive ErrorClass : Type :=
| NotFound | CapacityExceeded | DuplicateEmail | AlreadyCheckedInError
| MalformedInput | InternalError.

Definition classify (e : Exception) : ErrorClass :=
  match e with
  | EventNotFound _ | AttendeeNotFound _ => NotFound
  | EventAtCapacity _ | CannotRegister _ _ _ => CapacityExceeded
  | EmailAlreadyRegistered _ | DuplicateEmailsInCsv _
  | DuplicateEmailsInRequest _ | EmailsAlreadyRegistered _ => DuplicateEmail
  | AlreadyCheckedIn _ => AlreadyCheckedInError
  | InvalidCsvFormat | MissingRequiredColumns _ | CsvDataError
  | EventIdMismatch => MalformedInput
  | IntegrityError | OverflowError => InternalError
  end.

(** The addresses a duplicate-email failure reports. *)
Definition reported_emails (e : Exception) : list string :=
  match e with
  | EmailAlreadyRegistered m => [m]
  | DuplicateEmailsInCsv l | DuplicateEmailsInRequest l
  | EmailsAlreadyRegistered l => l
  | _ => []
  end.

Inductive result (A : Type) : Type :=
| Ok (a : A)
| Raise (e : Exception).
Arguments Ok {A} a.
Arguments Raise {A} e.

(** ** The store and the session *)

Record Database : Type := {
  events : list Event.t;
  attendees : list Attendee.t
}.

Definition empty_db : Database := {| events := []; attendees := [] |}.

Definition mem_Z (x : Z) (l : list Z) : bool := existsb (Z.eqb x) l.
Definition mem_str (x : string) (l : list string) : bool :=
  existsb (String.eqb x) l.

Fixpoint distinct (l : list string) : bool :=
  match l with
  | [] => true
  | x :: r => negb (mem_str x r) && distinct r
  end.

(** The unique index on [attendees.email]. *)
Definition constraints_ok (db : Database) : bool :=
  distinct (map Attendee.email (attendees db)).

(** Integer primary keys are handed out by the store; the default engine
    (SQLite row ids) takes one more than the largest key in the table. *)
Definition next_id (ids : list Z) : Z := 1 + fold_right Z.max 0 ids.

Record AsyncSession : Type := {
  committed : Database;
  pending : Database
}.

Definition M (A : Type) : Type := AsyncSession -> result A * AsyncSession.

Definition ret {A : Type} (a : A) : M A := fun s => (Ok a, s).

Definition bind {A B : Type} (m : M A) (k : A -> M B) : M B :=
  fun s =>
    match m s with
    | (Ok a, s') => k a s'
    | (Raise e, s') => (Raise e, s')
    end.

Definition raise {A : Type} (e : Exception) : M A := fun s => (Raise e, s).

Declare Scope session_scope.
Delimit Scope session_scope with session.
Notation "x <- m ;; k" := (bind m (fun x => k))
  (at level 61, m at next level, right associativity) : session_scope.
Notation "m ;; k" := (bind m (fun _ => k))
  (at level 61, right associativity) : session_scope.
Open Scope session_scope.

(** [await db.execute(query)]: a read of the pending store. *)
Definition execute {A : Type} (query : Database -> A) : M A :=
  fun s => (Ok (query (pending s)), s).

(** A write to the pending store (an added, changed or deleted object). *)
Definition write (f : Database -> Database) : M unit :=
  fun s => (Ok tt, {| committed := committed s; pending := f (pending s) |}).

(** [await db.commit()]: the pending store becomes durable when the
    constraints hold; otherwise the store raises and the transaction is
    rolled back. *)
Definition commit : M unit :=
  fun s =>
    if constraints_ok (pending s)
    then (Ok tt, {| committed := pending s; pending := pending s |})
    else (Raise IntegrityError,
          {| committed := committed s; pending := committed s |}).

(** A commit that the store refuses because a [nullable=False] column was
    assigned [None]. *)
Definition commit_null_violation {A : Type} : M A :=
  fun s => (Raise IntegrityError,
            {| committed := committed s; pending := committed s |}).

(** An [Integer] column takes a signed 64-bit value.  The driver refuses
    to bind any other [int]: it raises [OverflowError] before the
    statement runs, and so before a constraint of the table is looked
    at. *)
Definition fits_integer (v : Z) : bool := (- 2 ^ 63 <=? v) && (v <? 2 ^ 63).

(** A commit whose flush stops at such a value: nothing is stored. *)
Definition commit_overflow {A : Type} : M A :=
  fun s => (Raise OverflowError,
            {| committed := committed s; pending := committed s |}).

(** One request: a fresh session over the durable store ([get_db]); what
    is durable when the session closes is the new store. *)
Definition run {A : Type} (m : M A) (db : Database) : result A * Database :=
  let (r, s) := m {| committed := db; pending := db |} in (r, committed s).

(** [for x in xs: body(x)] *)
Fixpoint for_each {A : Type} (xs : list A) (body : A -> M unit) : M unit :=
  match xs with
  | [] => ret tt
  | x :: r => body x ;; for_each r body
  end.

(** [[f(x) for x in xs]] with an effectful [f]. *)
Fixpoint map_m {A B : Type} (f : A -> M B) (xs : list A) : M (list B) :=
  match xs with
  | [] => ret []
  | x :: r => y <- f x ;; ys <- map_m f r ;; ret (y :: ys)
  end.

(** [db.add(event)]: the row gets its primary key from the store. *)
Definition add_event (row : Z -> Event.t) : M Event.t :=
  id <- execute (fun db => next_id (map Event.event_id (events db))) ;;
  write (fun db => {| events := events db ++ [row id];
                      attendees := attendees db |}) ;;
  ret (row id).

(** [db.add(attendee)] *)
Definition add_attendee (row : Z -> Attendee.t) : M Attendee.t :=
  id <- execute (fun db => next_id (map Attendee.attendee_id (attendees db))) ;;
  write (fun db => {| events := events db;
                      attendees := attendees db ++ [row id] |}) ;;
  ret (row id).

(** Attribute assignment on a loaded object: the row with that primary key
    is changed in the pending store. *)
Definition update_events (id : Z) (f : Event.t -> Event.t)
    (db : Database) : Database :=
  {| events := map (fun e => if Event.event_id e =? id then f e else e)
                   (events db);
     attendees := attendees db |}.

Definition update_attendees (id : Z) (f : Attendee.t -> Attendee.t)
    (db : Database) : Database :=
  {| events := events db;
     attendees := map (fun a => if Attendee.attendee_id a =? id
                                then f a else a) (attendees db) |}.

(** [setattr(obj, field, value)] for one field of [update_data].  A
    [None] assigned to a [nullable=False] column has no row to stand for
    it: the flush of that object is refused. *)
Definition setattr_required {R T : Type} (set : T -> R -> R)
    (f : Field T) (r : option R) : option R :=
  match f, r with
  | Unset, _ => r
  | Given (Some v), Some x => Some (set v x)
  | Given _, _ => None
  end.

Definition setattr_nullable {R T : Type} (set : option T -> R -> R)
    (f : Field T) (r : option R) : option R :=
  match f, r with
  | Unset, _ => r
  | Given v, Some x => Some (set v x)
  | Given _, None => None
  end.

(** ** Event service ([app/services/event_service.py]) *)

Definition create_event (event_data : EventCreate.t) : M Event.t :=
  event <- add_event (fun id =>
    Event.mk id
      (EventCreate.name event_data)
      (EventCreate.description event_data)
      (EventCreate.start_time event_data)
      (EventCreate.end_time event_data)
      (EventCreate.location event_data)
      (EventCreate.max_attendees event_data)
      (EventCreate.status event_data)) ;;
  (* the INSERT binds the body's values; the key comes from the store *)
  (if fits_integer (Event.max_attendees event)
   then commit else commit_overflow) ;;
  ret event.

Definition get_event (event_id : Z) : M Event.t :=
  event <- execute (fun db =>
    find (fun e => Event.event_id e =? event_id) (events db)) ;;
  match event with
  | None => raise (EventNotFound event_id)
  | Some event => ret event
  end.

(** [for field, value in update_data.items(): setattr(event, field, value)] *)
Definition apply_event_update (event_data : EventUpdate.t)
    (event : Event.t) : option Event.t :=
  setattr_required Event.set_status (EventUpdate.status event_data)
  (setattr_required Event.set_max_attendees (EventUpdate.max_attendees event_data)
  (setattr_required Event.set_location (EventUpdate.location event_data)
  (setattr_required Event.set_end_time (EventUpdate.end_time event_data)
  (setattr_required Event.set_start_time (EventUpdate.start_time event_data)
  (setattr_nullable Event.set_description (EventUpdate.description event_data)
  (setattr_required Event.set_name (EventUpdate.name event_data)
  (Some event))))))).

(** The one integer an update body can write is [max_attendees]; the
    UPDATE binds it when the body carries a value for it. *)
Definition overflows (event_data : EventUpdate.t) : bool :=
  match EventUpdate.max_attendees event_data with
  | Given (Some v) => negb (fits_integer v)
  | _ => false
  end.

Definition update_event (event_id : Z) (event_data : EventUpdate.t)
    : M Event.t :=
  event <- get_event event_id ;;
  if overflows event_data then commit_overflow
  else
    match apply_event_update event_data event with
    | Some event' =>
        write (update_events (Event.event_id event) (fun _ => event')) ;;
        commit ;;
        ret event'
    | None => commit_null_violation
    end.

(** [db.delete(event)]; the relationship cascades to the event's
    attendees ([cascade="all, delete-orphan"]). *)
Definition delete_event (event_id : Z) : M unit :=
  event <- get_event event_id ;;
  write (fun db =>
    {| events := filter (fun e => negb (Event.event_id e =? Event.event_id event))
                        (events db);
       attendees := filter (fun a => negb (Attendee.event_id a =? Event.event_id event))
                           (attendees db) |}) ;;
  commit.

Record StatusCounts : Type := {
  ongoing : nat;
  completed : nat
}.

Definition should_be_ongoing (now : datetime) (e : Event.t) : bool :=
  EventStatus_eqb (Event.status e) SCHEDULED
  && (Event.start_time e <=? now)
  && (now <? Event.end_time e).

Definition should_be_completed (now : datetime) (e : Event.t) : bool :=
  (EventStatus_eqb (Event.status e) SCHEDULED
   || EventStatus_eqb (Event.status e) ONGOING)
  && (Event.end_time e <=? now).

(** [update_event_statuses]; [now] is the reading of [datetime.now()]. *)
Definition update_event_statuses (now : datetime) : M StatusCounts :=
  ongoing_events <- execute (fun db =>
    filter (should_be_ongoing now) (events db)) ;;
  completed_events <- execute (fun db =>
    filter (should_be_completed now) (events db)) ;;
  for_each ongoing_events (fun event =>
    write (update_events (Event.event_id event) (Event.set_status ONGOING))) ;;
  for_each completed_events (fun event =>
    write (update_events (Event.event_id event) (Event.set_status COMPLETED))) ;;
  commit ;;
  ret {| ongoing := List.length ongoing_events;
         completed := List.length completed_events |}.

Definition count_attendees (event_id : Z) (db : Database) : nat :=
  List.length (filter (fun a => Attendee.event_id a =? event_id) (attendees db)).

Definition get_attendee_count (event_id : Z) : M nat :=
  execute (count_attendees event_id).

(** ** Attendee service ([app/services/attendee_service.py]) *)

Definition create_attendee (attendee_data : AttendeeCreate.t)
    : M Attendee.t :=
  event <- get_event (AttendeeCreate.event_id attendee_data) ;;
  attendee_count <- execute (count_attendees (Event.event_id event)) ;;
  if Event.max_attendees event <=? Z.of_nat attendee_count
  then raise (EventAtCapacity (Event.max_attendees event))
  else
    existing_attendee <- execute (fun db =>
      find (fun a =>
              String.eqb (Attendee.email a) (AttendeeCreate.email attendee_data)
              && (Attendee.event_id a =? Event.event_id event))
           (attendees db)) ;;
    match existing_attendee with
    | Some _ =>
        raise (EmailAlreadyRegistered (AttendeeCreate.email attendee_data))
    | None =>
        attendee <- add_attendee (fun id =>
          Attendee.mk id
            (AttendeeCreate.first_name attendee_data)
            (AttendeeCreate.last_name attendee_data)
            (AttendeeCreate.email attendee_data)
            (AttendeeCreate.phone_number attendee_data)
            (AttendeeCreate.event_id attendee_data)
            false) ;;
        commit ;;
        ret attendee
    end.

Definition get_attendee (attendee_id : Z) : M Attendee.t :=
  attendee <- execute (fun db =>
    find (fun a => Attendee.attendee_id a =? attendee_id) (attendees db)) ;;
  match attendee with
  | None => raise (AttendeeNotFound attendee_id)
  | Some attendee => ret attendee
  end.

Definition apply_attendee_update (attendee_data : AttendeeUpdate.t)
    (attendee : Attendee.t) : option Attendee.t :=
  setattr_required Attendee.set_check_in_status
    (AttendeeUpdate.check_in_status attendee_data)
  (setattr_nullable Attendee.set_phone_number
    (AttendeeUpdate.phone_number attendee_data)
  (setattr_required Attendee.set_email (AttendeeUpdate.email attendee_data)
  (setattr_required Attendee.set_last_name (AttendeeUpdate.last_name attendee_data)
  (setattr_required Attendee.set_first_name (AttendeeUpdate.first_name attendee_data)
  (Some attendee))))).

(** [attendee_data.email and attendee_data.email != attendee.email] *)
Definition email_changes (attendee_data : AttendeeUpdate.t)
    (attendee : Attendee.t) : option string :=
  match attr (AttendeeUpdate.email attendee_data) with
  | Some e =>
      if negb (String.eqb e EmptyString)
         && negb (String.eqb e (Attendee.email attendee))
      then Some e else None
  | None => None
  end.

Definition update_attendee (attendee_id : Z)
    (attendee_data : AttendeeUpdate.t) : M Attendee.t :=
  attendee <- get_attendee attendee_id ;;
  match email_changes attendee_data attendee with
  | Some e =>
      existing_attendee <- execute (fun db =>
        find (fun a =>
                String.eqb (Attendee.email a) e
                && (Attendee.event_id a =? Attendee.event_id attendee)
                && negb (Attendee.attendee_id a =? attendee_id))
             (attendees db)) ;;
      match existing_attendee with
      | Some _ => raise (EmailAlreadyRegistered e)
      | None => ret tt
      end
  | None => ret tt
  end ;;
  match apply_attendee_update attendee_data attendee with
  | Some attendee' =>
      write (update_attendees (Attendee.attendee_id attendee)
                              (fun _ => attendee')) ;;
      commit ;;
      ret attendee'
  | None => commit_null_violation
  end.

Definition delete_attendee (attendee_id : Z) : M unit :=
  attendee <- get_attendee attendee_id ;;
  write (fun db =>
    {| events := events db;
       attendees := filter (fun a => negb (Attendee.attendee_id a
                                           =? Attendee.attendee_id attendee))
                           (attendees db) |}) ;;
  commit.

Definition check_in_attendee (attendee_id : Z) : M Attendee.t :=
  attendee <- get_attendee attendee_id ;;
  if Attendee.check_in_status attendee
  then raise (AlreadyCheckedIn attendee_id)
  else
    write (update_attendees (Attendee.attendee_id attendee)
                            (Attendee.set_check_in_status true)) ;;
    commit ;;
    ret (Attendee.set_check_in_status true attendee).

Record BulkCheckIn : Type := {
  total : nat;
  found : nat;
  missing : list Z;
  already_checked_in : list Z;
  newly_checked_in : list Z
}.

(** The check-in loop of [bulk_check_in], with its two accumulators. *)
Fixpoint check_in_loop (rows : list Attendee.t)
    (already newly : list Z) : M (list Z * list Z) :=
  match rows with
  | [] => ret (already, newly)
  | attendee :: rest =>
      if Attendee.check_in_status attendee
      then check_in_loop rest
             (already ++ [Attendee.attendee_id attendee]) newly
      else
        write (update_attendees (Attendee.attendee_id attendee)
                                (Attendee.set_check_in_status true)) ;;
        check_in_loop rest
          already (newly ++ [Attendee.attendee_id attendee])
  end.

Definition bulk_check_in (event_id : Z) (attendee_ids : list Z)
    : M BulkCheckIn :=
  get_event event_id ;;
  rows <- execute (fun db =>
    filter (fun a => (Attendee.event_id a =? event_id)
                     && mem_Z (Attendee.attendee_id a) attendee_ids)
           (attendees db)) ;;
  let found_ids := map Attendee.attendee_id rows in
  let missing_ids :=
    filter (fun id => negb (mem_Z id found_ids)) attendee_ids in
  lists <- check_in_loop rows [] [] ;;
  commit ;;
  ret {| total := List.length attendee_ids;
         found := List.length rows;
         missing := missing_ids;
         already_checked_in := fst lists;
         newly_checked_in := snd lists |}.

(** Iteration over a Python [set] of strings: every element once, in an
    order the language does not fix. *)
Class SetOrder : Type := {
  set_iter : list string -> list string;
  set_iter_NoDup : forall l, NoDup (set_iter l);
  set_iter_In : forall l x, In x (set_iter l) <-> In x l
}.

Record BulkCreated : Type := {
  total_created : nat;
  attendee_ids : list Z
}.

Definition required_columns : list string :=
  ["first_name"; "last_name"; "email"]%string.

(** The row loop under [try]: the first row that does not validate
    raises. *)
Fixpoint collect_rows (rows : list (option AttendeeCsv.t))
    : option (list AttendeeCsv.t) :=
  match rows with
  | [] => Some []
  | None :: _ => None
  | Some r :: rest =>
      match collect_rows rest with
      | Some l => Some (r :: l)
      | None => None
      end
  end.

Section BulkRegistration.
Context {set_order : SetOrder}.

(** [[email for email in set(emails) if emails.count(email) > 1]] *)
Definition duplicates (emails : list string) : list string :=
  filter (fun email => (1 <? count_occ string_dec emails email)%nat)
         (set_iter emails).

Definition process_csv_upload (event_id : Z) (file : UploadFile)
    : M BulkCreated :=
  event <- get_event event_id ;;
  current_attendee_count <- execute (count_attendees event_id) ;;
  match file with
  | Unreadable => raise InvalidCsvFormat
  | Frame columns rows =>
      let missing_columns :=
        filter (fun col => negb (mem_str col columns)) required_columns in
      match missing_columns with
      | _ :: _ => raise (MissingRequiredColumns missing_columns)
      | [] =>
          match collect_rows rows with
          | None => raise CsvDataError
          | Some attendees_data =>
              if Event.max_attendees event
                 <? Z.of_nat current_attendee_count
                    + Z.of_nat (List.length attendees_data)
              then raise (CannotRegister (List.length attendees_data)
                            (Event.max_attendees event)
                            current_attendee_count)
              else
                let emails := map AttendeeCsv.email attendees_data in
                let duplicate_emails := duplicates emails in
                match duplicate_emails with
                | _ :: _ =>
                    raise (DuplicateEmailsInCsv (firstn 5 duplicate_emails))
                | [] =>
                    existing_emails <- execute (fun db =>
                      map Attendee.email
                        (filter (fun a =>
                                   (Attendee.event_id a =? event_id)
                                   && mem_str (Attendee.email a) emails)
                                (attendees db))) ;;
                    match existing_emails with
                    | _ :: _ =>
                        raise (EmailsAlreadyRegistered
                                 (firstn 5 existing_emails))
                    | [] =>
                        created_attendees <- map_m (fun attendee_data =>
                          add_attendee (fun id =>
                            Attendee.mk id
                              (AttendeeCsv.first_name attendee_data)
                              (AttendeeCsv.last_name attendee_data)
                              (AttendeeCsv.email attendee_data)
                              (AttendeeCsv.phone_number attendee_data)
                              event_id
                              false)) attendees_data ;;
                        commit ;;
                        ret {| total_created := List.length created_attendees;
                               attendee_ids :=
                                 map Attendee.attendee_id created_attendees |}
                    end
                end
          end
      end
  end.

Definition bulk_create_attendees (bulk_data : AttendeeBulkCreate.t)
    : M BulkCreated :=
  let event_id := AttendeeBulkCreate.event_id bulk_data in
  let attendees_data := AttendeeBulkCreate.attendees bulk_data in
  event <- get_event event_id ;;
  current_attendee_count <- execute (count_attendees event_id) ;;
  if Event.max_attendees event
     <? Z.of_nat current_attendee_count + Z.of_nat (List.length attendees_data)
  then raise (CannotRegister (List.length attendees_data)
                (Event.max_attendees event) current_attendee_count)
  else
    let emails := map AttendeeCsv.email attendees_data in
    let duplicate_emails := duplicates emails in
    match duplicate_emails with
    | _ :: _ => raise (DuplicateEmailsInRequest (firstn 5 duplicate_emails))
    | [] =>
        existing_emails <- execute (fun db =>
          map Attendee.email
            (filter (fun a => (Attendee.event_id a =? event_id)
                              && mem_str (Attendee.email a) emails)
                    (attendees db))) ;;
        match existing_emails with
        | _ :: _ =>
            raise (EmailsAlreadyRegistered (firstn 5 existing_emails))
        | [] =>
            created_attendees <- map_m (fun attendee_data =>
              add_attendee (fun id =>
                Attendee.mk id
                  (AttendeeCsv.first_name attendee_data)
                  (AttendeeCsv.last_name attendee_data)
                  (AttendeeCsv.email attendee_data)
                  (AttendeeCsv.phone_number attendee_data)
                  event_id
                  false)) attendees_data ;;
            commit ;;
            ret {| total_created := List.length created_attendees;
                   attendee_ids :=
                     map Attendee.attendee_id created_attendees |}
        end
    end.

(** The [bulk-create] endpoint checks the path against the body before
    it calls the service. *)
Definition bulk_create_endpoint (event_id : Z)
    (bulk_data : AttendeeBulkCreate.t) : M BulkCreated :=
  if negb (event_id =? AttendeeBulkCreate.event_id bulk_data)
  then raise EventIdMismatch
  else bulk_create_attendees bulk_data.
End BulkRegistration.

(** Insertion order is one admissible iteration order of a set. *)
#[export] Instance first_seen : SetOrder := {|
  set_iter := nodup string_dec;
  set_iter_NoDup := NoDup_nodup string_dec;
  set_iter_In := nodup_In string_dec
|}.

(** What one sweep at time [now] does to a single row. *)
Definition sweep_row (now : datetime) (e : Event.t) : Event.t :=
  if should_be_completed now e then Event.set_status COMPLETED e
  else if should_be_ongoing now e then Event.set_status ONGOING e
  else e.

(** The rows the query of [bulk_check_in] selects. *)
Definition rows_of_event (event_id : Z) (ids : list Z) (db : Database)
    : list Attendee.t :=
  filter (fun a => (Attendee.event_id a =? event_id)
                   && mem_Z (Attendee.attendee_id a) ids)
         (attendees db).

(** ** Bulk registration, step by step *)

(** The row built from one candidate of a batch. *)
Definition csv_row (event_id : Z) (attendee_data : AttendeeCsv.t) (id : Z)
    : Attendee.t :=
  Attendee.mk id
    (AttendeeCsv.first_name attendee_data)
    (AttendeeCsv.last_name attendee_data)
    (AttendeeCsv.email attendee_data)
    (AttendeeCsv.phone_number attendee_data)
    event_id
    false.

(** The rows a loop of [db.add] appends to [table], each with the key the
    store gives it. *)
Fixpoint insert_rows {D : Type} (row : D -> Z -> Attendee.t) (data : list D)
    (table : list Attendee.t) : list Attendee.t :=
  match data with
  | [] => []
  | d :: rest =>
      let a := row d (next_id (map Attendee.attendee_id table)) in
      a :: insert_rows row rest (table ++ [a])
  end.

(** The batch a file parses to, when it parses: all required columns are
    there and every row validates. *)
Definition parsed_batch (file : UploadFile) : option (list AttendeeCsv.t) :=
  match file with
  | Unreadable => None
  | Frame columns rows =>
      match filter (fun col => negb (mem_str col columns)) required_columns with
      | [] => collect_rows rows
      | _ :: _ => None
      end
  end.

(** The emails of [emails] already stored for event [event_id]. *)
Definition existing_emails (event_id : Z) (emails : list string)
    (db : Database) : list string :=
  map Attendee.email
    (filter (fun a => (Attendee.event_id a =? event_id)
                      && mem_str (Attendee.email a) emails)
            (attendees db)).

Section RegisterBatch.
Context {set_order : SetOrder}.

(** What both bulk entry points do with a batch once the event is
    loaded and the batch is in hand; [duplicate_error] is the message of
    the entry point. *)
Definition register_batch (duplicate_error : list string -> Exception)
    (event : Event.t) (attendees_data : list AttendeeCsv.t)
    (db : Database) : result BulkCreated * Database :=
  let event_id := Event.event_id event in
  let current_attendee_count := count_attendees event_id db in
  if Event.max_attendees event
     <? Z.of_nat current_attendee_count + Z.of_nat (List.length attendees_data)
  then (Raise (CannotRegister (List.length attendees_data)
                 (Event.max_attendees event) current_attendee_count), db)
  else
    let emails := map AttendeeCsv.email attendees_data in
    match duplicates emails with
    | _ :: _ => (Raise (duplicate_error (firstn 5 (duplicates emails))), db)
    | [] =>
        match existing_emails event_id emails db with
        | _ :: _ =>
            (Raise (EmailsAlreadyRegistered
                      (firstn 5 (existing_emails event_id emails db))), db)
        | [] =>
            let created :=
              insert_rows (csv_row event_id) attendees_data (attendees db) in
            let db' := {| events := events db;
                          attendees := attendees db ++ created |} in
            if constraints_ok db'
            then (Ok {| total_created := List.length created;
                        attendee_ids := map Attendee.attendee_id created |},
                  db')
            else (Raise IntegrityError, db)
        end
    end.
End RegisterBatch.

(** ** Well-formed stores *)

(** Primary keys are not repeated and the unique index on [email] holds. *)
Record db_ok (db : Database) : Prop := {
  ok_event_ids : NoDup (map Event.event_id (events db));
  ok_attendee_ids : NoDup (map Attendee.attendee_id (attendees db));
  ok_emails : NoDup (map Attendee.email (attendees db))
}.

Fixpoint distinct_Z (l : list Z) : bool :=
  match l with
  | [] => true
  | x :: r => negb (mem_Z x r) && distinct_Z r
  end.

(** [db_ok] as a check that runs. *)
Definition db_okb (db : Database) : bool :=
  distinct_Z (map Event.event_id (events db))
  && distinct_Z (map Attendee.attendee_id (attendees db))
  && distinct (map Attendee.email (attendees db)).

(** ** A small store to run the services on *)

Definition launch : Event.t :=
  Event.mk 1 "Launch" None 10 20 "Hall" 2 SCHEDULED.
Definition workshop : Event.t :=
  Event.mk 2 "Workshop" None 10 20 "Lab" 2 SCHEDULED.
Definition ada : Attendee.t :=
  Attendee.mk 1 "Ada" "Lovelace" "ada@example.com" None 1 false.
Definition sample_db : Database :=
  {| events := [launch; workshop]; attendees := [ada] |}.

Definition candidate (email : string) : AttendeeCsv.t :=
  AttendeeCsv.mk "Grace" "Hopper" email None.

(** The duplicate rules read without the capacity rule that runs before
    them: every batch with a repeated email, or with an email already
    stored for the event, is refused as a duplicate. *)
Definition duplicate_rule_unconditional : Prop :=
  forall (set_order : SetOrder) (db : Database) (E : Event.t)
         (B : list AttendeeCsv.t),
    db_ok db -> In E (events db) ->
    (exists m,
        (1 < count_occ string_dec (map AttendeeCsv.email B) m)%nat
        \/ (In m (map AttendeeCsv.email B)
            /\ exists a, In a (attendees db)
                         /\ Attendee.event_id a = Event.event_id E
                         /\ Attendee.email a = m)) ->
    exists e,
      run (bulk_create_attendees
             (AttendeeBulkCreate.mk (Event.event_id E) B)) db = (Raise e, db)
      /\ classify e = DuplicateEmail
      /\ (List.length (reported_emails e) <= 5)%nat.

(** ** Requests *)

(** The check of [update_attendee] that the new email is free within the
    attendee's event: the address it refuses, if any. *)
Definition email_conflict (attendee_id : Z) (attendee_data : AttendeeUpdate.t)
    (attendee : Attendee.t) (db : Database) : option string :=
  match email_changes attendee_data attendee with
  | Some e =>
      match find (fun a =>
                    String.eqb (Attendee.email a) e
                    && (Attendee.event_id a =? Attendee.event_id attendee)
                    && negb (Attendee.attendee_id a =? attendee_id))
                 (attendees db) with
      | Some _ => Some e
      | None => None
      end
  | None => None
  end.

(** The endpoints that write to the events and attendees tables.  The
    event listing runs the lifecycle sweep before it reads; [now] is the
    clock reading of that request. *)
Inductive Request : Type :=
| CreateEvent (event_data : EventCreate.t)
| UpdateEvent (event_id : Z) (event_data : EventUpdate.t)
| DeleteEvent (event_id : Z)
| ListEvents (now : datetime)
| CreateAttendee (attendee_data : AttendeeCreate.t)
| UpdateAttendee (attendee_id : Z) (attendee_data : AttendeeUpdate.t)
| DeleteAttendee (attendee_id : Z)
| CheckIn (attendee_id : Z)
| BulkCheckInRequest (event_id : Z) (attendee_ids : list Z)
| BulkCreate (event_id : Z) (bulk_data : AttendeeBulkCreate.t)
| UploadCsv (event_id : Z) (file : UploadFile).

Section Handle.
Context {set_order : SetOrder}.

(** The store after a request, whether it succeeded or raised. *)
Definition handle (r : Request) (db : Database) : Database :=
  match r with
  | CreateEvent d => snd (run (create_event d) db)
  | UpdateEvent id d => snd (run (update_event id d) db)
  | DeleteEvent id => snd (run (delete_event id) db)
  | ListEvents now => snd (run (update_event_statuses now) db)
  | CreateAttendee d => snd (run (create_attendee d) db)
  | UpdateAttendee id d => snd (run (update_attendee id d) db)
  | DeleteAttendee id => snd (run (delete_attendee id) db)
  | CheckIn id => snd (run (check_in_attendee id) db)
  | BulkCheckInRequest id ids => snd (run (bulk_check_in id ids) db)
  | BulkCreate id d => snd (run (bulk_create_endpoint id d) db)
  | UploadCsv id file => snd (run (process_csv_upload id file) db)
  end.

(** The stores the system can be in: the empty one and whatever a
    request makes of a store it can be in. *)
Inductive reachable : Database -> Prop :=
| reachable_empty : reachable empty_db
| reachable_handle (r : Request) (db : Database) :
    reachable db -> reachable (handle r db).
End Handle.

(** An attendee update whose body sets [check_in_status] to [false]. *)
Definition unchecks (r : Request) : bool :=
  match r with
  | UpdateAttendee _ d =>
      match AttendeeUpdate.check_in_status d with
      | Given (Some false) => true
      | _ => false
      end
  | _ => false
  end.

(** Rows of [l] that are checked in are still checked in wherever their
    key occurs in [l']. *)
Definition keeps_check_in (l l' : list Attendee.t) : Prop :=
  forall a a', In a l -> Attendee.check_in_status a = true ->
               In a' l' -> Attendee.attendee_id a' = Attendee.attendee_id a ->
               Attendee.check_in_status a' = true.

(** Check-in read as one-way under every request. *)
Definition check_in_one_way : Prop :=
  forall (set_order : SetOrder) (r : Request) (db : Database),
    reachable db -> keeps_check_in (attendees db) (attendees (handle r db)).

(** What one request can do to a keyed table: nothing, delete rows, append
    rows under new keys, or rewrite rows in place, each rewritten row [x]
    becoming a row [y] with [related x y]. *)
Inductive table_step {A : Type} (key : A -> Z) (related : A -> A -> Prop)
    (l : list A) : list A -> Prop :=
| table_same : table_step key related l l
| table_delete (p : A -> bool) : table_step key related l (filter p l)
| table_insert (news : list A) :
    NoDup (map key news) ->
    (forall a b, In a news -> In b l -> key b < key a) ->
    table_step key related l (l ++ news)
| table_update (g : A -> A) :
    (forall x, In x l -> key (g x) = key x /\ related x (g x)) ->
    table_step key related l (map g l).

(** A checked-in row stays checked in, unless the request is an update
    that says otherwise. *)
Definition check_kept (r : Request) (x y : Attendee.t) : Prop :=
  unchecks r = false ->
  Attendee.check_in_status x = true -> Attendee.check_in_status y = true.

(** One request on the whole store. *)
Definition store_step (r : Request) (db db' : Database) : Prop :=
  table_step Event.event_id (fun _ _ => True) (events db) (events db')
  /\ table_step Attendee.attendee_id (check_kept r)
                (attendees db) (attendees db')
  /\ constraints_ok db' = true.

(** A store reached by three requests: an event is created, an attendee
    registers for it and is checked in. *)
Definition checked_in_db : Database :=
  handle (CheckIn 1)
    (handle (CreateAttendee
               (AttendeeCreate.mk "Ada" "Lovelace" "ada@example.com" None 1))
       (handle (CreateEvent
                  (EventCreate.mk "Launch" None 10 20 "Hall" 2 SCHEDULED))
          empty_db)).

Definition uncheck : AttendeeUpdate.t :=
  AttendeeUpdate.mk Unset Unset Unset Unset (Given (Some false)).

(** The value a required column has after an update body is applied. *)
Definition field_value {T : Type} (f : Field T) (old : T) : T :=
  match f with
  | Given (Some v) => v
  | _ => old
  end.

Definition is_null {T : Type} (f : Field T) : bool :=
  match f with
  | Given None => true
  | _ => false
  end.

(** Some [nullable=False] column of the event is assigned [null]. *)
Definition nulls_required (d : EventUpdate.t) : bool :=
  is_null (EventUpdate.name d) || is_null (EventUpdate.start_time d)
  || is_null (EventUpdate.end_time d) || is_null (EventUpdate.location d)
  || is_null (EventUpdate.max_attendees d) || is_null (EventUpdate.status d).

(** An update body that carries [max_attendees] and nothing else. *)
Definition only_max_attendees (m : Z) : EventUpdate.t :=
  EventUpdate.mk Unset Unset Unset Unset Unset (Given (Some m)) Unset.

(** The update read as applying every body the schema accepts: the
    update succeeds, and a [max_attendees] the body carries is the stored
    event's afterwards. *)
Definition update_applies_every_body : Prop :=
  forall (db : Database) (E : Event.t) (d : EventUpdate.t) (m : Z),
    db_ok db -> In E (events db) ->
    EventUpdate.valid d = true ->
    EventUpdate.max_attendees d = Given (Some m) ->
    exists E' db',
      run (update_event (Event.event_id E) d) db = (Ok E', db')
      /\ In E' (events db') /\ Event.max_attendees E' = m.

(** An event that is full, with its one attendee. *)
Definition full_db : Database :=
  {| events := [Event.mk 1 "Launch" None 10 20 "Hall" 1 SCHEDULED];
     attendees := [ada] |}.

(** Bulk check-in read with the length equation for every input list,
    repeated ids included. *)
Definition bulk_check_in_lengths_always : Prop :=
  forall (db : Database) (E : Event.t) (ids : list Z),
    db_ok db -> In E (events db) ->
    exists r db',
      run (bulk_check_in (Event.event_id E) ids) db = (Ok r, db')
      /\ (List.length (newly_checked_in r)
          + List.length (already_checked_in r)
          + List.length (missing r) = List.length ids)%nat.

(** ** More of the services *)

(** No attendee is left without its event. *)
Definition no_orphans (db : Database) : Prop :=
  forall a, In a (attendees db) ->
            exists e, In e (events db)
                      /\ Event.event_id e = Attendee.event_id a.

(** How far along its lifecycle an event is. *)
Definition stage (st : EventStatus) : nat :=
  match st with
  | SCHEDULED => 0
  | ONGOING => 1
  | COMPLETED => 2
  | CANCELED => 3
  end.

(** An update body that carries [end_time] and nothing else. *)
Definition only_end_time (v : datetime) : EventUpdate.t :=
  EventUpdate.mk Unset Unset Unset (Given (Some v)) Unset Unset Unset.

(** ** Authentication middleware ([app/middleware/auth_middleware.py]) *)

(** [str.replace(old, new)] for a non-empty [old]: every occurrence,
    left to right, without overlap.  [skip] counts the characters of a
    matched occurrence still to be passed over. *)
Fixpoint replace_from (old new : string) (skip : nat) (s : string) : string :=
  match s with
  | EmptyString => EmptyString
  | String c rest =>
      match skip with
      | S k => replace_from old new k rest
      | O =>
          if String.prefix old s
          then String.append new
                 (replace_from old new (String.length old - 1) rest)
          else String c (replace_from old new 0 rest)
      end
  end.

Definition str_replace (old new s : string) : string :=
  replace_from old new 0 s.

(** What the middleware does with a request: it hands it to the
    application, with or without [request.state.user]; it answers 401
    itself; or the [HTTPException] that [verify_token] raises leaves it
    (the handler [except JWTError] does not catch that class). *)
Inductive Served (P : Type) : Type :=
| AppCalled (user : option P)
| Unauthorized401
| CredentialsError.
Arguments AppCalled {P} user.
Arguments Unauthorized401 {P}.
Arguments CredentialsError {P}.

Module AuthMiddleware.
Record t : Type := mk {
  exclude_paths : list string;
  public_paths : list string
}.

Definition default_exclude_paths : list string :=
  ["/"; "/docs"; "/redoc"; "/openapi.json"; "/users/login"; "/users"]%string.

Definition default_public_paths : list string := ["/events"]%string.

(** [x or default]: [None] and the empty list both give the default. *)
Definition or_default (x : option (list string)) (default : list string)
    : list string :=
  match x with
  | Some (p :: l) => p :: l
  | _ => default
  end.

(** [__init__] *)
Definition init (exclude_paths public_paths : option (list string)) : t :=
  mk (or_default exclude_paths default_exclude_paths)
     (or_default public_paths default_public_paths).

(** [not auth_header or not auth_header.startswith("Bearer ")], negated *)
Definition has_bearer (auth_header : option string) : bool :=
  match auth_header with
  | Some h => negb (String.eqb h EmptyString) && String.prefix "Bearer " h
  | None => false
  end.

(** [__call__]; [jwt_decode] is the token library with the configured
    secret ([None] when it raises [JWTError]), so that [verify_token]
    returns the payload or raises its 401. *)
Definition call {P : Type} (jwt_decode : string -> option P) (self : t)
    (scope_type path : string) (auth_header : option string) : Served P :=
  if negb (String.eqb scope_type "http") then AppCalled None
  else if existsb (fun excluded => String.prefix excluded path)
                  (exclude_paths self)
  then AppCalled None
  else
    let is_public := existsb (fun public => String.prefix public path)
                             (public_paths self) in
    let verify :=
      if has_bearer auth_header
      then
        match auth_header with
        | Some h =>
            let token := str_replace "Bearer " "" h in
            match jwt_decode token with
            | Some payload => AppCalled (Some payload)
            | None => CredentialsError
            end
        | None => AppCalled None
        end
      else AppCalled None in
    if is_public
    then if negb (has_bearer auth_header) then AppCalled None else verify
    else if negb (has_bearer auth_header) then Unauthorized401 else verify.
End AuthMiddleware.

(** ** Users ([app/models/user.py], [app/schemas/user.py],
       [app/services/user_service.py]) *)

(** [class User(Base)], table [users]; [username] and [email] are each
    declared [unique=True]. *)
Module User.
Record t : Type := mk {
  user_id : Z;
  username : string;
  email : string;
  full_name : option string;
  hashed_password : string;
  is_active : bool;              (* default=True *)
  is_admin : bool                (* default=False *)
}.
End User.

Module UserCreate.
Record t : Type := mk {
  username : string;
  email : string;
  full_name : option string;
  password : string
}.
End UserCreate.

(** The password hashing context.  Hashing draws a fresh salt on every
    call; the salt is an argument here.  What the service relies on is
    that a password verifies against its own hash. *)
Class PasswordHasher : Type := {
  get_password_hash : string -> string -> string;
  verify_password : string -> string -> bool;
  verify_password_hash :
    forall salt password,
      verify_password password (get_password_hash salt password) = true
}.

Inductive UserException : Type :=
| UserNotFound (user_id : Z)
| UsernameExists (username : string)
| EmailExists (email : string)
| UserIntegrityError.

Inductive user_result (A : Type) : Type :=
| UserOk (a : A)
| UserRaise (e : UserException).
Arguments UserOk {A} a.
Arguments UserRaise {A} e.

(** The users table is not related to the other two; the user service is
    written over it alone, each function giving its result and the table
    that is durable when the request ends. *)
Definition get_user_by_username (users : list User.t) (username : string)
    : option User.t :=
  find (fun u => String.eqb (User.username u) username) users.

Definition get_user_by_email (users : list User.t) (email : string)
    : option User.t :=
  find (fun u => String.eqb (User.email u) email) users.

Definition get_user (users : list User.t) (user_id : Z)
    : user_result User.t * list User.t :=
  match find (fun u => User.user_id u =? user_id) users with
  | None => (UserRaise (UserNotFound user_id), users)
  | Some user => (UserOk user, users)
  end.

(** The unique indexes on [users.username] and [users.email]. *)
Definition users_constraints_ok (users : list User.t) : bool :=
  distinct (map User.username users) && distinct (map User.email users).

Section UserService.
Context {hasher : PasswordHasher}.

Definition create_user (users : list User.t) (salt : string)
    (user_data : UserCreate.t) : user_result User.t * list User.t :=
  match get_user_by_username users (UserCreate.username user_data) with
  | Some _ =>
      (UserRaise (UsernameExists (UserCreate.username user_data)), users)
  | None =>
      match get_user_by_email users (UserCreate.email user_data) with
      | Some _ =>
          (UserRaise (EmailExists (UserCreate.email user_data)), users)
      | None =>
          let hashed_password :=
            get_password_hash salt (UserCreate.password user_data) in
          let user :=
            User.mk (next_id (map User.user_id users))
              (UserCreate.username user_data)
              (UserCreate.email user_data)
              (UserCreate.full_name user_data)
              hashed_password true false in
          if users_constraints_ok (users ++ [user])
          then (UserOk user, users ++ [user])
          else (UserRaise UserIntegrityError, users)
      end
  end.

Definition authenticate_user (users : list User.t)
    (username password : string) : option User.t :=
  match get_user_by_username users username with
  | None => None
  | Some user =>
      if negb (verify_password password (User.hashed_password user))
      then None
      else Some user
  end.
End UserService.

Definition delete_user (users : list User.t) (user_id : Z)
    : user_result unit * list User.t :=
  match get_user users user_id with
  | (UserRaise e, _) => (UserRaise e, users)
  | (UserOk user, _) =>
      (UserOk tt,
       filter (fun u => negb (User.user_id u =? User.user_id user)) users)
  end.

(** A well-formed users table. *)
Record users_ok (users : list User.t) : Prop := {
  ok_user_ids : NoDup (map User.user_id users);
  ok_usernames : NoDup (map User.username users);
  ok_user_emails : NoDup (map User.email users)
}.

(** A hasher to run the user service with: it keeps the password as it
    is. *)
#[export] Instance plain_hasher : PasswordHasher := {|
  get_password_hash := fun _ password => password;
  verify_password := String.eqb;
  verify_password_hash := fun _ password => String.eqb_refl password
|}.

Definition grace : User.t :=
  User.mk 1 "grace" "grace@example.com" None "secret-one" true false.

(** ** Listings ([list_events], [list_attendees]) *)

From Stdlib Require Import Sorted.

(** What the listings take from the SQL engine: the [ILIKE] operator
    (value, then pattern) and the arrangement of rows that [ORDER BY]
    produces.  [ORDER BY start_time] yields the rows it is given, by
    ascending start time; [ORDER BY first_name, last_name] yields the
    rows it is given in the order of the engine's collation. *)
Class SqlEngine : Type := {
  ilike : string -> string -> bool;
  order_by_start_time : list Event.t -> list Event.t;
  order_by_start_time_perm :
    forall l, Permutation (order_by_start_time l) l;
  order_by_start_time_sorted :
    forall l, StronglySorted
                (fun a b => Event.start_time a <= Event.start_time b)
                (order_by_start_time l);
  order_by_names : list Attendee.t -> list Attendee.t;
  order_by_names_perm : forall l, Permutation (order_by_names l) l
}.

(** [f"%{search}%"] *)
Definition contains (search : string) : string :=
  String.append "%" (String.append search "%").

(** [if search:] on an optional string: [None] and the empty string are
    both false. *)
Definition given (s : option string) : option string :=
  match s with
  | Some EmptyString => None
  | Some v => Some v
  | None => None
  end.

Section Listings.
Context {engine : SqlEngine}.

(** The [filters] list of [list_events], built by the five [if]s. *)
Definition event_filters (status : option EventStatus)
    (location : option string) (start_date end_date : option datetime)
    (search : option string) : list (Event.t -> bool) :=
  (match status with
   | Some st => [fun e => EventStatus_eqb (Event.status e) st]
   | None => []
   end)
  ++ (match given location with
      | Some l => [fun e => ilike (Event.location e) (contains l)]
      | None => []
      end)
  ++ (match start_date with
      | Some d => [fun e => d <=? Event.start_time e]
      | None => []
      end)
  ++ (match end_date with
      | Some d => [fun e => Event.end_time e <=? d]
      | None => []
      end)
  ++ (match given search with
      | Some s =>
          [fun e => ilike (Event.name e) (contains s)
                    || match Event.description e with
                       | Some text => ilike text (contains s)
                       | None => false
                       end]
      | None => []
      end).

(** [and_] of all the filters of the list *)
Definition and_ {A : Type} (filters : list (A -> bool)) (x : A) : bool :=
  forallb (fun f => f x) filters.

Definition list_events (skip limit : nat) (status : option EventStatus)
    (location : option string) (start_date end_date : option datetime)
    (search : option string) : M (list Event.t * nat) :=
  let filters := event_filters status location start_date end_date search in
  total <- execute (fun db =>
    List.length (filter (and_ filters) (events db))) ;;
  events <- execute (fun db =>
    firstn limit (skipn skip
      (order_by_start_time (filter (and_ filters) (events db))))) ;;
  ret (events, total).

(** The conditions of [list_attendees] on one row. *)
Definition attendee_filters (event_id : Z) (checked_in : option bool)
    (search : option string) : list (Attendee.t -> bool) :=
  [fun a => Attendee.event_id a =? event_id]
  ++ (match checked_in with
      | Some b => [fun a => Bool.eqb (Attendee.check_in_status a) b]
      | None => []
      end)
  ++ (match given search with
      | Some s =>
          [fun a => ilike (Attendee.first_name a) (contains s)
                    || ilike (Attendee.last_name a) (contains s)
                    || ilike (Attendee.email a) (contains s)]
      | None => []
      end).

Definition list_attendees (event_id : Z) (skip limit : nat)
    (checked_in : option bool) (search : option string)
    : M (list Attendee.t * nat) :=
  get_event event_id ;;
  let filters := attendee_filters event_id checked_in search in
  total <- execute (fun db =>
    List.length (filter (and_ filters) (attendees db))) ;;
  rows <- execute (fun db =>
    firstn limit (skipn skip
      (order_by_names (filter (and_ filters) (attendees db))))) ;;
  ret (rows, total).
End Listings.

(** ** Event endpoints ([app/api/routers/event_router.py]) *)

(** [class EventResponse(EventBase)]: the fields of [EventBase] with
    their constraints and the [end_time] validator, and three more. *)
Module EventResponse.
Record t : Type := mk {
  name : string;
  description : option string;
  start_time : datetime;
  end_time : datetime;
  location : string;
  max_attendees : Z;
  event_id : Z;
  status : EventStatus;
  attendee_count : nat
}.

Definition valid (r : t) : bool :=
  (1 <=? String.length (name r))%nat && (String.length (name r) <=? 100)%nat
  && (1 <=? String.length (location r))%nat
  && (String.length (location r) <=? 255)%nat
  && (0 <? max_attendees r)
  && negb (end_time r <=? start_time r).
End EventResponse.

(** [EventResponse(event_id=event.event_id, ...)]: the response, or
    [None] when its validation raises. *)
Definition event_response (event : Event.t) (attendee_count : nat)
    : option EventResponse.t :=
  let r := EventResponse.mk (Event.name event) (Event.description event)
             (Event.start_time event) (Event.end_time event)
             (Event.location event) (Event.max_attendees event)
             (Event.event_id event) (Event.status event) attendee_count in
  if EventResponse.valid r then Some r else None.

Module EventList.
Record t : Type := mk {
  events : list EventResponse.t;
  total : nat;
  page : nat;
  page_size : nat
}.
End EventList.

(** The reply of an endpoint: its payload, the [HTTPException] of a
    service, or the error of a response that does not validate. *)
Inductive Reply (A : Type) : Type :=
| Replied (a : A)
| Refused (e : Exception)
| InvalidResponse.
Arguments Replied {A} a.
Arguments Refused {A} e.
Arguments InvalidResponse {A}.

(** One request to an endpoint whose body ends by building its
    response. *)
Definition respond {A : Type} (endpoint : M (option A)) (db : Database)
    : Reply A * Database :=
  match run endpoint db with
  | (Ok (Some a), db') => (Replied a, db')
  | (Ok None, db') => (InvalidResponse, db')
  | (Raise e, db') => (Refused e, db')
  end.

Definition read_event_endpoint (event_id : Z) : M (option EventResponse.t) :=
  event <- get_event event_id ;;
  attendee_count <- get_attendee_count (Event.event_id event) ;;
  ret (event_response event attendee_count).

Definition update_event_endpoint (event_id : Z) (event_data : EventUpdate.t)
    : M (option EventResponse.t) :=
  event <- update_event event_id event_data ;;
  attendee_count <- get_attendee_count (Event.event_id event) ;;
  ret (event_response event attendee_count).

Definition create_event_endpoint (event_data : EventCreate.t)
    : M (option EventResponse.t) :=
  event <- create_event event_data ;;
  attendee_count <- get_attendee_count (Event.event_id event) ;;
  ret (event_response event attendee_count).

(** The responses of a page, or [None] when one does not validate. *)
Fixpoint all_valid {A : Type} (l : list (option A)) : option (list A) :=
  match l with
  | [] => Some []
  | None :: _ => None
  | Some x :: r =>
      match all_valid r with
      | Some xs => Some (x :: xs)
      | None => None
      end
  end.

Section ListEndpoint.
Context {engine : SqlEngine}.

(** [GET /events/]: the sweep, then the listing; [page >= 1] and
    [1 <= page_size <= 100] are checked before the endpoint runs. *)
Definition list_events_endpoint (now : datetime)
    (status : option EventStatus) (location : option string)
    (start_date end_date : option datetime) (search : option string)
    (page page_size : nat) : M (option EventList.t) :=
  let skip := ((page - 1) * page_size)%nat in
  update_event_statuses now ;;
  listed <- list_events skip page_size status location start_date end_date
              search ;;
  event_responses <- map_m (fun event =>
    attendee_count <- get_attendee_count (Event.event_id event) ;;
    ret (event_response event attendee_count)) (fst listed) ;;
  ret (match all_valid event_responses with
       | Some responses =>
           Some (EventList.mk responses (snd listed) page page_size)
       | None => None
       end).
End ListEndpoint.

(** Insertion sort, to run the listings with. *)
Fixpoint insert_by {A : Type} (le : A -> A -> bool) (x : A) (l : list A)
    : list A :=
  match l with
  | [] => [x]
  | y :: r => if le x y then x :: l else y :: insert_by le x r
  end.

Definition sort_by {A : Type} (le : A -> A -> bool) (l : list A) : list A :=
  fold_right (insert_by le) [] l.

Definition start_time_le (a b : Event.t) : bool :=
  Event.start_time a <=? Event.start_time b.

(** First names, then last names, compared byte by byte. *)
Definition names_le (a b : Attendee.t) : bool :=
  match String.compare (Attendee.first_name a) (Attendee.first_name b) with
  | Lt => true
  | Eq => String.leb (Attendee.last_name a) (Attendee.last_name b)
  | Gt => false
  end.

(** [LIKE] on lower-cased ASCII, with its two wildcards: [%] for any run
    of characters and [_] for any one character. *)
Definition lower (c : Ascii.ascii) : Ascii.ascii :=
  let n := Ascii.nat_of_ascii c in
  if (65 <=? n)%nat && (n <=? 90)%nat then Ascii.ascii_of_nat (n + 32) else c.

Fixpoint like (pattern : string) : string -> bool :=
  match pattern with
  | EmptyString =>
      fun s => match s with
               | EmptyString => true
               | String _ _ => false
               end
  | String c rest =>
      if Ascii.eqb c (Ascii.ascii_of_nat 37)
      then
        fix any_run (s : string) : bool :=
          like rest s
          || match s with
             | EmptyString => false
             | String _ s' => any_run s'
             end
      else
        fun s => match s with
                 | EmptyString => false
                 | String d s' =>
                     (Ascii.eqb c (Ascii.ascii_of_nat 95)
                      || Ascii.eqb (lower c) (lower d))
                     && like rest s'
                 end
  end.

(** * Properties *)

(** ** Lists, keys and membership tests *)

Lemma mem_Z_In (x : Z) (l : list Z) : mem_Z x l = true <-> In x l.
Proof.
  unfold mem_Z. rewrite existsb_exists. split.
  - intros [y [Hy Heq]]. apply Z.eqb_eq in Heq. now subst.
  - intros H. exists x. split; [assumption | apply Z.eqb_refl].
Qed.

Lemma mem_str_In (x : string) (l : list string) : mem_str x l = true <-> In x l.
Proof.
  unfold mem_str. rewrite existsb_exists. split.
  - intros [y [Hy Heq]]. apply String.eqb_eq in Heq. now subst.
  - intros H. exists x. split; [assumption | apply String.eqb_refl].
Qed.

Lemma mem_Z_false (x : Z) (l : list Z) : mem_Z x l = false <-> ~ In x l.
Proof.
  rewrite <- mem_Z_In. destruct (mem_Z x l); split; congruence.
Qed.

Lemma mem_str_false (x : string) (l : list string) :
  mem_str x l = false <-> ~ In x l.
Proof.
  rewrite <- mem_str_In. destruct (mem_str x l); split; congruence.
Qed.

Lemma distinct_NoDup (l : list string) : distinct l = true <-> NoDup l.
Proof.
  induction l as [|x r IH]; simpl.
  - split; [constructor | reflexivity].
  - rewrite andb_true_iff, negb_true_iff, mem_str_false, IH. split.
    + intros [Hx Hr]. now constructor.
    + intros H. inversion H; subst. now split.
Qed.

Lemma next_id_above (ids : list Z) (i : Z) : In i ids -> i < next_id ids.
Proof.
  unfold next_id. induction ids as [|j r IH]; [contradiction|].
  cbn [fold_right In]. intros [-> | Hin]; [lia|]. specialize (IH Hin). lia.
Qed.

(** Rows of a table are determined by a key whose column has no repeats. *)
Lemma key_injective {A K : Type} (key : A -> K) (l : list A) (x y : A) :
  NoDup (map key l) -> In x l -> In y l -> key x = key y -> x = y.
Proof.
  induction l as [|a r IH]; simpl; [contradiction|].
  intros Hnd Hx Hy Heq. inversion Hnd as [|? ? Hnotin Hr]; subst.
  destruct Hx as [-> | Hx], Hy as [-> | Hy]; auto.
  - exfalso. apply Hnotin. rewrite Heq. now apply in_map.
  - exfalso. apply Hnotin. rewrite <- Heq. now apply in_map.
Qed.

Lemma NoDup_map_filter {A K : Type} (key : A -> K) (p : A -> bool)
    (l : list A) :
  NoDup (map key l) -> NoDup (map key (filter p l)).
Proof.
  induction l as [|a r IH]; simpl; intros Hnd; [constructor|].
  inversion Hnd as [|? ? Hnotin Hr]; subst.
  destruct (p a); simpl; auto.
  constructor; auto.
  intros Hin. apply Hnotin. apply in_map_iff in Hin.
  destruct Hin as [b [Hkb Hb]]. apply filter_In in Hb.
  rewrite <- Hkb. apply in_map. tauto.
Qed.

(** [select(...).filter(key == k)] followed by [.first()] on a keyed
    table. *)
Lemma find_by_key {A : Type} (key : A -> Z) (l : list A) (x : A) :
  NoDup (map key l) -> In x l ->
  find (fun a => key a =? key x) l = Some x.
Proof.
  intros Hnd Hin.
  destruct (find (fun a => key a =? key x) l) as [y|] eqn:Hf.
  - apply find_some in Hf. destruct Hf as [Hy Hk]. apply Z.eqb_eq in Hk.
    f_equal. eapply key_injective; eauto.
  - eapply find_none in Hf; eauto. rewrite Z.eqb_refl in Hf. discriminate.
Qed.

Lemma find_key_sound {A : Type} (key : A -> Z) (l : list A) (k : Z) (x : A) :
  find (fun a => key a =? k) l = Some x -> In x l /\ key x = k.
Proof.
  intros Hf. apply find_some in Hf. destruct Hf as [Hin Hk].
  apply Z.eqb_eq in Hk. now split.
Qed.

(** Membership of a row's key among the keys selected by a query. *)
Lemma mem_key_filter {A : Type} (key : A -> Z) (p : A -> bool)
    (l : list A) (x : A) :
  NoDup (map key l) -> In x l ->
  mem_Z (key x) (map key (filter p l)) = p x.
Proof.
  intros Hnd Hin. destruct (p x) eqn:Hp.
  - apply mem_Z_In. apply in_map. apply filter_In. now split.
  - apply mem_Z_false. intros H. apply in_map_iff in H.
    destruct H as [y [Hk Hy]]. apply filter_In in Hy. destruct Hy as [Hy Hpy].
    assert (y = x) by (eapply key_injective; eauto). subst. congruence.
Qed.

(** ** Well-formed stores *)

Lemma distinct_Z_NoDup (l : list Z) : distinct_Z l = true <-> NoDup l.
Proof.
  induction l as [|x r IH]; simpl.
  - split; [constructor | reflexivity].
  - rewrite andb_true_iff, negb_true_iff, mem_Z_false, IH. split.
    + intros [Hx Hr]. now constructor.
    + intros H. inversion H; subst. now split.
Qed.

Lemma db_okb_ok (db : Database) : db_okb db = true -> db_ok db.
Proof.
  unfold db_okb. rewrite !andb_true_iff.
  intros [[He Ha] Hm]. split.
  - now apply distinct_Z_NoDup.
  - now apply distinct_Z_NoDup.
  - now apply distinct_NoDup.
Qed.

Lemma db_ok_constraints (db : Database) : db_ok db -> constraints_ok db = true.
Proof. intros H. apply distinct_NoDup. apply H. Qed.

Lemma empty_db_ok : db_ok empty_db.
Proof. split; simpl; constructor. Qed.

(** ** The session monad *)

Lemma for_each_write {A : Type} (g : A -> Database -> Database)
    (xs : list A) (s : AsyncSession) :
  for_each xs (fun x => write (g x)) s
  = (Ok tt, {| committed := committed s;
               pending := fold_left (fun d x => g x d) xs (pending s) |}).
Proof.
  revert s. induction xs as [|x r IH]; intros s; simpl.
  - unfold ret. now destruct s.
  - unfold bind, write at 1. simpl. now rewrite IH.
Qed.

(** A request that loads an event first fails with 404 when there is
    none. *)
Lemma get_event_found (db0 db : Database) (E : Event.t) :
  db_ok db -> In E (events db) ->
  get_event (Event.event_id E) {| committed := db0; pending := db |}
  = (Ok E, {| committed := db0; pending := db |}).
Proof.
  intros Hok Hin. unfold get_event, bind, execute. simpl.
  rewrite (find_by_key Event.event_id (events db) E); auto. apply Hok.
Qed.

Lemma get_attendee_found (db0 db : Database) (a : Attendee.t) :
  db_ok db -> In a (attendees db) ->
  get_attendee (Attendee.attendee_id a) {| committed := db0; pending := db |}
  = (Ok a, {| committed := db0; pending := db |}).
Proof.
  intros Hok Hin. unfold get_attendee, bind, execute. simpl.
  rewrite (find_by_key Attendee.attendee_id (attendees db) a); auto. apply Hok.
Qed.

(** ** Event lifecycle sweep *)

Lemma fold_set_status (st : EventStatus) (xs : list Event.t) (db : Database) :
  fold_left (fun d x => update_events (Event.event_id x) (Event.set_status st) d)
            xs db
  = {| events :=
         map (fun e => if mem_Z (Event.event_id e) (map Event.event_id xs)
                       then Event.set_status st e else e) (events db);
       attendees := attendees db |}.
Proof.
  revert db. induction xs as [|x r IH]; intros db; simpl.
  - destruct db as [evs ats]. simpl. f_equal.
    symmetry. apply map_id.
  - rewrite IH. unfold update_events. simpl. f_equal.
    rewrite map_map. apply map_ext. intros e.
    destruct (Event.event_id e =? Event.event_id x) eqn:Hx; simpl.
    + now destruct (mem_Z _ _).
    + reflexivity.
Qed.

(** The durable store after one sweep: each row moves as [sweep_row]
    says, and the attendees table is not touched. *)
Lemma run_update_event_statuses (now : datetime) (db : Database) :
  db_ok db ->
  run (update_event_statuses now) db
  = (Ok {| ongoing := List.length (filter (should_be_ongoing now) (events db));
           completed := List.length (filter (should_be_completed now) (events db)) |},
     {| events := map (sweep_row now) (events db);
        attendees := attendees db |}).
Proof.
  intros Hok. unfold run, update_event_statuses, bind, execute. simpl.
  rewrite for_each_write. simpl. rewrite for_each_write. simpl.
  rewrite !fold_set_status. unfold commit, ret. simpl.
  unfold constraints_ok at 1. simpl.
  fold (constraints_ok db). rewrite (db_ok_constraints Hok).
  cbn [committed]. f_equal. f_equal. rewrite map_map. apply map_ext_in. intros e He.
  cbn [Event.event_id Event.set_status].
  assert (Hid : forall b : bool, Event.event_id
            (if b then Event.set_status ONGOING e else e) = Event.event_id e)
    by (intros b; destruct b; reflexivity).
  rewrite Hid.
  rewrite (mem_key_filter Event.event_id (should_be_ongoing now) (events db) e),
          (mem_key_filter Event.event_id (should_be_completed now) (events db) e);
    auto; try apply Hok.
  unfold sweep_row.
  destruct (should_be_completed now e), (should_be_ongoing now e); reflexivity.
Qed.

Lemma should_be_ongoing_spec (now : datetime) (e : Event.t) :
  should_be_ongoing now e = true <->
  Event.status e = SCHEDULED /\ Event.start_time e <= now < Event.end_time e.
Proof.
  unfold should_be_ongoing.
  rewrite !andb_true_iff, Z.leb_le, Z.ltb_lt.
  destruct (Event.status e); simpl; intuition congruence.
Qed.

Lemma should_be_completed_spec (now : datetime) (e : Event.t) :
  should_be_completed now e = true <->
  (Event.status e = SCHEDULED \/ Event.status e = ONGOING)
  /\ Event.end_time e <= now.
Proof.
  unfold should_be_completed.
  rewrite andb_true_iff, Z.leb_le.
  destruct (Event.status e); simpl; intuition congruence.
Qed.

Lemma sweep_row_settled (now : datetime) (e : Event.t) :
  should_be_ongoing now (sweep_row now e) = false
  /\ should_be_completed now (sweep_row now e) = false.
Proof.
  unfold sweep_row.
  destruct (should_be_completed now e) eqn:Hc.
  - split; reflexivity.
  - destruct (should_be_ongoing now e) eqn:Ho.
    + apply should_be_ongoing_spec in Ho. destruct Ho as [_ [_ Hend]].
      unfold should_be_ongoing, should_be_completed. simpl.
      split; [reflexivity|]. apply Z.leb_gt. exact Hend.
    + now split.
Qed.

Lemma sweep_row_id (now : datetime) (e : Event.t) :
  Event.event_id (sweep_row now e) = Event.event_id e.
Proof.
  unfold sweep_row.
  destruct (should_be_completed now e), (should_be_ongoing now e); reflexivity.
Qed.

Lemma filter_none {A : Type} (p : A -> bool) (l : list A) :
  (forall x, In x l -> p x = false) -> filter p l = [].
Proof.
  induction l as [|a r IH]; simpl; intros H; [reflexivity|].
  rewrite (H a) by now left. apply IH. intros x Hx. apply H. now right.
Qed.

Lemma sweep_preserves_ok (now : datetime) (db : Database) :
  db_ok db ->
  db_ok {| events := map (sweep_row now) (events db);
           attendees := attendees db |}.
Proof.
  intros [He Ha Hm]. split; simpl; auto.
  rewrite map_map.
  rewrite (map_ext _ Event.event_id (sweep_row_id now)). exact He.
Qed.

(** C8: one run of the lifecycle sweep at time [now] succeeds, leaves the
    attendees alone, and moves each event row as follows, changing
    nothing but its status: a Scheduled event with
    [start_time <= now < end_time] becomes Ongoing; a Scheduled or Ongoing
    event with [end_time <= now] becomes Completed; a Canceled event stays
    Canceled; and a status that changed did so for one of these two
    reasons.  The counts returned are the sizes of the two groups. *)
Theorem sweep_transitions (now : datetime) (db : Database) :
  db_ok db ->
  exists db',
    run (update_event_statuses now) db
    = (Ok {| ongoing := List.length (filter (should_be_ongoing now) (events db));
             completed := List.length (filter (should_be_completed now) (events db)) |},
       db')
    /\ attendees db' = attendees db
    /\ Forall2 (fun e e' =>
         e' = Event.set_status (Event.status e') e
         /\ (Event.status e = SCHEDULED ->
             Event.start_time e <= now < Event.end_time e ->
             Event.status e' = ONGOING)
         /\ (Event.status e = SCHEDULED \/ Event.status e = ONGOING ->
             Event.end_time e <= now ->
             Event.status e' = COMPLETED)
         /\ (Event.status e = CANCELED -> Event.status e' = CANCELED)
         /\ (Event.status e' <> Event.status e ->
             (Event.status e = SCHEDULED
              /\ Event.start_time e <= now < Event.end_time e)
             \/ ((Event.status e = SCHEDULED \/ Event.status e = ONGOING)
                 /\ Event.end_time e <= now)))
       (events db) (events db').
Proof.
  intros Hok. eexists. split; [apply run_update_event_statuses; exact Hok|].
  simpl. split; [reflexivity|].
  clear Hok. induction (events db) as [|e r IH]; simpl; constructor; auto.
  clear IH. unfold sweep_row.
  destruct (should_be_completed now e) eqn:Hc;
    [|destruct (should_be_ongoing now e) eqn:Ho].
  - apply should_be_completed_spec in Hc. simpl.
    repeat split; auto.
    + intros Hs [_ Hlt]. lia.
    + intros Hcan. destruct Hc as [[H|H] _]; congruence.
  - apply should_be_ongoing_spec in Ho. simpl.
    repeat split; auto.
    + intros _ Hle. lia.
    + intros Hcan. destruct Ho as [H _]; congruence.
  - assert (Hno : ~ (Event.status e = SCHEDULED
                     /\ Event.start_time e <= now < Event.end_time e)).
    { rewrite <- should_be_ongoing_spec. congruence. }
    assert (Hnc : ~ ((Event.status e = SCHEDULED \/ Event.status e = ONGOING)
                     /\ Event.end_time e <= now)).
    { rewrite <- should_be_completed_spec. congruence. }
    repeat split; auto.
    + now destruct e.
    + intros Hs Ht. exfalso. apply Hno. now split.
    + intros Hs Ht. exfalso. apply Hnc. now split.
    + intros Hne. now exfalso.
Qed.

(** C9: at a fixed time the sweep is idempotent: on the store left by one
    run, a second run at the same time finds no event to move, reports
    zero newly ongoing and zero newly completed events, and leaves the
    store as it is. *)
Theorem sweep_idempotent (now : datetime) (db : Database) :
  db_ok db ->
  let db1 := snd (run (update_event_statuses now) db) in
  run (update_event_statuses now) db1
  = (Ok {| ongoing := 0; completed := 0 |}, db1).
Proof.
  intros Hok db1. subst db1. rewrite (run_update_event_statuses now Hok).
  cbn [snd].
  rewrite (run_update_event_statuses now (sweep_preserves_ok now Hok)).
  cbn [events attendees].
  assert (Ho : filter (should_be_ongoing now) (map (sweep_row now) (events db)) = []).
  { apply filter_none. intros x Hx. apply in_map_iff in Hx.
    destruct Hx as [e [<- _]]. apply sweep_row_settled. }
  assert (Hc : filter (should_be_completed now) (map (sweep_row now) (events db)) = []).
  { apply filter_none. intros x Hx. apply in_map_iff in Hx.
    destruct Hx as [e [<- _]]. apply sweep_row_settled. }
  rewrite Ho, Hc. simpl. f_equal. f_equal.
  rewrite map_map. apply map_ext. intros e.
  destruct (sweep_row_settled now e) as [H1 H2].
  unfold sweep_row at 1. now rewrite H1, H2.
Qed.

(** ** Check-in *)

Lemma constraints_update_attendees (i : Z) (f : Attendee.t -> Attendee.t)
    (db : Database) :
  (forall a, Attendee.email (f a) = Attendee.email a) ->
  constraints_ok (update_attendees i f db) = constraints_ok db.
Proof.
  intros Hf. unfold constraints_ok, update_attendees. simpl.
  rewrite map_map. f_equal. apply map_ext. intros a.
  destruct (Attendee.attendee_id a =? i); auto.
Qed.

Lemma update_attendees_ok (i : Z) (f : Attendee.t -> Attendee.t)
    (db : Database) :
  (forall a, Attendee.attendee_id (f a) = Attendee.attendee_id a) ->
  (forall a, Attendee.email (f a) = Attendee.email a) ->
  db_ok db -> db_ok (update_attendees i f db).
Proof.
  intros Hid Hem [He Ha Hm]. split; simpl; auto.
  - rewrite map_map.
    erewrite map_ext; [exact Ha|]. intros a. simpl.
    destruct (Attendee.attendee_id a =? i); auto.
  - rewrite map_map.
    erewrite map_ext; [exact Hm|]. intros a. simpl.
    destruct (Attendee.attendee_id a =? i); auto.
Qed.

Lemma run_check_in_attendee (db : Database) (a : Attendee.t) :
  db_ok db -> In a (attendees db) ->
  run (check_in_attendee (Attendee.attendee_id a)) db
  = if Attendee.check_in_status a
    then (Raise (AlreadyCheckedIn (Attendee.attendee_id a)), db)
    else (Ok (Attendee.set_check_in_status true a),
          update_attendees (Attendee.attendee_id a)
                           (Attendee.set_check_in_status true) db).
Proof.
  intros Hok Hin. unfold run, check_in_attendee, bind.
  rewrite (@get_attendee_found db db a Hok Hin).
  destruct (Attendee.check_in_status a); [reflexivity|].
  unfold write, commit, ret. cbn [pending committed].
  rewrite constraints_update_attendees by reflexivity.
  now rewrite (db_ok_constraints Hok).
Qed.

Lemma In_update_attendees (i : Z) (f : Attendee.t -> Attendee.t)
    (db : Database) (a : Attendee.t) :
  In a (attendees db) -> Attendee.attendee_id a = i ->
  In (f a) (attendees (update_attendees i f db)).
Proof.
  intros Hin Hid. unfold update_attendees. simpl.
  apply in_map_iff. exists a. split; auto.
  subst i. now rewrite Z.eqb_refl.
Qed.

(** C5: for an attendee [A] of the store that is not checked in, the first
    single check-in succeeds, returns [A] checked in and stores it so (the
    row with [A]'s key now has [check_in_status = true], every other row
    is as before); a second check-in of [A] fails with the
    already-checked-in error and leaves the store as the first call left
    it. *)
Theorem check_in_twice (db : Database) (A : Attendee.t) :
  db_ok db -> In A (attendees db) -> Attendee.check_in_status A = false ->
  let id := Attendee.attendee_id A in
  let first := run (check_in_attendee id) db in
  fst first = Ok (Attendee.set_check_in_status true A)
  /\ events (snd first) = events db
  /\ attendees (snd first)
     = map (fun a => if Attendee.attendee_id a =? id
                     then Attendee.set_check_in_status true a else a)
           (attendees db)
  /\ In (Attendee.set_check_in_status true A) (attendees (snd first))
  /\ run (check_in_attendee id) (snd first)
     = (Raise (AlreadyCheckedIn id), snd first)
  /\ classify (AlreadyCheckedIn id) = AlreadyCheckedInError.
Proof.
  intros Hok Hin Hst id first. subst first id.
  rewrite (@run_check_in_attendee db A Hok Hin), Hst. cbn [fst snd].
  split; [reflexivity|]. split; [reflexivity|]. split; [reflexivity|].
  assert (Hin' : In (Attendee.set_check_in_status true A)
                    (attendees (update_attendees (Attendee.attendee_id A)
                                  (Attendee.set_check_in_status true) db)))
    by (now apply In_update_attendees).
  split; [exact Hin'|]. split; [|reflexivity].
  assert (Hok' : db_ok (update_attendees (Attendee.attendee_id A)
                          (Attendee.set_check_in_status true) db))
    by (now apply update_attendees_ok).
  exact (@run_check_in_attendee _ _ Hok' Hin').
Qed.

Lemma check_in_loop_spec (rows : list Attendee.t) (al nw : list Z)
    (s : AsyncSession) :
  check_in_loop rows al nw s
  = (Ok (al ++ map Attendee.attendee_id
                   (filter Attendee.check_in_status rows),
         nw ++ map Attendee.attendee_id
                   (filter (fun a => negb (Attendee.check_in_status a)) rows)),
     {| committed := committed s;
        pending :=
          fold_left (fun d x => update_attendees (Attendee.attendee_id x)
                                  (Attendee.set_check_in_status true) d)
                    (filter (fun a => negb (Attendee.check_in_status a)) rows)
                    (pending s) |}).
Proof.
  revert al nw s. induction rows as [|a r IH]; intros al nw s; simpl.
  - unfold ret. rewrite !app_nil_r. now destruct s.
  - destruct (Attendee.check_in_status a); simpl.
    + rewrite IH. now rewrite <- app_assoc.
    + unfold bind, write at 1. rewrite IH. cbn [committed pending].
      now rewrite <- app_assoc.
Qed.

Lemma fold_check_in (xs : list Attendee.t) (db : Database) :
  fold_left (fun d x => update_attendees (Attendee.attendee_id x)
                          (Attendee.set_check_in_status true) d) xs db
  = {| events := events db;
       attendees :=
         map (fun a => if mem_Z (Attendee.attendee_id a)
                                (map Attendee.attendee_id xs)
                       then Attendee.set_check_in_status true a else a)
             (attendees db) |}.
Proof.
  revert db. induction xs as [|x r IH]; intros db; simpl.
  - destruct db as [evs ats]. simpl. f_equal. symmetry. apply map_id.
  - rewrite IH. unfold update_attendees. simpl. f_equal.
    rewrite map_map. apply map_ext. intros a.
    destruct (Attendee.attendee_id a =? Attendee.attendee_id x) eqn:Hx; simpl.
    + now destruct (mem_Z _ _).
    + reflexivity.
Qed.

Lemma run_bulk_check_in (db : Database) (E : Event.t) (ids : list Z) :
  db_ok db -> In E (events db) ->
  let rows := rows_of_event (Event.event_id E) ids db in
  let newly := map Attendee.attendee_id
                 (filter (fun a => negb (Attendee.check_in_status a)) rows) in
  run (bulk_check_in (Event.event_id E) ids) db
  = (Ok {| total := List.length ids;
           found := List.length rows;
           missing := filter (fun id => negb (mem_Z id (map Attendee.attendee_id rows))) ids;
           already_checked_in :=
             map Attendee.attendee_id (filter Attendee.check_in_status rows);
           newly_checked_in := newly |},
     {| events := events db;
        attendees :=
          map (fun a => if mem_Z (Attendee.attendee_id a) newly
                        then Attendee.set_check_in_status true a else a)
              (attendees db) |}).
Proof.
  intros Hok Hin rows newly. unfold run, bulk_check_in, bind.
  rewrite (@get_event_found db db E Hok Hin).
  unfold execute at 1. cbn [pending].
  fold (rows_of_event (Event.event_id E) ids db). fold rows.
  rewrite check_in_loop_spec. cbn [pending committed fst snd app].
  rewrite fold_check_in. fold newly.
  unfold commit, ret. cbn [pending committed].
  assert (Hc : constraints_ok
            {| events := events db;
               attendees :=
                 map (fun a => if mem_Z (Attendee.attendee_id a) newly
                               then Attendee.set_check_in_status true a else a)
                     (attendees db) |} = true).
  { rewrite <- (db_ok_constraints Hok). unfold constraints_ok. simpl.
    rewrite map_map. f_equal. apply map_ext. intros a.
    now destruct (mem_Z _ _). }
  now rewrite Hc.
Qed.

Lemma rows_of_event_In (event_id : Z) (ids : list Z) (db : Database)
    (a : Attendee.t) :
  In a (rows_of_event event_id ids db) <->
  In a (attendees db) /\ Attendee.event_id a = event_id
  /\ In (Attendee.attendee_id a) ids.
Proof.
  unfold rows_of_event. rewrite filter_In, andb_true_iff, Z.eqb_eq, mem_Z_In.
  tauto.
Qed.

(** An attendee of event [event_id] with key [id] and the given check-in
    status is stored. *)
Lemma key_in_filtered (p : Attendee.t -> bool) (rows : list Attendee.t)
    (id : Z) :
  In id (map Attendee.attendee_id (filter p rows)) <->
  exists a, In a rows /\ Attendee.attendee_id a = id /\ p a = true.
Proof.
  rewrite in_map_iff. split.
  - intros [a [Hid Ha]]. apply filter_In in Ha. exists a. tauto.
  - intros [a [Ha [Hid Hp]]]. exists a. rewrite filter_In. tauto.
Qed.


(** ** Registration *)

Lemma map_m_add_attendee {D : Type} (row : D -> Z -> Attendee.t)
    (data : list D) (s : AsyncSession) :
  map_m (fun d => add_attendee (row d)) data s
  = (Ok (insert_rows row data (attendees (pending s))),
     {| committed := committed s;
        pending :=
          {| events := events (pending s);
             attendees := attendees (pending s)
                          ++ insert_rows row data (attendees (pending s)) |} |}).
Proof.
  revert s. induction data as [|d r IH]; intros s; simpl.
  - unfold ret. rewrite app_nil_r. now destruct s as [c [evs ats]].
  - unfold bind at 1. unfold add_attendee at 1.
    unfold bind, execute, write, ret. cbn [pending committed].
    rewrite IH. cbn [pending committed events attendees].
    now rewrite <- app_assoc.
Qed.

Section Registration.
Context {set_order : SetOrder}.

Lemma run_bulk_create_attendees (db : Database) (E : Event.t)
    (B : list AttendeeCsv.t) :
  db_ok db -> In E (events db) ->
  run (bulk_create_attendees (AttendeeBulkCreate.mk (Event.event_id E) B)) db
  = register_batch DuplicateEmailsInRequest E B db.
Proof.
  intros Hok Hin. unfold run, bulk_create_attendees, register_batch, bind.
  cbn [AttendeeBulkCreate.event_id AttendeeBulkCreate.attendees].
  rewrite (@get_event_found db db E Hok Hin).
  unfold execute at 1. cbn [pending].
  destruct (Event.max_attendees E <? _); [reflexivity|].
  destruct (duplicates _); [|reflexivity].
  unfold execute at 1. cbn [pending].
  fold (existing_emails (Event.event_id E) (map AttendeeCsv.email B) db).
  destruct (existing_emails _ _ _); [|reflexivity].
  change (fun attendee_data id => Attendee.mk id
            (AttendeeCsv.first_name attendee_data)
            (AttendeeCsv.last_name attendee_data)
            (AttendeeCsv.email attendee_data)
            (AttendeeCsv.phone_number attendee_data)
            (Event.event_id E) false)
    with (csv_row (Event.event_id E)).
  rewrite map_m_add_attendee. cbn [pending committed events attendees].
  unfold commit, ret. cbn [pending committed].
  now destruct (constraints_ok _).
Qed.

Lemma run_process_csv_upload (db : Database) (E : Event.t)
    (file : UploadFile) (B : list AttendeeCsv.t) :
  db_ok db -> In E (events db) -> parsed_batch file = Some B ->
  run (process_csv_upload (Event.event_id E) file) db
  = register_batch DuplicateEmailsInCsv E B db.
Proof.
  intros Hok Hin Hfile. unfold run, process_csv_upload, register_batch, bind.
  rewrite (@get_event_found db db E Hok Hin).
  unfold execute at 1. cbn [pending].
  unfold parsed_batch in Hfile.
  destruct file as [|columns rows]; [discriminate|].
  destruct (filter _ required_columns); [|discriminate].
  rewrite Hfile.
  destruct (Event.max_attendees E <? _); [reflexivity|].
  destruct (duplicates _); [|reflexivity].
  unfold execute at 1. cbn [pending].
  fold (existing_emails (Event.event_id E) (map AttendeeCsv.email B) db).
  destruct (existing_emails _ _ _); [|reflexivity].
  change (fun attendee_data id => Attendee.mk id
            (AttendeeCsv.first_name attendee_data)
            (AttendeeCsv.last_name attendee_data)
            (AttendeeCsv.email attendee_data)
            (AttendeeCsv.phone_number attendee_data)
            (Event.event_id E) false)
    with (csv_row (Event.event_id E)).
  rewrite map_m_add_attendee. cbn [pending committed events attendees].
  unfold commit, ret. cbn [pending committed].
  now destruct (constraints_ok _).
Qed.

Lemma run_create_attendee (db : Database) (E : Event.t)
    (d : AttendeeCreate.t) :
  db_ok db -> In E (events db) ->
  AttendeeCreate.event_id d = Event.event_id E ->
  run (create_attendee d) db
  = if Event.max_attendees E
       <=? Z.of_nat (count_attendees (Event.event_id E) db)
    then (Raise (EventAtCapacity (Event.max_attendees E)), db)
    else
      match find (fun a =>
                    String.eqb (Attendee.email a) (AttendeeCreate.email d)
                    && (Attendee.event_id a =? Event.event_id E))
                 (attendees db) with
      | Some _ => (Raise (EmailAlreadyRegistered (AttendeeCreate.email d)), db)
      | None =>
          let a := Attendee.mk
                     (next_id (map Attendee.attendee_id (attendees db)))
                     (AttendeeCreate.first_name d)
                     (AttendeeCreate.last_name d)
                     (AttendeeCreate.email d)
                     (AttendeeCreate.phone_number d)
                     (Event.event_id E) false in
          let db' := {| events := events db;
                        attendees := attendees db ++ [a] |} in
          if constraints_ok db' then (Ok a, db')
          else (Raise IntegrityError, db)
      end.
Proof.
  intros Hok Hin Hid. unfold run, create_attendee, bind.
  rewrite Hid. rewrite (@get_event_found db db E Hok Hin).
  unfold execute at 1. cbn [pending].
  destruct (Event.max_attendees E <=? _); [reflexivity|].
  unfold execute at 1. cbn [pending].
  destruct (find _ (attendees db)); [reflexivity|].
  unfold add_attendee, bind, execute, write, commit, ret.
  cbn [pending committed events attendees].
  now destruct (constraints_ok _).
Qed.

(** C1: for an event [E] of the store and a batch [B] with
    [current_count(E) + len(B) > max_attendees(E)], bulk registration of
    [B], whether [B] is sent as a JSON batch or is what an uploaded file
    parses to, fails with the capacity error that names the batch size,
    the limit and the current count, and the store is unchanged; a
    single registration for [E] fails with a capacity error, store
    unchanged, when [current_count(E) + 1 > max_attendees(E)]. *)
Theorem capacity_rule (db : Database) (E : Event.t) (B : list AttendeeCsv.t) :
  db_ok db -> In E (events db) ->
  let count := count_attendees (Event.event_id E) db in
  (Z.of_nat count + Z.of_nat (List.length B) > Event.max_attendees E ->
   let e := CannotRegister (List.length B) (Event.max_attendees E) count in
   run (bulk_create_attendees
          (AttendeeBulkCreate.mk (Event.event_id E) B)) db
   = (Raise e, db)
   /\ (forall file, parsed_batch file = Some B ->
         run (process_csv_upload (Event.event_id E) file) db = (Raise e, db))
   /\ classify e = CapacityExceeded)
  /\ (forall d, AttendeeCreate.event_id d = Event.event_id E ->
        Z.of_nat count + 1 > Event.max_attendees E ->
        run (create_attendee d) db
        = (Raise (EventAtCapacity (Event.max_attendees E)), db)
        /\ classify (EventAtCapacity (Event.max_attendees E))
           = CapacityExceeded).
Proof.
  intros Hok Hin count. split.
  - intros Hcap e.
    assert (Hlt : (Event.max_attendees E
                   <? Z.of_nat count + Z.of_nat (List.length B)) = true)
      by (apply Z.ltb_lt; lia).
    split; [|split; [|reflexivity]].
    + rewrite (@run_bulk_create_attendees db E B Hok Hin).
      unfold register_batch. fold count. now rewrite Hlt.
    + intros file Hfile.
      rewrite (@run_process_csv_upload db E file B Hok Hin Hfile).
      unfold register_batch. fold count. now rewrite Hlt.
  - intros d Hd Hcap. split; [|reflexivity].
    rewrite (@run_create_attendee db E d Hok Hin Hd). fold count.
    assert (Hle : (Event.max_attendees E <=? Z.of_nat count) = true)
      by (apply Z.leb_le; lia).
    now rewrite Hle.
Qed.
End Registration.

(** ** Duplicate emails *)

Lemma In_firstn {A : Type} (n : nat) (l : list A) (x : A) :
  In x (firstn n l) -> In x l.
Proof.
  intros H. rewrite <- (firstn_skipn n l). apply in_app_iff. now left.
Qed.

Lemma firstn_5_bounds {A : Type} (x : A) (l : list A) :
  (1 <= List.length (firstn 5 (x :: l)) <= 5)%nat.
Proof.
  split; [simpl; lia | apply firstn_le_length].
Qed.

Lemma In_existing_emails (event_id : Z) (emails : list string)
    (db : Database) (m : string) :
  In m (existing_emails event_id emails db) <->
  In m emails /\ exists a, In a (attendees db)
                           /\ Attendee.event_id a = event_id
                           /\ Attendee.email a = m.
Proof.
  unfold existing_emails. rewrite in_map_iff. split.
  - intros [a [Hm Ha]]. apply filter_In in Ha. destruct Ha as [Ha Hp].
    apply andb_true_iff in Hp. destruct Hp as [He Hmem].
    apply Z.eqb_eq in He. apply mem_str_In in Hmem. subst m.
    split; [assumption|]. now exists a.
  - intros [Hin [a [Ha [He Hm]]]]. exists a. split; [assumption|].
    apply filter_In. split; [assumption|].
    apply andb_true_iff. split; [now apply Z.eqb_eq|].
    apply mem_str_In. now rewrite Hm.
Qed.

Section Duplicates.
Context {set_order : SetOrder}.

Lemma In_duplicates (emails : list string) (m : string) :
  In m (duplicates emails) <->
  (1 < count_occ string_dec emails m)%nat.
Proof.
  unfold duplicates. rewrite filter_In, set_iter_In, Nat.ltb_lt. split.
  - tauto.
  - intros H. split; [|assumption].
    apply (count_occ_In string_dec). lia.
Qed.

Lemma duplicates_nil (emails : list string) :
  duplicates emails = [] <-> NoDup emails.
Proof.
  rewrite NoDup_count_occ with (decA := string_dec). split.
  - intros Hnil m.
    destruct (le_lt_dec (count_occ string_dec emails m) 1) as [Hle | Hgt];
      [assumption|].
    apply In_duplicates in Hgt. rewrite Hnil in Hgt. contradiction.
  - intros Hnd. destruct (duplicates emails) as [|m r] eqn:Hd;
      [reflexivity|].
    assert (Hin : In m (duplicates emails)) by (rewrite Hd; now left).
    apply In_duplicates in Hin. specialize (Hnd m). lia.
Qed.

(** C2 (as the code has it): for an event [E] of the store and a batch
    [B] that passes the capacity rule, if some email occurs more than
    once in [B], or some email of [B] is already stored for [E], then
    bulk registration of [B], sent as a JSON batch or parsed from an
    uploaded file, fails with a duplicate-email error; the error reports
    at least one and at most five addresses, each of them an offending
    one, and the store is unchanged. *)
Theorem duplicate_rule (db : Database) (E : Event.t)
    (B : list AttendeeCsv.t) (call : M BulkCreated) :
  db_ok db -> In E (events db) ->
  Z.of_nat (count_attendees (Event.event_id E) db)
  + Z.of_nat (List.length B) <= Event.max_attendees E ->
  let emails := map AttendeeCsv.email B in
  let repeated m := (1 < count_occ string_dec emails m)%nat in
  let taken m := In m emails
                 /\ exists a, In a (attendees db)
                              /\ Attendee.event_id a = Event.event_id E
                              /\ Attendee.email a = m in
  (exists m, repeated m \/ taken m) ->
  call = bulk_create_attendees (AttendeeBulkCreate.mk (Event.event_id E) B)
  \/ (exists file, parsed_batch file = Some B
                   /\ call = process_csv_upload (Event.event_id E) file) ->
  exists e,
    run call db = (Raise e, db)
    /\ classify e = DuplicateEmail
    /\ (1 <= List.length (reported_emails e) <= 5)%nat
    /\ forall m, In m (reported_emails e) -> repeated m \/ taken m.
Proof.
  intros Hok Hin Hcap emails repeated taken Hoff Hcall.
  assert (Hrun : exists dup,
             run call db = register_batch dup E B db
             /\ (forall l, classify (dup l) = DuplicateEmail)
             /\ (forall l, reported_emails (dup l) = l)).
  { destruct Hcall as [-> | [file [Hfile ->]]].
    - exists DuplicateEmailsInRequest.
      rewrite (@run_bulk_create_attendees _ db E B Hok Hin). auto.
    - exists DuplicateEmailsInCsv.
      rewrite (@run_process_csv_upload _ db E file B Hok Hin Hfile). auto. }
  destruct Hrun as [dup [-> [Hclass Hrep]]].
  unfold register_batch.
  assert (Hlt : (Event.max_attendees E
                 <? Z.of_nat (count_attendees (Event.event_id E) db)
                    + Z.of_nat (List.length B)) = false)
    by (apply Z.ltb_ge; lia).
  rewrite Hlt. fold emails.
  destruct (duplicates emails) as [|m r] eqn:Hd.
  - destruct (existing_emails (Event.event_id E) emails db) as [|m r] eqn:Hex.
    + exfalso. destruct Hoff as [m [Hm | Hm]].
      * apply In_duplicates in Hm. rewrite Hd in Hm. contradiction.
      * apply In_existing_emails in Hm. rewrite Hex in Hm. contradiction.
    + eexists. split; [reflexivity|]. split; [reflexivity|].
      cbn [reported_emails]. split; [apply firstn_5_bounds|].
      intros x Hx. right. apply In_firstn in Hx.
      rewrite <- Hex in Hx. now apply In_existing_emails in Hx.
  - eexists. split; [reflexivity|]. split; [apply Hclass|].
    rewrite Hrep. split; [apply firstn_5_bounds|].
    intros x Hx. left. apply In_firstn in Hx.
    rewrite <- Hd in Hx. now apply In_duplicates in Hx.
Qed.
End Duplicates.

(** A batch that repeats an email and is also too large for the event is
    refused by the capacity rule, which runs first. *)
Lemma duplicate_rule_unconditional_fails : ~ duplicate_rule_unconditional.
Proof.
  intros H.
  destruct (H first_seen sample_db launch
              [candidate "eve@example.com"; candidate "eve@example.com"])
    as [e [Hrun [Hclass _]]].
  - apply db_okb_ok. reflexivity.
  - simpl. now left.
  - exists "eve@example.com"%string. left. vm_compute. lia.
  - vm_compute in Hrun. inversion Hrun; subst e. discriminate Hclass.
Qed.

(** ** Every request, branch by branch *)

Lemma constraints_same_attendees (db db' : Database) :
  attendees db' = attendees db -> constraints_ok db' = constraints_ok db.
Proof. unfold constraints_ok. now intros ->. Qed.

Lemma constraints_filter (evs : list Event.t) (p : Attendee.t -> bool)
    (db : Database) :
  db_ok db ->
  constraints_ok {| events := evs; attendees := filter p (attendees db) |}
  = true.
Proof.
  intros Hok. apply distinct_NoDup. simpl.
  apply NoDup_map_filter. apply Hok.
Qed.

Lemma run_create_event (db : Database) (d : EventCreate.t) :
  db_ok db -> fits_integer (EventCreate.max_attendees d) = true ->
  let e := Event.mk (next_id (map Event.event_id (events db)))
             (EventCreate.name d) (EventCreate.description d)
             (EventCreate.start_time d) (EventCreate.end_time d)
             (EventCreate.location d) (EventCreate.max_attendees d)
             (EventCreate.status d) in
  run (create_event d) db
  = (Ok e, {| events := events db ++ [e]; attendees := attendees db |}).
Proof.
  intros Hok Hfits e. unfold run, create_event, add_event, bind, execute,
    write, ret. cbn [pending committed events attendees Event.max_attendees].
  rewrite Hfits. unfold commit. cbn [pending committed events attendees].
  rewrite (@constraints_same_attendees db) by reflexivity.
  now rewrite (db_ok_constraints Hok).
Qed.

Lemma run_create_event_overflow (db : Database) (d : EventCreate.t) :
  fits_integer (EventCreate.max_attendees d) = false ->
  run (create_event d) db = (Raise OverflowError, db).
Proof.
  intros Hfits. unfold run, create_event, add_event, bind, execute, write,
    ret. cbn [pending committed events attendees Event.max_attendees].
  now rewrite Hfits.
Qed.

Lemma run_update_event (db : Database) (id : Z) (d : EventUpdate.t) :
  db_ok db ->
  run (update_event id d) db
  = match find (fun e => Event.event_id e =? id) (events db) with
    | None => (Raise (EventNotFound id), db)
    | Some event =>
        if overflows d then (Raise OverflowError, db)
        else
          match apply_event_update d event with
          | Some event' =>
              (Ok event',
               update_events (Event.event_id event) (fun _ => event') db)
          | None => (Raise IntegrityError, db)
          end
    end.
Proof.
  intros Hok. unfold run, update_event, get_event, bind, execute.
  cbn [pending committed].
  destruct (find _ (events db)) as [event|]; [|reflexivity].
  unfold ret at 1.
  destruct (overflows d); [reflexivity|].
  destruct (apply_event_update d event) as [event'|]; [|reflexivity].
  unfold write, commit, ret. cbn [pending committed].
  rewrite (@constraints_same_attendees db) by reflexivity.
  now rewrite (db_ok_constraints Hok).
Qed.

Lemma run_delete_event (db : Database) (id : Z) :
  db_ok db ->
  run (delete_event id) db
  = match find (fun e => Event.event_id e =? id) (events db) with
    | None => (Raise (EventNotFound id), db)
    | Some event =>
        (Ok tt,
         {| events := filter (fun e => negb (Event.event_id e
                                             =? Event.event_id event))
                             (events db);
            attendees := filter (fun a => negb (Attendee.event_id a
                                                =? Event.event_id event))
                                (attendees db) |})
    end.
Proof.
  intros Hok. unfold run, delete_event, get_event, bind, execute.
  cbn [pending committed].
  destruct (find _ (events db)) as [event|]; [|reflexivity].
  unfold ret, write, commit. cbn [pending committed].
  now rewrite constraints_filter.
Qed.

Lemma run_delete_attendee (db : Database) (id : Z) :
  db_ok db ->
  run (delete_attendee id) db
  = match find (fun a => Attendee.attendee_id a =? id) (attendees db) with
    | None => (Raise (AttendeeNotFound id), db)
    | Some attendee =>
        (Ok tt,
         {| events := events db;
            attendees := filter (fun a => negb (Attendee.attendee_id a
                                                =? Attendee.attendee_id attendee))
                                (attendees db) |})
    end.
Proof.
  intros Hok. unfold run, delete_attendee, get_attendee, bind, execute.
  cbn [pending committed].
  destruct (find _ (attendees db)) as [attendee|]; [|reflexivity].
  unfold ret, write, commit. cbn [pending committed].
  now rewrite constraints_filter.
Qed.

Lemma run_update_attendee (db : Database) (id : Z) (d : AttendeeUpdate.t) :
  run (update_attendee id d) db
  = match find (fun a => Attendee.attendee_id a =? id) (attendees db) with
    | None => (Raise (AttendeeNotFound id), db)
    | Some attendee =>
        match email_conflict id d attendee db with
        | Some e => (Raise (EmailAlreadyRegistered e), db)
        | None =>
            match apply_attendee_update d attendee with
            | Some attendee' =>
                let db' := update_attendees (Attendee.attendee_id attendee)
                             (fun _ => attendee') db in
                if constraints_ok db' then (Ok attendee', db')
                else (Raise IntegrityError, db)
            | None => (Raise IntegrityError, db)
            end
        end
    end.
Proof.
  unfold run, update_attendee, get_attendee, email_conflict, bind, execute,
    ret, raise, write, commit, commit_null_violation.
  cbn [pending committed].
  destruct (find _ (attendees db)) as [attendee|]; [|reflexivity].
  destruct (email_changes d attendee) as [e|];
    cbn beta iota delta [pending committed];
    [destruct (find _ (attendees db)); [reflexivity|] |];
    (destruct (apply_attendee_update d attendee); [|reflexivity]);
    cbn beta iota zeta delta [pending committed];
    now destruct (constraints_ok _).
Qed.

Lemma run_check_in_not_found (db : Database) (id : Z) :
  find (fun a => Attendee.attendee_id a =? id) (attendees db) = None ->
  run (check_in_attendee id) db = (Raise (AttendeeNotFound id), db).
Proof.
  intros Hf. unfold run, check_in_attendee, get_attendee, bind, execute.
  cbn [pending committed]. now rewrite Hf.
Qed.

Lemma run_bulk_check_in_not_found (db : Database) (id : Z) (ids : list Z) :
  find (fun e => Event.event_id e =? id) (events db) = None ->
  run (bulk_check_in id ids) db = (Raise (EventNotFound id), db).
Proof.
  intros Hf. unfold run, bulk_check_in, get_event, bind, execute.
  cbn [pending committed]. now rewrite Hf.
Qed.

Section NotFound.
Context {set_order : SetOrder}.

Lemma run_create_attendee_not_found (db : Database) (d : AttendeeCreate.t) :
  find (fun e => Event.event_id e =? AttendeeCreate.event_id d) (events db)
  = None ->
  run (create_attendee d) db
  = (Raise (EventNotFound (AttendeeCreate.event_id d)), db).
Proof.
  intros Hf. unfold run, create_attendee, get_event, bind, execute.
  cbn [pending committed]. now rewrite Hf.
Qed.

Lemma run_bulk_create_not_found (db : Database) (d : AttendeeBulkCreate.t) :
  find (fun e => Event.event_id e =? AttendeeBulkCreate.event_id d)
       (events db) = None ->
  run (bulk_create_attendees d) db
  = (Raise (EventNotFound (AttendeeBulkCreate.event_id d)), db).
Proof.
  intros Hf. unfold run, bulk_create_attendees, get_event, bind, execute.
  cbn [pending committed]. now rewrite Hf.
Qed.

Lemma run_csv_not_found (db : Database) (id : Z) (file : UploadFile) :
  find (fun e => Event.event_id e =? id) (events db) = None ->
  run (process_csv_upload id file) db = (Raise (EventNotFound id), db).
Proof.
  intros Hf. unfold run, process_csv_upload, get_event, bind, execute.
  cbn [pending committed]. now rewrite Hf.
Qed.

(** File parsing failures are reported before validation runs, and
    nothing is written. *)
Lemma run_csv_unparsed (db : Database) (E : Event.t) (file : UploadFile) :
  db_ok db -> In E (events db) -> parsed_batch file = None ->
  exists e, run (process_csv_upload (Event.event_id E) file) db = (Raise e, db)
            /\ classify e = MalformedInput.
Proof.
  intros Hok Hin Hfile. unfold run, process_csv_upload, bind.
  rewrite (@get_event_found db db E Hok Hin).
  unfold execute at 1. cbn [pending].
  unfold parsed_batch in Hfile.
  destruct file as [|columns rows].
  - eexists. split; reflexivity.
  - destruct (filter _ required_columns).
    + rewrite Hfile. eexists. split; reflexivity.
    + eexists. split; reflexivity.
Qed.
End NotFound.

(** ** Keys handed out by the store *)

Section InsertRows.
Context {D : Type} (row : D -> Z -> Attendee.t).
Hypothesis row_key : forall d i, Attendee.attendee_id (row d i) = i.

Lemma insert_rows_length (data : list D) (table : list Attendee.t) :
  List.length (insert_rows row data table) = List.length data.
Proof.
  revert table. induction data as [|d r IH]; intros table; simpl; auto.
Qed.

Lemma insert_rows_above (data : list D) (table : list Attendee.t)
    (a b : Attendee.t) :
  In a (insert_rows row data table) -> In b table ->
  Attendee.attendee_id b < Attendee.attendee_id a.
Proof.
  revert table. induction data as [|d r IH]; intros table; simpl;
    [contradiction|].
  intros [<- | Ha] Hb.
  - rewrite row_key. apply next_id_above. now apply in_map.
  - apply (IH _ Ha). apply in_app_iff. now left.
Qed.

Lemma insert_rows_NoDup (data : list D) (table : list Attendee.t) :
  NoDup (map Attendee.attendee_id (insert_rows row data table)).
Proof.
  revert table. induction data as [|d r IH]; intros table; simpl;
    constructor; auto.
  intros Hin. apply in_map_iff in Hin. destruct Hin as [a [Hid Ha]].
  assert (Hlt : Attendee.attendee_id
                  (row d (next_id (map Attendee.attendee_id table)))
                < Attendee.attendee_id a).
  { apply (@insert_rows_above r
             (table ++ [row d (next_id (map Attendee.attendee_id table))]));
      [exact Ha|].
    apply in_app_iff. right. now left. }
  rewrite Hid in Hlt. now apply Z.lt_irrefl in Hlt.
Qed.

Lemma insert_rows_rows (data : list D) (table : list Attendee.t) :
  Forall2 (fun d a => a = row d (Attendee.attendee_id a))
          data (insert_rows row data table).
Proof.
  revert table. induction data as [|d r IH]; intros table; simpl;
    constructor; auto.
  now rewrite row_key.
Qed.
End InsertRows.

Lemma csv_row_key (event_id : Z) (d : AttendeeCsv.t) (i : Z) :
  Attendee.attendee_id (csv_row event_id d i) = i.
Proof. reflexivity. Qed.

Lemma insert_rows_emails (event_id : Z) (data : list AttendeeCsv.t)
    (table : list Attendee.t) :
  map Attendee.email (insert_rows (csv_row event_id) data table)
  = map AttendeeCsv.email data.
Proof.
  revert table. induction data as [|d r IH]; intros table; simpl; auto.
  now rewrite IH.
Qed.

(** ** Tables keep their keys apart *)

Lemma table_step_NoDup {A : Type} (key : A -> Z) (related : A -> A -> Prop)
    (l l' : list A) :
  table_step key related l l' -> NoDup (map key l) -> NoDup (map key l').
Proof.
  intros Hstep Hnd. destruct Hstep as [|p|news Hnews Hfresh|g Hg].
  - assumption.
  - now apply NoDup_map_filter.
  - rewrite map_app. apply NoDup_app; auto.
    intros k Hk Hk'. apply in_map_iff in Hk. apply in_map_iff in Hk'.
    destruct Hk as [b [<- Hb]], Hk' as [a [Heq Ha]].
    specialize (Hfresh a b Ha Hb). lia.
  - rewrite map_map. erewrite map_ext_in; [exact Hnd|].
    intros x Hx. now apply Hg.
Qed.

Lemma table_step_related {A : Type} (key : A -> Z) (related : A -> A -> Prop)
    (l l' : list A) (x y : A) :
  table_step key related l l' -> NoDup (map key l) ->
  In x l -> In y l' -> key y = key x -> y = x \/ related x y.
Proof.
  intros Hstep Hnd Hx Hy Hk. destruct Hstep as [|p|news Hnews Hfresh|g Hg].
  - left. eapply key_injective; eauto.
  - left. apply filter_In in Hy. eapply key_injective; eauto. tauto.
  - apply in_app_iff in Hy. destruct Hy as [Hy | Hy].
    + left. eapply key_injective; eauto.
    + specialize (Hfresh y x Hy Hx). lia.
  - apply in_map_iff in Hy. destruct Hy as [z [<- Hz]].
    destruct (Hg z Hz) as [Hkz Hrel].
    assert (z = x) by (eapply key_injective; eauto; congruence).
    subst z. now right.
Qed.

(** ** Every request is a step of the store *)

Lemma store_step_same (r : Request) (db : Database) :
  db_ok db -> store_step r db db.
Proof.
  intros Hok. split; [constructor|]. split; [constructor|].
  now apply db_ok_constraints.
Qed.

Lemma setattr_required_some {R T : Type} (set : T -> R -> R) (f : Field T)
    (r : option R) (y : R) :
  setattr_required set f r = Some y ->
  exists x, r = Some x
            /\ ((f = Unset /\ y = x) \/ exists v, f = Given (Some v) /\ y = set v x).
Proof.
  destruct f as [|[v|]], r as [x|]; simpl; intros H; inversion H; subst.
  - exists y. auto.
  - exists x. split; [reflexivity|]. right. now exists v.
Qed.

Lemma setattr_nullable_some {R T : Type} (set : option T -> R -> R)
    (f : Field T) (r : option R) (y : R) :
  setattr_nullable set f r = Some y ->
  exists x, r = Some x
            /\ ((f = Unset /\ y = x) \/ exists v, f = Given v /\ y = set v x).
Proof.
  destruct f as [|v], r as [x|]; simpl; intros H; inversion H; subst.
  - exists y. auto.
  - exists x. split; [reflexivity|]. right. now exists v.
Qed.

Lemma apply_event_update_id (d : EventUpdate.t) (e e' : Event.t) :
  apply_event_update d e = Some e' -> Event.event_id e' = Event.event_id e.
Proof.
  unfold apply_event_update. intros H.
  apply setattr_required_some in H. destruct H as [e6 [H H6]].
  apply setattr_required_some in H. destruct H as [e5 [H H5]].
  apply setattr_required_some in H. destruct H as [e4 [H H4]].
  apply setattr_required_some in H. destruct H as [e3 [H H3]].
  apply setattr_required_some in H. destruct H as [e2 [H H2]].
  apply setattr_nullable_some in H. destruct H as [e1 [H H1]].
  apply setattr_required_some in H. destruct H as [e0 [H H0]].
  inversion H; subst e0.
  destruct H0 as [[_ ->] | [? [_ ->]]], H1 as [[_ ->] | [? [_ ->]]],
           H2 as [[_ ->] | [? [_ ->]]], H3 as [[_ ->] | [? [_ ->]]],
           H4 as [[_ ->] | [? [_ ->]]], H5 as [[_ ->] | [? [_ ->]]],
           H6 as [[_ ->] | [? [_ ->]]]; reflexivity.
Qed.

(** What an attendee update can change: never the key or the event, and
    the check-in status only when the body carries one. *)
Lemma apply_attendee_update_frame (d : AttendeeUpdate.t) (a a' : Attendee.t) :
  apply_attendee_update d a = Some a' ->
  Attendee.attendee_id a' = Attendee.attendee_id a
  /\ Attendee.event_id a' = Attendee.event_id a
  /\ match AttendeeUpdate.check_in_status d with
     | Unset => Attendee.check_in_status a' = Attendee.check_in_status a
     | Given (Some b) => Attendee.check_in_status a' = b
     | Given None => False
     end.
Proof.
  unfold apply_attendee_update. intros H.
  apply setattr_required_some in H. destruct H as [a4 [H H4]].
  apply setattr_nullable_some in H. destruct H as [a3 [H H3]].
  apply setattr_required_some in H. destruct H as [a2 [H H2]].
  apply setattr_required_some in H. destruct H as [a1 [H H1]].
  apply setattr_required_some in H. destruct H as [a0 [H H0]].
  inversion H; subst a0.
  destruct H0 as [[_ ->] | [? [_ ->]]], H1 as [[_ ->] | [? [_ ->]]],
           H2 as [[_ ->] | [? [_ ->]]], H3 as [[_ ->] | [? [_ ->]]],
           H4 as [[-> ->] | [? [-> ->]]]; repeat split; reflexivity.
Qed.

Ltac same_table := cbn [events attendees snd]; apply table_same.

Section Steps.
Context {set_order : SetOrder}.

Lemma register_batch_step (r : Request) (dup : list string -> Exception)
    (E : Event.t) (B : list AttendeeCsv.t) (db : Database) :
  db_ok db -> store_step r db (snd (register_batch dup E B db)).
Proof.
  intros Hok. unfold register_batch.
  destruct (Event.max_attendees E <? _); [now apply store_step_same|].
  destruct (duplicates _); [|now apply store_step_same].
  destruct (existing_emails _ _ _); [|now apply store_step_same].
  cbv zeta.
  destruct (constraints_ok _) eqn:Hc; [|now apply store_step_same].
  cbn [snd]. split; [same_table|]. split; [|exact Hc].
  cbn [attendees]. constructor.
  - apply insert_rows_NoDup. apply csv_row_key.
  - intros a b Ha Hb.
    exact (@insert_rows_above _ _ (csv_row_key (Event.event_id E))
             B (attendees db) a b Ha Hb).
Qed.

Lemma handle_step (r : Request) (db : Database) :
  db_ok db -> store_step r db (handle r db).
Proof.
  intros Hok.
  destruct r as [d | id d | id | now | d | id d | id | id | id ids
                | id d | id file]; cbn [handle].
  - (* create_event *)
    destruct (fits_integer (EventCreate.max_attendees d)) eqn:Hfits;
      [|rewrite (@run_create_event_overflow db d Hfits);
        now apply store_step_same].
    rewrite (@run_create_event db d Hok Hfits). cbn [snd].
    split; [|split; [same_table | exact (db_ok_constraints Hok)]].
    cbn [events]. constructor.
    + repeat constructor. intros [].
    + intros a b [<- | []] Hb. cbn [Event.event_id].
      apply next_id_above. now apply in_map.
  - (* update_event *)
    rewrite (@run_update_event db id d Hok).
    destruct (find _ (events db)) as [event|] eqn:Hf;
      [|now apply store_step_same].
    destruct (overflows d); [now apply store_step_same|].
    destruct (apply_event_update d event) as [event'|] eqn:Ha;
      [|now apply store_step_same].
    cbn [snd]. split; [|split; [same_table | exact (db_ok_constraints Hok)]].
    unfold update_events. cbn [events]. constructor.
    intros x _. split; [|exact I].
    destruct (Event.event_id x =? Event.event_id event) eqn:Hx; auto.
    apply Z.eqb_eq in Hx. rewrite Hx. now apply apply_event_update_id with d.
  - (* delete_event *)
    rewrite (@run_delete_event db id Hok).
    destruct (find _ (events db)) as [event|];
      [|now apply store_step_same].
    cbn [snd]. split; [cbn [events]; constructor|].
    split; [cbn [attendees]; constructor|].
    now apply constraints_filter.
  - (* event listing: the sweep *)
    rewrite (@run_update_event_statuses now db Hok). cbn [snd].
    split; [|split; [same_table | exact (db_ok_constraints Hok)]].
    cbn [events]. constructor. intros x _.
    split; [apply sweep_row_id | exact I].
  - (* create_attendee *)
    destruct (find (fun e => Event.event_id e =? AttendeeCreate.event_id d)
                   (events db)) as [E|] eqn:Hf.
    + apply find_key_sound in Hf. destruct Hf as [Hin Hid].
      rewrite (@run_create_attendee db E d Hok Hin (eq_sym Hid)).
      destruct (Event.max_attendees E <=? _); [now apply store_step_same|].
      destruct (find _ (attendees db)); [now apply store_step_same|].
      cbv zeta.
      destruct (constraints_ok _) eqn:Hc; [|now apply store_step_same].
      cbn [snd]. split; [same_table|]. split; [|exact Hc].
      cbn [attendees]. constructor.
      * repeat constructor. intros [].
      * intros a b [<- | []] Hb. cbn [Attendee.attendee_id].
        apply next_id_above. now apply in_map.
    + rewrite (run_create_attendee_not_found db d Hf).
      now apply store_step_same.
  - (* update_attendee *)
    rewrite run_update_attendee.
    destruct (find _ (attendees db)) as [attendee|] eqn:Hf;
      [|now apply store_step_same].
    destruct (email_conflict id d attendee db);
      [now apply store_step_same|].
    destruct (apply_attendee_update d attendee) as [attendee'|] eqn:Ha;
      [|now apply store_step_same].
    cbv zeta.
    destruct (constraints_ok _) eqn:Hc; [|now apply store_step_same].
    cbn [snd]. split; [same_table|]. split; [|exact Hc].
    unfold update_attendees. cbn [attendees]. constructor.
    intros x Hx. apply apply_attendee_update_frame in Ha.
    destruct Ha as [Hkey [_ Hst]].
    destruct (Attendee.attendee_id x =? Attendee.attendee_id attendee)
      eqn:Hxa.
    * apply Z.eqb_eq in Hxa. split; [congruence|].
      apply find_key_sound in Hf. destruct Hf as [Hin _].
      assert (x = attendee)
        by (eapply key_injective; eauto; apply Hok).
      subst x. unfold check_kept, unchecks. intros Hun Hchk.
      destruct (AttendeeUpdate.check_in_status d) as [|[[|]|]];
        try congruence; contradiction.
    * split; [reflexivity|]. intros _ Hchk. exact Hchk.
  - (* delete_attendee *)
    rewrite (@run_delete_attendee db id Hok).
    destruct (find _ (attendees db)) as [attendee|];
      [|now apply store_step_same].
    cbn [snd]. split; [cbn [events]; constructor|].
    split; [cbn [attendees]; constructor|].
    now apply constraints_filter.
  - (* check_in_attendee *)
    destruct (find (fun a => Attendee.attendee_id a =? id) (attendees db))
      as [a|] eqn:Hf.
    + apply find_key_sound in Hf. destruct Hf as [Hin <-].
      rewrite (@run_check_in_attendee db a Hok Hin).
      destruct (Attendee.check_in_status a); [now apply store_step_same|].
      cbn [snd]. split; [same_table|]. split.
      * unfold update_attendees. cbn [attendees]. constructor.
        intros x _.
        destruct (Attendee.attendee_id x =? Attendee.attendee_id a);
          split; try reflexivity; intros _ H; auto.
      * rewrite constraints_update_attendees by reflexivity.
        now apply db_ok_constraints.
    + rewrite (run_check_in_not_found db id Hf). now apply store_step_same.
  - (* bulk_check_in *)
    destruct (find (fun e => Event.event_id e =? id) (events db))
      as [E|] eqn:Hf.
    + apply find_key_sound in Hf. destruct Hf as [Hin <-].
      rewrite (@run_bulk_check_in db E ids Hok Hin). cbn [snd].
      split; [same_table|]. split.
      * cbn [attendees]. constructor. intros x _.
        destruct (mem_Z _ _); split; try reflexivity; intros _ H; auto.
      * rewrite <- (db_ok_constraints Hok). unfold constraints_ok.
        cbn [attendees]. rewrite map_map. f_equal. apply map_ext.
        intros a. now destruct (mem_Z _ _).
    + rewrite (run_bulk_check_in_not_found db id ids Hf).
      now apply store_step_same.
  - (* bulk-create endpoint *)
    unfold bulk_create_endpoint.
    destruct (negb (id =? AttendeeBulkCreate.event_id d));
      [now apply store_step_same|].
    destruct (find (fun e => Event.event_id e =? AttendeeBulkCreate.event_id d)
                   (events db)) as [E|] eqn:Hf.
    + apply find_key_sound in Hf. destruct Hf as [Hin Hid].
      destruct d as [eid B]. cbn [AttendeeBulkCreate.event_id] in Hid.
      subst eid.
      rewrite (@run_bulk_create_attendees _ db E B Hok Hin).
      now apply register_batch_step.
    + rewrite (run_bulk_create_not_found db d Hf).
      now apply store_step_same.
  - (* CSV upload *)
    destruct (find (fun e => Event.event_id e =? id) (events db))
      as [E|] eqn:Hf.
    + apply find_key_sound in Hf. destruct Hf as [Hin <-].
      destruct (parsed_batch file) as [B|] eqn:Hp.
      * rewrite (@run_process_csv_upload _ db E file B Hok Hin Hp).
        now apply register_batch_step.
      * destruct (@run_csv_unparsed _ db E file Hok Hin Hp) as [e [-> _]].
        now apply store_step_same.
    + rewrite (run_csv_not_found db id file Hf).
      now apply store_step_same.
Qed.

(** Requests keep the store well formed. *)
Lemma store_step_ok (r : Request) (db db' : Database) :
  db_ok db -> store_step r db db' -> db_ok db'.
Proof.
  intros [He Ha Hm] [Hse [Hsa Hc]]. split.
  - eapply table_step_NoDup; eauto.
  - eapply table_step_NoDup; eauto.
  - now apply distinct_NoDup.
Qed.

Lemma handle_ok (r : Request) (db : Database) :
  db_ok db -> db_ok (handle r db).
Proof.
  intros Hok. eapply store_step_ok; eauto. now apply handle_step.
Qed.

Lemma reachable_ok (db : Database) : reachable db -> db_ok db.
Proof.
  induction 1 as [|r db Hr IH]; [apply empty_db_ok | now apply handle_ok].
Qed.
End Steps.

(** ** Check-in under every request *)

Lemma store_step_keeps (r : Request) (db db' : Database) :
  db_ok db -> store_step r db db' -> unchecks r = false ->
  keeps_check_in (attendees db) (attendees db').
Proof.
  intros Hok [_ [Hstep _]] Hun a a' Ha Hchk Ha' Hkey.
  destruct (@table_step_related _ Attendee.attendee_id (check_kept r)
              (attendees db) (attendees db') a a' Hstep
              (ok_attendee_ids Hok) Ha Ha' Hkey) as [-> | Hrel].
  - exact Hchk.
  - now apply Hrel.
Qed.

Lemma checked_in_db_reachable : reachable (set_order := first_seen) checked_in_db.
Proof. unfold checked_in_db. repeat constructor. Qed.

(** C7 (as the code has it): from every reachable store, every request
    other than an attendee update whose body sets [check_in_status] to
    [false] leaves each checked-in attendee checked in: whatever row
    carries the attendee's key afterwards has [check_in_status = true]. *)
Theorem check_in_kept {set_order : SetOrder} (r : Request) (db : Database) :
  reachable db -> unchecks r = false ->
  keeps_check_in (attendees db) (attendees (handle r db)).
Proof.
  intros Hreach Hun. apply reachable_ok in Hreach.
  eapply store_step_keeps; eauto. now apply handle_step.
Qed.

(** The attendee update applies a [check_in_status] of [false] to a
    checked-in attendee. *)
Lemma check_in_one_way_fails : ~ check_in_one_way.
Proof.
  intros H.
  specialize (H first_seen (UpdateAttendee 1 uncheck) checked_in_db
                checked_in_db_reachable
                (Attendee.mk 1 "Ada" "Lovelace" "ada@example.com" None 1 true)
                (Attendee.mk 1 "Ada" "Lovelace" "ada@example.com" None 1 false)).
  assert (Hfalse : false = true).
  { apply H.
    - vm_compute. now left.
    - reflexivity.
    - vm_compute. now left.
    - reflexivity. }
  discriminate Hfalse.
Qed.

(** ** Updating an event *)

Lemma apply_event_update_null (d : EventUpdate.t) (e : Event.t) :
  nulls_required d = true -> apply_event_update d e = None.
Proof.
  unfold nulls_required, apply_event_update.
  destruct d as [[|[?|]] [|?] [|[?|]] [|[?|]] [|[?|]] [|[?|]] [|[?|]]];
    simpl; intros H; try discriminate H; reflexivity.
Qed.

Lemma apply_event_update_value (d : EventUpdate.t) (e : Event.t) :
  nulls_required d = false ->
  apply_event_update d e
  = Some (Event.mk (Event.event_id e)
            (field_value (EventUpdate.name d) (Event.name e))
            (match EventUpdate.description d with
             | Unset => Event.description e
             | Given v => v
             end)
            (field_value (EventUpdate.start_time d) (Event.start_time e))
            (field_value (EventUpdate.end_time d) (Event.end_time e))
            (field_value (EventUpdate.location d) (Event.location e))
            (field_value (EventUpdate.max_attendees d) (Event.max_attendees e))
            (field_value (EventUpdate.status d) (Event.status e))).
Proof.
  unfold nulls_required, apply_event_update.
  destruct e.
  destruct d as [[|[?|]] [|?] [|[?|]] [|[?|]] [|[?|]] [|[?|]] [|[?|]]];
    simpl; intros H; try discriminate H; reflexivity.
Qed.

(** The update does not apply every valid body: a null in [name] keeps
    the [max_attendees] of the same body from being stored. *)
Lemma update_applies_every_body_fails : ~ update_applies_every_body.
Proof.
  intros H.
  destruct (H sample_db launch
              (EventUpdate.mk (Given None) Unset Unset Unset Unset
                 (Given (Some 7)) Unset) 7
              ltac:(apply db_okb_ok; reflexivity) (or_introl eq_refl)
              eq_refl eq_refl)
    as [E' [db' [Hrun _]]].
  vm_compute in Hrun. discriminate Hrun.
Qed.

(** C10: updating an event [E] of the store with a body that assigns
    [null] to no column that cannot hold it, and whose [max_attendees],
    if present, fits the [Integer] column, succeeds: the stored event
    keeps its key, takes the value of every field present in the body
    and keeps every other field, while the other events and all
    attendees stay as they are.  A [max_attendees] that does not fit
    fails with [OverflowError], and otherwise a [null] for such a column
    with [IntegrityError], the store unchanged in both cases.  In
    particular a body that carries only a positive [max_attendees] that
    fits the column is valid and succeeds whatever the number of
    registered attendees, and there is a store in which it leaves an
    event with more attendees than [max_attendees]. *)
Theorem update_event_frame (db : Database) (E : Event.t) (d : EventUpdate.t) :
  db_ok db -> In E (events db) ->
  (overflows d = false -> nulls_required d = false ->
   exists E',
     run (update_event (Event.event_id E) d) db
     = (Ok E',
        {| events := map (fun e => if Event.event_id e =? Event.event_id E
                                   then E' else e) (events db);
           attendees := attendees db |})
     /\ Event.event_id E' = Event.event_id E
     /\ Event.name E' = field_value (EventUpdate.name d) (Event.name E)
     /\ Event.description E'
        = match EventUpdate.description d with
          | Unset => Event.description E
          | Given v => v
          end
     /\ Event.start_time E'
        = field_value (EventUpdate.start_time d) (Event.start_time E)
     /\ Event.end_time E'
        = field_value (EventUpdate.end_time d) (Event.end_time E)
     /\ Event.location E'
        = field_value (EventUpdate.location d) (Event.location E)
     /\ Event.max_attendees E'
        = field_value (EventUpdate.max_attendees d) (Event.max_attendees E)
     /\ Event.status E'
        = field_value (EventUpdate.status d) (Event.status E))
  /\ (overflows d = true ->
      run (update_event (Event.event_id E) d) db = (Raise OverflowError, db))
  /\ (overflows d = false -> nulls_required d = true ->
      run (update_event (Event.event_id E) d) db = (Raise IntegrityError, db))
  /\ (forall m, 0 < m -> fits_integer m = true ->
        EventUpdate.valid (only_max_attendees m) = true
        /\ exists db',
             run (update_event (Event.event_id E) (only_max_attendees m)) db
             = (Ok (Event.set_max_attendees m E), db')
             /\ count_attendees (Event.event_id E) db'
                = count_attendees (Event.event_id E) db)
  /\ (exists db0 E0 m db',
        db_ok db0 /\ In E0 (events db0) /\ 0 < m
        /\ run (update_event (Event.event_id E0) (only_max_attendees m)) db0
           = (Ok (Event.set_max_attendees m E0), db')
        /\ Z.of_nat (count_attendees (Event.event_id E0) db') > m).
Proof.
  intros Hok Hin.
  assert (Hrun : forall d0,
            run (update_event (Event.event_id E) d0) db
            = if overflows d0 then (Raise OverflowError, db)
              else
                match apply_event_update d0 E with
                | Some E' =>
                    (Ok E', update_events (Event.event_id E) (fun _ => E') db)
                | None => (Raise IntegrityError, db)
                end).
  { intros d0. rewrite (@run_update_event db (Event.event_id E) d0 Hok).
    rewrite (find_by_key Event.event_id (events db) E); auto. apply Hok. }
  split; [|split; [|split; [|split]]].
  - intros Hfit Hn.
    rewrite Hrun, Hfit, (@apply_event_update_value d E Hn).
    unfold update_events. eexists. split; [reflexivity|].
    cbn. repeat split; reflexivity.
  - intros Hfit. now rewrite Hrun, Hfit.
  - intros Hfit Hn. rewrite Hrun, Hfit. now rewrite apply_event_update_null.
  - intros m Hm Hfit. split.
    + unfold EventUpdate.valid, only_max_attendees. simpl.
      rewrite andb_true_r. now apply Z.ltb_lt.
    + eexists. rewrite Hrun.
      unfold overflows, only_max_attendees.
      cbn [EventUpdate.max_attendees]. rewrite Hfit. cbn [negb].
      split; [reflexivity | reflexivity].
  - exists {| events := [Event.mk 1 "Launch" None 10 20 "Hall" 2 SCHEDULED];
              attendees :=
                [Attendee.mk 1 "Ada" "Lovelace" "ada@example.com" None 1 false;
                 Attendee.mk 2 "Alan" "Turing" "alan@example.com" None 1 false] |}.
    exists (Event.mk 1 "Launch" None 10 20 "Hall" 2 SCHEDULED), 1.
    eexists. split; [apply db_okb_ok; reflexivity|].
    split; [now left|]. split; [lia|].
    split; [vm_compute; reflexivity | vm_compute; reflexivity].
Qed.

(** ** What bulk registration persists *)

Lemma NoDup_app_disjoint {A : Type} (l l' : list A) (x : A) :
  NoDup (l ++ l') -> In x l -> In x l' -> False.
Proof.
  induction l as [|a r IH]; simpl; [contradiction|].
  intros Hnd [-> | Hx] Hx'; inversion Hnd as [|? ? Hnotin Hr]; subst.
  - apply Hnotin. apply in_app_iff. now right.
  - now apply IH.
Qed.

Section Persist.
Context {set_order : SetOrder}.

(** A batch that passes the three rules is written in one commit.  The
    commit goes through when no stored attendee, of any event, has one
    of the batch's emails, and then every candidate is a new row, not
    checked in, whose key is returned; it is refused by the unique index
    on [email], nothing being written, when some stored attendee has
    one. *)
Lemma bulk_registration_outcome (db : Database) (E : Event.t)
    (B : list AttendeeCsv.t) (call : M BulkCreated) :
  db_ok db -> In E (events db) ->
  Z.of_nat (count_attendees (Event.event_id E) db)
  + Z.of_nat (List.length B) <= Event.max_attendees E ->
  let emails := map AttendeeCsv.email B in
  NoDup emails ->
  (forall a, In a (attendees db) ->
             Attendee.event_id a = Event.event_id E ->
             ~ In (Attendee.email a) emails) ->
  call = bulk_create_attendees (AttendeeBulkCreate.mk (Event.event_id E) B)
  \/ (exists file, parsed_batch file = Some B
                   /\ call = process_csv_upload (Event.event_id E) file) ->
  let created := insert_rows (csv_row (Event.event_id E)) B (attendees db) in
  ((forall a, In a (attendees db) -> ~ In (Attendee.email a) emails) ->
   run call db
   = (Ok {| total_created := List.length B;
            attendee_ids := map Attendee.attendee_id created |},
      {| events := events db; attendees := attendees db ++ created |})
   /\ Forall2 (fun d a => a = csv_row (Event.event_id E) d
                                (Attendee.attendee_id a)) B created
   /\ (forall a b, In a created -> In b (attendees db) ->
                   Attendee.attendee_id b < Attendee.attendee_id a)
   /\ NoDup (map Attendee.attendee_id created))
  /\ ((exists a, In a (attendees db) /\ In (Attendee.email a) emails) ->
      run call db = (Raise IntegrityError, db)).
Proof.
  intros Hok Hin Hcap emails Hnd Hfree Hcall created.
  assert (Hrun : exists dup, run call db = register_batch dup E B db).
  { destruct Hcall as [-> | [file [Hfile ->]]].
    - exists DuplicateEmailsInRequest.
      apply (@run_bulk_create_attendees _ db E B Hok Hin).
    - exists DuplicateEmailsInCsv.
      apply (@run_process_csv_upload _ db E file B Hok Hin Hfile). }
  destruct Hrun as [dup ->]. unfold register_batch.
  assert (Hlt : (Event.max_attendees E
                 <? Z.of_nat (count_attendees (Event.event_id E) db)
                    + Z.of_nat (List.length B)) = false)
    by (apply Z.ltb_ge; lia).
  rewrite Hlt. fold emails.
  rewrite (proj2 (duplicates_nil emails) Hnd).
  assert (Hex : existing_emails (Event.event_id E) emails db = []).
  { destruct (existing_emails (Event.event_id E) emails db) as [|m r] eqn:Hx;
      [reflexivity|].
    assert (Hm : In m (existing_emails (Event.event_id E) emails db))
      by (rewrite Hx; now left).
    apply In_existing_emails in Hm.
    destruct Hm as [Hm [a [Ha [He Hma]]]]. exfalso.
    apply (Hfree a Ha He). now rewrite Hma. }
  rewrite Hex. fold created. cbv zeta.
  unfold constraints_ok. cbn [attendees].
  rewrite map_app.
  assert (Hem : map Attendee.email created = emails)
    by apply insert_rows_emails.
  rewrite Hem. split.
  - intros Hfresh.
    assert (Hd : distinct (map Attendee.email (attendees db) ++ emails) = true).
    { apply distinct_NoDup. apply NoDup_app; auto; [apply Hok|].
      intros m Hm Hm'. apply in_map_iff in Hm.
      destruct Hm as [a [<- Ha]]. now apply (Hfresh a Ha). }
    rewrite Hd. unfold created.
    rewrite (insert_rows_length (csv_row (Event.event_id E))).
    split; [reflexivity|]. split; [|split].
    + apply insert_rows_rows. apply csv_row_key.
    + intros a b Ha Hb.
      exact (@insert_rows_above _ _ (csv_row_key (Event.event_id E))
               B (attendees db) a b Ha Hb).
    + apply insert_rows_NoDup. apply csv_row_key.
  - intros [a [Ha Hm]].
    destruct (distinct (map Attendee.email (attendees db) ++ emails)) eqn:Hd;
      [|reflexivity].
    exfalso. apply distinct_NoDup in Hd.
    apply (NoDup_app_disjoint _ _ (Attendee.email a) Hd); auto.
    now apply in_map.
Qed.
End Persist.

(** C3 (where the code parts from it): a batch of one candidate for the
    workshop, whose email is stored for the launch only, passes the
    capacity rule and both duplicate rules, yet neither bulk entry point
    persists it: the commit is refused by the unique index on [email] and
    the store is unchanged. *)
Theorem bulk_registration_refused_across_events :
  let B := [candidate "ada@example.com"] in
  let emails := map AttendeeCsv.email B in
  Z.of_nat (count_attendees 2 sample_db) + Z.of_nat (List.length B)
  <= Event.max_attendees workshop
  /\ duplicates emails = []
  /\ existing_emails 2 emails sample_db = []
  /\ run (bulk_create_attendees (AttendeeBulkCreate.mk 2 B)) sample_db
     = (Raise IntegrityError, sample_db)
  /\ run (process_csv_upload 2
            (Frame required_columns [Some (candidate "ada@example.com")]))
         sample_db
     = (Raise IntegrityError, sample_db).
Proof.
  cbv zeta. split; [vm_compute; discriminate|].
  repeat split; vm_compute; reflexivity.
Qed.

(** ** One email, two events *)

(** The pair (email, event) is never repeated in a reachable store. *)
Lemma email_event_pair_unique {set_order : SetOrder} (db : Database)
    (a b : Attendee.t) :
  reachable db -> In a (attendees db) -> In b (attendees db) ->
  Attendee.email a = Attendee.email b ->
  Attendee.event_id a = Attendee.event_id b -> a = b.
Proof.
  intros Hreach Ha Hb Hm _. apply reachable_ok in Hreach.
  eapply (key_injective Attendee.email); eauto. apply Hreach.
Qed.

(** A second registration of an email for the same event is refused by
    the service. *)
Lemma create_attendee_twice (db : Database) (E : Event.t)
    (d : AttendeeCreate.t) (a : Attendee.t) :
  db_ok db -> In E (events db) ->
  AttendeeCreate.event_id d = Event.event_id E ->
  Z.of_nat (count_attendees (Event.event_id E) db) < Event.max_attendees E ->
  In a (attendees db) -> Attendee.email a = AttendeeCreate.email d ->
  Attendee.event_id a = Event.event_id E ->
  run (create_attendee d) db
  = (Raise (EmailAlreadyRegistered (AttendeeCreate.email d)), db).
Proof.
  intros Hok Hin Hid Hcap Ha Hm He.
  rewrite (@run_create_attendee db E d Hok Hin Hid).
  assert (Hle : (Event.max_attendees E
                 <=? Z.of_nat (count_attendees (Event.event_id E) db)) = false)
    by (apply Z.leb_gt; lia).
  rewrite Hle.
  destruct (find _ (attendees db)) eqn:Hf; [reflexivity|].
  eapply find_none in Hf; eauto.
  rewrite Hm, String.eqb_refl, He, Z.eqb_refl in Hf. discriminate.
Qed.

(** C4 (where the code parts from it): Ada is registered for the launch;
    registering the same email for the workshop, which has room and no
    attendee with that email, is not refused by the service's own check
    but by the unique index on [email] at commit, and the store is
    unchanged. *)
Theorem same_email_other_event_refused :
  let d := AttendeeCreate.mk "Ada" "Lovelace" "ada@example.com" None 2 in
  db_okb sample_db = true
  /\ Z.of_nat (count_attendees 2 sample_db) < Event.max_attendees workshop
  /\ find (fun a => String.eqb (Attendee.email a) (AttendeeCreate.email d)
                    && (Attendee.event_id a =? 2)) (attendees sample_db)
     = None
  /\ run (create_attendee d) sample_db = (Raise IntegrityError, sample_db).
Proof.
  cbv zeta. split; [reflexivity|]. split; [vm_compute; reflexivity|].
  split; vm_compute; reflexivity.
Qed.

(** ** Repeated ids in a bulk check-in *)


(** ** The theorems at work on the sample stores *)

Lemma sample_db_ok : db_ok sample_db.
Proof. apply db_okb_ok. reflexivity. Qed.

Lemma full_db_ok : db_ok full_db.
Proof. apply db_okb_ok. reflexivity. Qed.

Lemma launch_in_sample : In launch (events sample_db).
Proof. simpl. now left. Qed.

Lemma ada_in_sample : In ada (attendees sample_db).
Proof. simpl. now left. Qed.

(** Two candidates do not fit the launch, which has one of its two places
    taken; one more attendee does not fit the full event. *)
Lemma capacity_rule_witness :
  db_ok sample_db /\ In launch (events sample_db)
  /\ run (bulk_create_attendees
            (AttendeeBulkCreate.mk 1 [candidate "eve@example.com";
                                      candidate "bob@example.com"]))
         sample_db
     = (Raise (CannotRegister 2 2 1), sample_db)
  /\ run (create_attendee
            (AttendeeCreate.mk "Eve" "Adams" "eve@example.com" None 1))
         full_db
     = (Raise (EventAtCapacity 1), full_db).
Proof.
  split; [exact sample_db_ok|]. split; [exact launch_in_sample|]. split.
  - destruct (@capacity_rule first_seen sample_db launch
                [candidate "eve@example.com"; candidate "bob@example.com"]
                sample_db_ok launch_in_sample) as [Hbulk _].
    apply Hbulk. vm_compute. reflexivity.
  - destruct (@capacity_rule first_seen full_db
                (Event.mk 1 "Launch" None 10 20 "Hall" 1 SCHEDULED) []
                full_db_ok (or_introl eq_refl)) as [_ Hsingle].
    apply (Hsingle (AttendeeCreate.mk "Eve" "Adams" "eve@example.com" None 1)).
    + reflexivity.
    + vm_compute. reflexivity.
Defined.

(** Ada's email is already stored for the launch. *)
Lemma duplicate_rule_witness :
  db_ok sample_db /\ In launch (events sample_db)
  /\ exists e,
       run (bulk_create_attendees
              (AttendeeBulkCreate.mk 1 [candidate "ada@example.com"]))
           sample_db = (Raise e, sample_db)
       /\ classify e = DuplicateEmail.
Proof.
  split; [exact sample_db_ok|]. split; [exact launch_in_sample|].
  destruct (@duplicate_rule first_seen sample_db launch
              [candidate "ada@example.com"]
              (bulk_create_attendees
                 (AttendeeBulkCreate.mk 1 [candidate "ada@example.com"]))
              sample_db_ok launch_in_sample) as [e [Hrun [Hclass _]]].
  - vm_compute. discriminate.
  - exists "ada@example.com"%string. right. split; [now left|].
    exists ada. split; [exact ada_in_sample|]. split; reflexivity.
  - left. reflexivity.
  - exists e. split; assumption.
Defined.

Lemma check_in_twice_witness :
  db_ok sample_db /\ In ada (attendees sample_db)
  /\ Attendee.check_in_status ada = false
  /\ fst (run (check_in_attendee 1) sample_db)
     = Ok (Attendee.set_check_in_status true ada)
  /\ run (check_in_attendee 1) (snd (run (check_in_attendee 1) sample_db))
     = (Raise (AlreadyCheckedIn 1), snd (run (check_in_attendee 1) sample_db)).
Proof.
  split; [exact sample_db_ok|]. split; [exact ada_in_sample|].
  split; [reflexivity|].
  destruct (@check_in_twice sample_db ada sample_db_ok ada_in_sample eq_refl)
    as [Hfirst [_ [_ [_ [Hsecond _]]]]].
  split; [exact Hfirst | exact Hsecond].
Defined.


(** Renaming Ada leaves her checked in. *)
Lemma check_in_kept_witness :
  reachable (set_order := first_seen) checked_in_db
  /\ keeps_check_in
       (attendees checked_in_db)
       (attendees
          (handle (UpdateAttendee 1
                     (AttendeeUpdate.mk (Given (Some "Augusta"%string))
                        Unset Unset Unset Unset))
                  checked_in_db)).
Proof.
  split; [exact checked_in_db_reachable|].
  apply (@check_in_kept first_seen); [exact checked_in_db_reachable|].
  reflexivity.
Defined.

(** At time 15 both sample events are under way. *)
Lemma sweep_transitions_witness :
  db_ok sample_db
  /\ exists db',
       run (update_event_statuses 15) sample_db
       = (Ok {| ongoing := 2; completed := 0 |}, db').
Proof.
  split; [exact sample_db_ok|].
  destruct (@sweep_transitions 15 sample_db sample_db_ok)
    as [db' [Hrun _]].
  exists db'. exact Hrun.
Defined.

Lemma sweep_idempotent_witness :
  db_ok sample_db
  /\ run (update_event_statuses 15)
         (snd (run (update_event_statuses 15) sample_db))
     = (Ok {| ongoing := 0; completed := 0 |},
        snd (run (update_event_statuses 15) sample_db)).
Proof.
  split; [exact sample_db_ok|].
  exact (@sweep_idempotent 15 sample_db sample_db_ok).
Defined.

(** The launch is cut down to one place while Ada stays registered. *)
Lemma update_event_frame_witness :
  db_ok sample_db /\ In launch (events sample_db)
  /\ exists db',
       run (update_event 1 (only_max_attendees 1)) sample_db
       = (Ok (Event.set_max_attendees 1 launch), db')
       /\ count_attendees 1 db' = count_attendees 1 sample_db.
Proof.
  split; [exact sample_db_ok|]. split; [exact launch_in_sample|].
  destruct (@update_event_frame sample_db launch (only_max_attendees 1)
              sample_db_ok launch_in_sample) as [_ [_ [_ [Hmax _]]]].
  destruct (Hmax 1) as [_ Hrun]; [reflexivity | reflexivity |]. exact Hrun.
Defined.

(** * Further properties of the services *)

(** ** Looking rows up *)

Lemma run_get_event (db : Database) (id : Z) :
  run (get_event id) db
  = match find (fun e => Event.event_id e =? id) (events db) with
    | Some e => (Ok e, db)
    | None => (Raise (EventNotFound id), db)
    end.
Proof.
  unfold run, get_event, bind, execute. cbn [pending committed].
  now destruct (find _ (events db)).
Qed.

Lemma run_get_attendee (db : Database) (id : Z) :
  run (get_attendee id) db
  = match find (fun a => Attendee.attendee_id a =? id) (attendees db) with
    | Some a => (Ok a, db)
    | None => (Raise (AttendeeNotFound id), db)
    end.
Proof.
  unfold run, get_attendee, bind, execute. cbn [pending committed].
  now destruct (find _ (attendees db)).
Qed.

Lemma find_absent_key {A : Type} (key : A -> Z) (l : list A) (k : Z) :
  ~ In k (map key l) -> find (fun a => key a =? k) l = None.
Proof.
  intros Hk. destruct (find _ l) as [x|] eqn:Hf; [|reflexivity].
  apply find_key_sound in Hf. destruct Hf as [Hin <-].
  exfalso. apply Hk. now apply in_map.
Qed.

Lemma find_app_key {A : Type} (key : A -> Z) (l : list A) (x : A) :
  ~ In (key x) (map key l) ->
  find (fun a => key a =? key x) (l ++ [x]) = Some x.
Proof.
  intros Hk. induction l as [|a r IH]; simpl.
  - now rewrite Z.eqb_refl.
  - destruct (key a =? key x) eqn:Ha.
    + apply Z.eqb_eq in Ha. exfalso. apply Hk. simpl. now left.
    + apply IH. intros H. apply Hk. simpl. now right.
Qed.

Lemma find_app_found {A : Type} (p : A -> bool) (l l' : list A) (x : A) :
  find p l = Some x -> find p (l ++ l') = Some x.
Proof.
  induction l as [|a r IH]; simpl; [discriminate|].
  destruct (p a); auto.
Qed.

(** ** Creating and deleting events *)

(** X1: on a well-formed store [create_event] with a [max_attendees]
    that fits the [Integer] column succeeds: the event it returns carries
    the body's fields under a key no stored event has, a lookup of that
    key then returns it, every event stored before is still returned by a
    lookup of its key, and the attendees are untouched; when no attendee
    is an orphan the new event has no attendees.  With a [max_attendees]
    that does not fit, it fails with [OverflowError] and stores
    nothing. *)
Theorem create_event_lookup (db : Database) (d : EventCreate.t) :
  db_ok db ->
  (fits_integer (EventCreate.max_attendees d) = true ->
   exists e db',
     run (create_event d) db = (Ok e, db')
     /\ ~ In (Event.event_id e) (map Event.event_id (events db))
     /\ e = Event.mk (Event.event_id e)
              (EventCreate.name d) (EventCreate.description d)
              (EventCreate.start_time d) (EventCreate.end_time d)
              (EventCreate.location d) (EventCreate.max_attendees d)
              (EventCreate.status d)
     /\ run (get_event (Event.event_id e)) db' = (Ok e, db')
     /\ (forall e0, In e0 (events db) ->
                    run (get_event (Event.event_id e0)) db' = (Ok e0, db'))
     /\ attendees db' = attendees db
     /\ (no_orphans db -> count_attendees (Event.event_id e) db' = 0%nat))
  /\ (fits_integer (EventCreate.max_attendees d) = false ->
      run (create_event d) db = (Raise OverflowError, db)).
Proof.
  intros Hok. split; [|apply run_create_event_overflow].
  intros Hfits. do 2 eexists.
  split; [apply (@run_create_event db d Hok Hfits)|].
  cbn [Event.event_id attendees].
  assert (Hfresh : ~ In (next_id (map Event.event_id (events db)))
                        (map Event.event_id (events db))).
  { intros H. apply next_id_above in H. lia. }
  split; [exact Hfresh|]. split; [reflexivity|]. split; [|split; [|split]].
  - rewrite run_get_event. cbn [events].
    set (e := Event.mk _ _ _ _ _ _ _ _).
    change (next_id (map Event.event_id (events db))) with (Event.event_id e).
    now rewrite (find_app_key Event.event_id (events db) e).
  - intros e0 He0. rewrite run_get_event. cbn [events].
    erewrite find_app_found; [reflexivity|].
    apply (find_by_key Event.event_id (events db) e0); auto. apply Hok.
  - reflexivity.
  - intros Horph. unfold count_attendees. cbn [attendees].
    rewrite filter_none; [reflexivity|].
    intros a Ha. apply Z.eqb_neq. intros Heq.
    destruct (Horph a Ha) as [e0 [He0 Hid]].
    apply Hfresh. rewrite <- Heq, <- Hid. now apply in_map.
Qed.

(** X2: deleting an event of the store succeeds and takes the event and
    all its attendees with it: a lookup of its key then fails with 404,
    no attendee of that event is left, every other event and every
    attendee of another event stays exactly as it was, and the store is
    still well formed. *)
Theorem delete_event_cascades (db : Database) (E : Event.t) :
  db_ok db -> In E (events db) ->
  exists db',
    run (delete_event (Event.event_id E)) db = (Ok tt, db')
    /\ run (get_event (Event.event_id E)) db'
       = (Raise (EventNotFound (Event.event_id E)), db')
    /\ count_attendees (Event.event_id E) db' = 0%nat
    /\ (forall e, In e (events db') <-> In e (events db) /\ e <> E)
    /\ (forall a, In a (attendees db') <->
                  In a (attendees db)
                  /\ Attendee.event_id a <> Event.event_id E)
    /\ db_ok db'.
Proof.
  intros Hok Hin. eexists.
  split.
  { rewrite (@run_delete_event db (Event.event_id E) Hok).
    rewrite (find_by_key Event.event_id (events db) E); auto. apply Hok. }
  set (db' := {| events := _; attendees := _ |}).
  assert (Hev : forall e, In e (events db') <-> In e (events db) /\ e <> E).
  { intros e. unfold db'. cbn [events].
    rewrite filter_In, negb_true_iff, Z.eqb_neq. split.
    - intros [He Hne]. split; [assumption|]. intros ->. now apply Hne.
    - intros [He Hne]. split; [assumption|]. intros Hid. apply Hne.
      eapply key_injective; eauto. apply Hok. }
  assert (Hat : forall a, In a (attendees db') <->
                          In a (attendees db)
                          /\ Attendee.event_id a <> Event.event_id E).
  { intros a. unfold db'. cbn [attendees].
    now rewrite filter_In, negb_true_iff, Z.eqb_neq. }
  split; [|split; [|split; [|split]]]; auto.
  - rewrite run_get_event.
    destruct (find _ (events db')) as [e|] eqn:Hf; [|reflexivity].
    apply find_key_sound in Hf. destruct Hf as [He Hid].
    apply Hev in He. destruct He as [He Hne]. exfalso. apply Hne.
    eapply key_injective; eauto. apply Hok.
  - unfold count_attendees. rewrite filter_none; [reflexivity|].
    intros a Ha. apply Hat in Ha. now apply Z.eqb_neq.
  - split; unfold db'; cbn [events attendees];
      apply NoDup_map_filter; apply Hok.
Qed.

(** ** The lifecycle sweep over time *)

Lemma sweep_row_absorbs (t1 t2 : datetime) (e : Event.t) :
  t1 <= t2 -> sweep_row t2 (sweep_row t1 e) = sweep_row t2 e.
Proof.
  intros Ht. unfold sweep_row, should_be_completed, should_be_ongoing.
  destruct e as [id nm ds st en lc mx s]. cbn [Event.status Event.start_time
    Event.end_time Event.set_status].
  destruct s; cbn [EventStatus_eqb orb andb];
    destruct (en <=? t1) eqn:H1; destruct (en <=? t2) eqn:H2;
    destruct (st <=? t1) eqn:H3; destruct (st <=? t2) eqn:H4;
    destruct (t1 <? en) eqn:H5; destruct (t2 <? en) eqn:H6;
    cbn [Event.status Event.start_time Event.end_time Event.set_status
         EventStatus_eqb orb andb];
    try rewrite H2; try rewrite H4; try rewrite H6;
    cbn [EventStatus_eqb orb andb]; try reflexivity;
    exfalso;
    repeat match goal with
           | H : (_ <=? _) = true |- _ => apply Z.leb_le in H
           | H : (_ <=? _) = false |- _ => apply Z.leb_gt in H
           | H : (_ <? _) = true |- _ => apply Z.ltb_lt in H
           | H : (_ <? _) = false |- _ => apply Z.ltb_ge in H
           end; lia.
Qed.

(** X3: a sweep never moves an event backwards: after a sweep at any time
    each event is at the same stage or a later one (Scheduled, Ongoing,
    Completed), and a Completed or Canceled event is left exactly as it
    is. *)
Theorem sweep_moves_forward (now : datetime) (db : Database) :
  db_ok db ->
  Forall2 (fun e e' =>
             (stage (Event.status e) <= stage (Event.status e'))%nat
             /\ (Event.status e = COMPLETED \/ Event.status e = CANCELED ->
                 e' = e))
          (events db) (events (snd (run (update_event_statuses now) db))).
Proof.
  intros Hok. rewrite (@run_update_event_statuses now db Hok).
  cbn [snd events]. clear Hok.
  induction (events db) as [|e r IH]; simpl; constructor; auto.
  unfold sweep_row, should_be_completed, should_be_ongoing.
  destruct e as [id nm ds st en lc mx s].
  cbn [Event.status Event.start_time Event.end_time].
  destruct s; cbn [EventStatus_eqb orb andb];
    destruct (en <=? now); destruct (st <=? now); destruct (now <? en);
    cbn [Event.status Event.set_status stage andb];
    (split; [lia | intros [H | H]; try discriminate H; reflexivity]).
Qed.

(** X4: a later sweep makes an earlier one redundant: for [t1 <= t2],
    sweeping at [t1] and then at [t2] leaves the same store as sweeping
    at [t2] alone. *)
Theorem sweep_later_absorbs_earlier (t1 t2 : datetime) (db : Database) :
  db_ok db -> t1 <= t2 ->
  snd (run (update_event_statuses t2)
           (snd (run (update_event_statuses t1) db)))
  = snd (run (update_event_statuses t2) db).
Proof.
  intros Hok Ht. rewrite (@run_update_event_statuses t1 db Hok).
  cbn [snd].
  rewrite (@run_update_event_statuses t2 _ (sweep_preserves_ok t1 Hok)).
  rewrite (@run_update_event_statuses t2 db Hok).
  cbn [snd events attendees]. f_equal.
  rewrite map_map. apply map_ext. intros e. now apply sweep_row_absorbs.
Qed.

(** ** The end of an event and its start *)

(** X5: the schemas keep [end_time] after [start_time] when an event is
    created but not when it is updated: a valid body whose
    [max_attendees] fits the [Integer] column is stored by [create_event]
    as an event that ends after it starts, whereas a body that carries
    only [end_time] is valid whatever its value, and [update_event]
    stores it, so an event of the store can be left ending at or before
    its start. *)
Theorem end_time_checked_on_create_only (db : Database) (E : Event.t)
    (d : EventCreate.t) (v : datetime) :
  db_ok db -> In E (events db) ->
  (EventCreate.valid d = true ->
   fits_integer (EventCreate.max_attendees d) = true ->
   exists e db', run (create_event d) db = (Ok e, db')
                 /\ Event.start_time e < Event.end_time e)
  /\ EventUpdate.valid (only_end_time v) = true
  /\ exists db',
       run (update_event (Event.event_id E) (only_end_time v)) db
       = (Ok (Event.set_end_time v E), db')
       /\ In (Event.set_end_time v E) (events db')
       /\ (v <= Event.start_time E ->
           Event.end_time (Event.set_end_time v E)
           <= Event.start_time (Event.set_end_time v E)).
Proof.
  intros Hok Hin. split; [|split; [reflexivity|]].
  - intros Hv Hfits. do 2 eexists.
    split; [apply (@run_create_event db d Hok Hfits)|].
    cbn [Event.start_time Event.end_time].
    unfold EventCreate.valid in Hv. rewrite !andb_true_iff in Hv.
    destruct Hv as [_ Hend]. apply negb_true_iff, Z.leb_gt in Hend.
    exact Hend.
  - eexists. split.
    { rewrite (@run_update_event db (Event.event_id E) (only_end_time v) Hok).
      rewrite (find_by_key Event.event_id (events db) E); auto; [|apply Hok].
      reflexivity. }
    split.
    + unfold update_events. cbn [events]. apply in_map_iff.
      exists E. split; [|assumption]. now rewrite Z.eqb_refl.
    + intros Hle. exact Hle.
Qed.

(** ** Registration and the places of an event *)

Lemma filter_all {A : Type} (p : A -> bool) (l : list A) :
  (forall x, In x l -> p x = true) -> filter p l = l.
Proof.
  induction l as [|a r IH]; simpl; intros H; [reflexivity|].
  rewrite (H a) by now left. f_equal. apply IH. intros x Hx. apply H.
  now right.
Qed.

Lemma insert_rows_event (event_id : Z) (data : list AttendeeCsv.t)
    (table : list Attendee.t) (a : Attendee.t) :
  In a (insert_rows (csv_row event_id) data table) ->
  Attendee.event_id a = event_id /\ Attendee.check_in_status a = false.
Proof.
  revert table. induction data as [|d r IH]; intros table; simpl;
    [contradiction|].
  intros [<- | Ha]; [now split | eauto].
Qed.

Lemma count_attendees_created (event_id : Z) (data : list AttendeeCsv.t)
    (db : Database) (evs : list Event.t) :
  count_attendees event_id
    {| events := evs;
       attendees := attendees db
                    ++ insert_rows (csv_row event_id) data (attendees db) |}
  = (count_attendees event_id db + List.length data)%nat.
Proof.
  unfold count_attendees. cbn [attendees].
  rewrite filter_app, length_app. f_equal.
  rewrite filter_all.
  - apply insert_rows_length.
  - intros a Ha. apply insert_rows_event in Ha. apply Z.eqb_eq. tauto.
Qed.

Section Capacity.
Context {set_order : SetOrder}.

Lemma register_batch_ok (dup : list string -> Exception) (E : Event.t)
    (B : list AttendeeCsv.t) (db db' : Database) (r : BulkCreated) :
  register_batch dup E B db = (Ok r, db') ->
  Z.of_nat (count_attendees (Event.event_id E) db)
  + Z.of_nat (List.length B) <= Event.max_attendees E
  /\ db' = {| events := events db;
              attendees := attendees db
                           ++ insert_rows (csv_row (Event.event_id E)) B
                                (attendees db) |}
  /\ total_created r = List.length B.
Proof.
  unfold register_batch.
  destruct (Event.max_attendees E <? _) eqn:Hcap; [discriminate|].
  destruct (duplicates _); [|discriminate].
  destruct (existing_emails _ _ _); [|discriminate].
  cbv zeta. destruct (constraints_ok _); [|discriminate].
  intros H. inversion H; subst. cbn [total_created].
  apply Z.ltb_ge in Hcap. split; [lia|]. split; [reflexivity|].
  apply insert_rows_length.
Qed.

(** X6: a registration that succeeds never takes an event over its
    limit: after a successful [create_attendee] the event has one more
    attendee, after a successful bulk registration (JSON batch or
    uploaded file) it has as many more as the batch holds, and in each
    case the new count is at most [max_attendees]. *)
Theorem registration_respects_capacity (db : Database) (E : Event.t) :
  db_ok db -> In E (events db) ->
  let count := count_attendees (Event.event_id E) in
  (forall d a db',
      AttendeeCreate.event_id d = Event.event_id E ->
      run (create_attendee d) db = (Ok a, db') ->
      count db' = S (count db)
      /\ Z.of_nat (count db') <= Event.max_attendees E)
  /\ (forall B r db',
        run (bulk_create_attendees
               (AttendeeBulkCreate.mk (Event.event_id E) B)) db = (Ok r, db') ->
        count db' = (count db + List.length B)%nat
        /\ Z.of_nat (count db') <= Event.max_attendees E)
  /\ (forall file r db',
        run (process_csv_upload (Event.event_id E) file) db = (Ok r, db') ->
        exists B, parsed_batch file = Some B
                  /\ count db' = (count db + List.length B)%nat
                  /\ Z.of_nat (count db') <= Event.max_attendees E).
Proof.
  intros Hok Hin count. split; [|split].
  - intros d a db' Hd Hrun.
    rewrite (@run_create_attendee db E d Hok Hin Hd) in Hrun.
    destruct (Event.max_attendees E <=? _) eqn:Hcap; [discriminate|].
    destruct (find _ (attendees db)); [discriminate|].
    cbv zeta in Hrun. destruct (constraints_ok _); [|discriminate].
    inversion Hrun; subst. apply Z.leb_gt in Hcap.
    assert (Hc : count
              {| events := events db;
                 attendees := attendees db ++
                   [Attendee.mk
                      (next_id (map Attendee.attendee_id (attendees db)))
                      (AttendeeCreate.first_name d) (AttendeeCreate.last_name d)
                      (AttendeeCreate.email d) (AttendeeCreate.phone_number d)
                      (Event.event_id E) false] |}
            = S (count db)).
    { unfold count, count_attendees. cbn [attendees].
      rewrite filter_app, length_app. cbn [filter Attendee.event_id].
      rewrite Z.eqb_refl. simpl. lia. }
    rewrite Hc. split; [reflexivity|]. unfold count. lia.
  - intros B r db' Hrun.
    rewrite (@run_bulk_create_attendees _ db E B Hok Hin) in Hrun.
    apply register_batch_ok in Hrun. destruct Hrun as [Hcap [-> _]].
    unfold count. rewrite count_attendees_created. split; [reflexivity|]. lia.
  - intros file r db' Hrun.
    destruct (parsed_batch file) as [B|] eqn:Hp.
    + exists B. split; [reflexivity|].
      rewrite (@run_process_csv_upload _ db E file B Hok Hin Hp) in Hrun.
      apply register_batch_ok in Hrun. destruct Hrun as [Hcap [-> _]].
      unfold count. rewrite count_attendees_created.
      split; [reflexivity|]. lia.
    + destruct (@run_csv_unparsed _ db E file Hok Hin Hp) as [e [He _]].
      rewrite He in Hrun. discriminate.
Qed.
End Capacity.

(** X7: when the event has a free place and the email is not stored for
    any attendee, [create_attendee] succeeds: the attendee it returns
    carries the body's fields, is not checked in and has a key no stored
    attendee has; it is appended to the table, nothing else changes, and
    a lookup of its key returns it. *)
Theorem create_attendee_registers (db : Database) (E : Event.t)
    (d : AttendeeCreate.t) :
  db_ok db -> In E (events db) ->
  AttendeeCreate.event_id d = Event.event_id E ->
  Z.of_nat (count_attendees (Event.event_id E) db) < Event.max_attendees E ->
  (forall b, In b (attendees db) ->
             Attendee.email b <> AttendeeCreate.email d) ->
  exists a,
    run (create_attendee d) db
    = (Ok a, {| events := events db; attendees := attendees db ++ [a] |})
    /\ a = Attendee.mk (Attendee.attendee_id a)
             (AttendeeCreate.first_name d) (AttendeeCreate.last_name d)
             (AttendeeCreate.email d) (AttendeeCreate.phone_number d)
             (Event.event_id E) false
    /\ ~ In (Attendee.attendee_id a)
            (map Attendee.attendee_id (attendees db))
    /\ run (get_attendee (Attendee.attendee_id a))
           {| events := events db; attendees := attendees db ++ [a] |}
       = (Ok a, {| events := events db; attendees := attendees db ++ [a] |}).
Proof.
  intros Hok Hin Hd Hcap Hnew.
  exists (Attendee.mk (next_id (map Attendee.attendee_id (attendees db)))
            (AttendeeCreate.first_name d) (AttendeeCreate.last_name d)
            (AttendeeCreate.email d) (AttendeeCreate.phone_number d)
            (Event.event_id E) false).
  assert (Hfresh : ~ In (next_id (map Attendee.attendee_id (attendees db)))
                        (map Attendee.attendee_id (attendees db))).
  { intros H. apply next_id_above in H. lia. }
  split; [|split; [reflexivity|split; [exact Hfresh|]]].
  - rewrite (@run_create_attendee db E d Hok Hin Hd).
    assert (Hle : (Event.max_attendees E
                   <=? Z.of_nat (count_attendees (Event.event_id E) db)) = false)
      by (apply Z.leb_gt; lia).
    rewrite Hle.
    destruct (find _ (attendees db)) as [b|] eqn:Hf.
    { apply find_some in Hf. destruct Hf as [Hb Hp].
      apply andb_true_iff in Hp. destruct Hp as [Hm _].
      apply String.eqb_eq in Hm. exfalso. now apply (Hnew b Hb). }
    cbv zeta.
    assert (Hc : constraints_ok
              {| events := events db;
                 attendees := attendees db ++
                   [Attendee.mk
                      (next_id (map Attendee.attendee_id (attendees db)))
                      (AttendeeCreate.first_name d) (AttendeeCreate.last_name d)
                      (AttendeeCreate.email d) (AttendeeCreate.phone_number d)
                      (Event.event_id E) false] |} = true).
    { apply distinct_NoDup. cbn [attendees]. rewrite map_app.
      apply NoDup_app; [apply Hok | repeat constructor; intros [] |].
      intros m Hm [<- | []]. apply in_map_iff in Hm.
      destruct Hm as [b [Hmb Hb]]. now apply (Hnew b Hb). }
    rewrite Hc. reflexivity.
  - rewrite run_get_attendee. cbn [attendees].
    set (a := Attendee.mk _ _ _ _ _ _ _).
    change (next_id (map Attendee.attendee_id (attendees db)))
      with (Attendee.attendee_id a).
    now rewrite (find_app_key Attendee.attendee_id (attendees db) a).
Qed.

Lemma count_without_key {A : Type} (key : A -> Z) (p : A -> bool)
    (l : list A) (x : A) :
  NoDup (map key l) -> In x l -> p x = true ->
  S (List.length (filter p (filter (fun a => negb (key a =? key x)) l)))
  = List.length (filter p l).
Proof.
  induction l as [|a r IH]; simpl; [contradiction|].
  intros Hnd Hin Hp. inversion Hnd as [|? ? Hnotin Hr]; subst.
  destruct Hin as [-> | Hin].
  - rewrite Z.eqb_refl. cbn [negb]. rewrite Hp. cbn [List.length].
    rewrite (filter_all (fun a => negb (key a =? key x)) r); [reflexivity|].
    intros b Hb.
    apply negb_true_iff, Z.eqb_neq. intros Heq. apply Hnotin.
    rewrite <- Heq. now apply in_map.
  - assert (Hne : (key a =? key x) = false).
    { apply Z.eqb_neq. intros Heq. apply Hnotin. rewrite Heq.
      now apply in_map. }
    rewrite Hne. cbn [negb filter].
    destruct (p a); cbn [List.length]; rewrite <- (IH Hr Hin Hp); reflexivity.
Qed.

(** X8: deleting an attendee of the store succeeds and frees one place of
    its event: the attendee's key is no longer found (404), the event has
    exactly one attendee fewer, every other attendee stays as it was and
    the events are untouched. *)
Theorem delete_attendee_frees_place (db : Database) (A : Attendee.t) :
  db_ok db -> In A (attendees db) ->
  exists db',
    run (delete_attendee (Attendee.attendee_id A)) db = (Ok tt, db')
    /\ run (get_attendee (Attendee.attendee_id A)) db'
       = (Raise (AttendeeNotFound (Attendee.attendee_id A)), db')
    /\ S (count_attendees (Attendee.event_id A) db')
       = count_attendees (Attendee.event_id A) db
    /\ (forall a, In a (attendees db') <-> In a (attendees db) /\ a <> A)
    /\ events db' = events db.
Proof.
  intros Hok Hin. eexists. split.
  { rewrite (@run_delete_attendee db (Attendee.attendee_id A) Hok).
    rewrite (find_by_key Attendee.attendee_id (attendees db) A); auto.
    apply Hok. }
  set (db' := {| events := _; attendees := _ |}).
  assert (Hat : forall a, In a (attendees db') <-> In a (attendees db) /\ a <> A).
  { intros a. unfold db'. cbn [attendees].
    rewrite filter_In, negb_true_iff, Z.eqb_neq. split.
    - intros [Ha Hne]. split; [assumption|]. intros ->. now apply Hne.
    - intros [Ha Hne]. split; [assumption|]. intros Hid. apply Hne.
      eapply key_injective; eauto. apply Hok. }
  split; [|split; [|split; [exact Hat | reflexivity]]].
  - rewrite run_get_attendee.
    destruct (find _ (attendees db')) as [a|] eqn:Hf; [|reflexivity].
    apply find_key_sound in Hf. destruct Hf as [Ha Hid].
    apply Hat in Ha. destruct Ha as [Ha Hne]. exfalso. apply Hne.
    eapply key_injective; eauto. apply Hok.
  - unfold count_attendees, db'. cbn [attendees].
    apply (count_without_key Attendee.attendee_id
             (fun a => Attendee.event_id a =? Attendee.event_id A));
      auto; [apply Hok | apply Z.eqb_refl].
Qed.

(** ** Updating an attendee *)

Lemma apply_attendee_update_email (d : AttendeeUpdate.t) (a a' : Attendee.t) :
  apply_attendee_update d a = Some a' ->
  Attendee.email a'
  = match AttendeeUpdate.email d with
    | Given (Some v) => v
    | _ => Attendee.email a
    end.
Proof.
  unfold apply_attendee_update. intros H.
  apply setattr_required_some in H. destruct H as [a4 [H H4]].
  apply setattr_nullable_some in H. destruct H as [a3 [H H3]].
  apply setattr_required_some in H. destruct H as [a2 [H H2]].
  apply setattr_required_some in H. destruct H as [a1 [H H1]].
  apply setattr_required_some in H. destruct H as [a0 [H H0]].
  inversion H; subst a0.
  destruct H0 as [[_ ->] | [? [_ ->]]], H1 as [[_ ->] | [? [_ ->]]],
           H2 as [[-> ->] | [? [-> ->]]], H3 as [[_ ->] | [? [_ ->]]],
           H4 as [[_ ->] | [? [_ ->]]]; reflexivity.
Qed.

Lemma In_map_replace {A B : Type} (key : A -> Z) (f : A -> B) (k : Z)
    (v : B) (l : list A) (x : B) :
  In x (map (fun a => if key a =? k then v else f a) l) ->
  (x = v /\ In k (map key l)) \/ In x (map f l).
Proof.
  induction l as [|a r IH]; simpl; [contradiction|].
  intros [Hx | Hx].
  - destruct (key a =? k) eqn:Hk.
    + apply Z.eqb_eq in Hk. left. split; [now symmetry | now left].
    + right. now left.
  - destruct (IH Hx) as [[-> Hin] | Hin]; [left | right]; auto.
Qed.

(** Putting a value no row has in the place of one row's value keeps a
    column free of repeats. *)
Lemma NoDup_map_replace {A B : Type} (key : A -> Z) (f : A -> B) (k : Z)
    (v : B) (l : list A) :
  NoDup (map key l) -> NoDup (map f l) -> ~ In v (map f l) ->
  NoDup (map (fun a => if key a =? k then v else f a) l).
Proof.
  induction l as [|a r IH]; simpl; intros Hk Hf Hv; [constructor|].
  inversion Hk as [|? ? Hka Hkr]; inversion Hf as [|? ? Hfa Hfr]; subst.
  constructor.
  - intros Hin. apply In_map_replace in Hin.
    destruct (key a =? k) eqn:Hak.
    + apply Z.eqb_eq in Hak. destruct Hin as [[_ Hin] | Hin].
      * apply Hka. now rewrite Hak.
      * apply Hv. now right.
    + destruct Hin as [[Heq _] | Hin].
      * apply Hv. left. exact Heq.
      * now apply Hfa.
  - apply IH; auto.
Qed.

Lemma map_replace_same {A : Type} (key : A -> Z) (l : list A) (x : A) :
  NoDup (map key l) -> In x l ->
  map (fun a => if key a =? key x then x else a) l = l.
Proof.
  intros Hnd Hin. rewrite <- (map_id l) at 2. apply map_ext_in.
  intros a Ha. destruct (key a =? key x) eqn:Hk; [|reflexivity].
  apply Z.eqb_eq in Hk. eapply key_injective; eauto.
Qed.

(** X9: an update that changes an attendee's email to [e] is refused with
    the already-registered error, the store unchanged, when another
    attendee of the same event has [e]; when no stored attendee has [e]
    and the body assigns no [null] to a required column it succeeds, the
    stored attendee keeps its key and its event and has the new email. *)
Theorem update_attendee_email (db : Database) (A : Attendee.t)
    (d : AttendeeUpdate.t) (e : string) :
  db_ok db -> In A (attendees db) ->
  attr (AttendeeUpdate.email d) = Some e ->
  e <> EmptyString -> e <> Attendee.email A ->
  ((exists b, In b (attendees db) /\ Attendee.email b = e
              /\ Attendee.event_id b = Attendee.event_id A) ->
   run (update_attendee (Attendee.attendee_id A) d) db
   = (Raise (EmailAlreadyRegistered e), db))
  /\ ((forall b, In b (attendees db) -> Attendee.email b <> e) ->
      forall A', apply_attendee_update d A = Some A' ->
        run (update_attendee (Attendee.attendee_id A) d) db
        = (Ok A', update_attendees (Attendee.attendee_id A) (fun _ => A') db)
        /\ In A' (attendees (update_attendees (Attendee.attendee_id A)
                               (fun _ => A') db))
        /\ Attendee.email A' = e
        /\ Attendee.attendee_id A' = Attendee.attendee_id A
        /\ Attendee.event_id A' = Attendee.event_id A).
Proof.
  intros Hok Hin He Hne Hdiff.
  assert (Hfind : find (fun a => Attendee.attendee_id a
                                 =? Attendee.attendee_id A) (attendees db)
                  = Some A)
    by (apply (find_by_key Attendee.attendee_id); auto; apply Hok).
  assert (Hch : email_changes d A = Some e).
  { unfold email_changes. rewrite He.
    apply String.eqb_neq in Hne. apply String.eqb_neq in Hdiff.
    now rewrite Hne, Hdiff. }
  split.
  - intros [b [Hb [Hbe Hbev]]].
    rewrite run_update_attendee, Hfind. unfold email_conflict. rewrite Hch.
    match goal with
    | |- context [find ?p (attendees db)] =>
        destruct (find p (attendees db)) eqn:Hf; [reflexivity|]
    end.
    eapply find_none in Hf; eauto. cbv beta in Hf.
    rewrite Hbe, String.eqb_refl, Hbev, Z.eqb_refl in Hf.
    assert (Hid : (Attendee.attendee_id b =? Attendee.attendee_id A) = false).
    { apply Z.eqb_neq. intros Hid.
      assert (b = A) by (eapply key_injective; eauto; apply Hok).
      subst b. now apply Hdiff. }
    rewrite Hid in Hf. discriminate.
  - intros Hfree A' Happ.
    pose proof (apply_attendee_update_email d A Happ) as Hem.
    destruct (AttendeeUpdate.email d) as [|[v|]] eqn:Hf; try discriminate.
    cbn [attr] in He. injection He as Hv. rewrite Hv in Hem.
    destruct (apply_attendee_update_frame d A Happ) as [Hkey [Hev _]].
    assert (Hin' : In A' (attendees (update_attendees
                     (Attendee.attendee_id A) (fun _ => A') db))).
    { unfold update_attendees. cbn [attendees]. apply in_map_iff.
      exists A. split; [|assumption]. now rewrite Z.eqb_refl. }
    split; [|repeat split; auto].
    rewrite run_update_attendee, Hfind. unfold email_conflict. rewrite Hch.
    match goal with
    | |- context [find ?p (attendees db)] =>
        destruct (find p (attendees db)) as [b|] eqn:Hfb
    end.
    { apply find_some in Hfb. destruct Hfb as [Hb Hp].
      rewrite !andb_true_iff in Hp. destruct Hp as [[Hm _] _].
      apply String.eqb_eq in Hm. exfalso. now apply (Hfree b Hb). }
    rewrite Happ. cbv zeta.
    assert (Hc : constraints_ok (update_attendees (Attendee.attendee_id A)
                                   (fun _ => A') db) = true).
    { apply distinct_NoDup. unfold update_attendees. cbn [attendees].
      rewrite map_map.
      rewrite (map_ext _ (fun a => if Attendee.attendee_id a
                                       =? Attendee.attendee_id A
                                    then e else Attendee.email a)).
      - apply NoDup_map_replace; try apply Hok.
        intros H. apply in_map_iff in H. destruct H as [b [Hbe Hb]].
        now apply (Hfree b Hb).
      - intros a. destruct (_ =? _); [exact Hem | reflexivity]. }
    now rewrite Hc.
Qed.

(** X10: an update whose body carries no field succeeds and changes
    nothing, for an event and for an attendee alike: the stored row is
    returned and the store is the same. *)
Theorem empty_update_changes_nothing (db : Database) (E : Event.t)
    (A : Attendee.t) :
  db_ok db -> In E (events db) -> In A (attendees db) ->
  run (update_event (Event.event_id E) EventUpdate.empty) db = (Ok E, db)
  /\ run (update_attendee (Attendee.attendee_id A) AttendeeUpdate.empty) db
     = (Ok A, db).
Proof.
  intros Hok HE HA. split.
  - rewrite (@run_update_event db (Event.event_id E) EventUpdate.empty Hok).
    rewrite (find_by_key Event.event_id (events db) E); auto; [|apply Hok].
    cbn [apply_event_update EventUpdate.empty]. cbn. f_equal.
    unfold update_events. destruct db as [evs ats]. cbn [events attendees] in *.
    f_equal. apply (map_replace_same Event.event_id); auto. apply Hok.
  - rewrite run_update_attendee.
    rewrite (find_by_key Attendee.attendee_id (attendees db) A); auto;
      [|apply Hok].
    change (email_conflict (Attendee.attendee_id A) AttendeeUpdate.empty A db)
      with (@None string).
    assert (Happ : apply_attendee_update AttendeeUpdate.empty A = Some A)
      by reflexivity.
    rewrite Happ. cbv zeta.
    assert (Hsame : update_attendees (Attendee.attendee_id A) (fun _ => A) db
                    = db).
    { unfold update_attendees. destruct db as [evs ats].
      cbn [events attendees] in *. f_equal.
      apply (map_replace_same Attendee.attendee_id); auto. apply Hok. }
    rewrite Hsame, (db_ok_constraints Hok). reflexivity.
Qed.

(** ** Bulk check-in, again *)

Lemma filter_map_commute {A : Type} (p : A -> bool) (g : A -> A)
    (l : list A) :
  (forall a, p (g a) = p a) -> filter p (map g l) = map g (filter p l).
Proof.
  intros Hp. induction l as [|a r IH]; simpl; [reflexivity|].
  rewrite Hp. destruct (p a); simpl; now rewrite IH.
Qed.

Lemma Permutation_filter_split {A : Type} (p : A -> bool) (l : list A) :
  Permutation l (filter p l ++ filter (fun a => negb (p a)) l).
Proof.
  induction l as [|a r IH]; simpl; [constructor|].
  destruct (p a); simpl.
  - now constructor.
  - now apply Permutation_cons_app.
Qed.


(** ** Files that do not parse, and batches with nothing in them *)

Lemma collect_rows_none (rows : list (option AttendeeCsv.t)) :
  In None rows -> collect_rows rows = None.
Proof.
  induction rows as [|[r|] rest IH]; simpl; intros H.
  - contradiction.
  - destruct H as [H | H]; [discriminate|]. now rewrite IH.
  - reflexivity.
Qed.

Section InputErrors.
Context {set_order : SetOrder}.

(** X12: for an existing event, an upload that cannot be turned into a
    batch is refused before any rule is applied, whatever the event's
    capacity, and nothing is written: an unreadable file with the
    invalid-format error; a frame that lacks required columns with the
    missing-columns error, which lists exactly the required columns the
    frame lacks; a frame with all required columns and a row that does
    not validate with the data error. *)
Theorem csv_input_errors (db : Database) (E : Event.t) :
  db_ok db -> In E (events db) ->
  run (process_csv_upload (Event.event_id E) Unreadable) db
  = (Raise InvalidCsvFormat, db)
  /\ (forall columns rows,
        (exists c, In c required_columns /\ ~ In c columns) ->
        exists lacking,
          run (process_csv_upload (Event.event_id E) (Frame columns rows)) db
          = (Raise (MissingRequiredColumns lacking), db)
          /\ forall c, In c lacking <-> In c required_columns /\ ~ In c columns)
  /\ (forall columns rows,
        (forall c, In c required_columns -> In c columns) ->
        In None rows ->
        run (process_csv_upload (Event.event_id E) (Frame columns rows)) db
        = (Raise CsvDataError, db)).
Proof.
  intros Hok Hin.
  assert (Hrun : forall file,
            run (process_csv_upload (Event.event_id E) file) db
            = match file with
              | Unreadable => (Raise InvalidCsvFormat, db)
              | Frame columns rows =>
                  match filter (fun col => negb (mem_str col columns))
                               required_columns with
                  | (_ :: _) as l => (Raise (MissingRequiredColumns l), db)
                  | [] =>
                      match collect_rows rows with
                      | None => (Raise CsvDataError, db)
                      | Some B => register_batch DuplicateEmailsInCsv E B db
                      end
                  end
              end).
  { intros file.
    destruct (parsed_batch file) as [B|] eqn:Hp.
    - rewrite (@run_process_csv_upload _ db E file B Hok Hin Hp).
      unfold parsed_batch in Hp. destruct file as [|columns rows];
        [discriminate|].
      destruct (filter _ required_columns); [|discriminate]. now rewrite Hp.
    - unfold run, process_csv_upload, bind.
      rewrite (@get_event_found db db E Hok Hin).
      unfold execute at 1. cbn [pending].
      unfold parsed_batch in Hp. destruct file as [|columns rows];
        [reflexivity|].
      destruct (filter _ required_columns); [|reflexivity].
      now rewrite Hp. }
  split; [apply (Hrun Unreadable)|]. split.
  - intros columns rows [c [Hc Hnc]].
    exists (filter (fun col => negb (mem_str col columns)) required_columns).
    assert (Hspec : forall x,
              In x (filter (fun col => negb (mem_str col columns))
                           required_columns)
              <-> In x required_columns /\ ~ In x columns).
    { intros x. now rewrite filter_In, negb_true_iff, mem_str_false. }
    split; [|exact Hspec].
    rewrite (Hrun (Frame columns rows)).
    destruct (filter _ required_columns) as [|x l] eqn:Hf; [|reflexivity].
    exfalso. apply (proj2 (Hspec c)). now split.
  - intros columns rows Hall Hbad.
    rewrite (Hrun (Frame columns rows)).
    rewrite filter_none.
    + now rewrite collect_rows_none.
    + intros c Hc. apply negb_false_iff, mem_str_In. now apply Hall.
Qed.

(** X13: a batch with nothing in it: for an existing event whose
    attendees do not exceed its limit, bulk registration of the empty
    batch succeeds, creates nothing and returns no ids; for an event that
    already has more attendees than its limit even the empty batch is
    refused with the capacity error. *)
Theorem empty_batch (db : Database) (E : Event.t) :
  db_ok db -> In E (events db) ->
  let count := count_attendees (Event.event_id E) db in
  let call := bulk_create_attendees
                (AttendeeBulkCreate.mk (Event.event_id E) []) in
  (Z.of_nat count <= Event.max_attendees E ->
   run call db = (Ok {| total_created := 0; attendee_ids := [] |}, db))
  /\ (Event.max_attendees E < Z.of_nat count ->
      run call db
      = (Raise (CannotRegister 0 (Event.max_attendees E) count), db)).
Proof.
  intros Hok Hin count call. unfold call.
  rewrite (@run_bulk_create_attendees _ db E [] Hok Hin).
  unfold register_batch. fold count. cbn [List.length map].
  rewrite Z.add_0_r.
  assert (Hd : duplicates [] = []) by (now apply duplicates_nil; constructor).
  split; intros Hc.
  - assert (Hlt : (Event.max_attendees E <? Z.of_nat count) = false)
      by (apply Z.ltb_ge; lia).
    rewrite Hlt, Hd.
    change (existing_emails (Event.event_id E) [] db)
      with (map Attendee.email
              (filter (fun a => (Attendee.event_id a =? Event.event_id E)
                                && false) (attendees db))).
    rewrite filter_none by (intros a _; apply andb_false_r).
    cbn [map insert_rows]. cbv zeta. rewrite app_nil_r.
    assert (Hdb : {| events := events db; attendees := attendees db |} = db)
      by now destruct db.
    rewrite Hdb, (db_ok_constraints Hok). reflexivity.
  - assert (Hlt : (Event.max_attendees E <? Z.of_nat count) = true)
      by (apply Z.ltb_lt; lia).
    now rewrite Hlt.
Qed.
End InputErrors.

(** ** Keys that are not there *)

Section UnknownKeys.
Context {set_order : SetOrder}.

End UnknownKeys.


(** ** What every reachable store satisfies *)

Section Invariants.
Context {set_order : SetOrder}.

Lemma no_orphans_same (db : Database) (evs : list Event.t)
    (ats : list Attendee.t) :
  no_orphans db ->
  (forall e, In e (events db) ->
             exists e', In e' evs /\ Event.event_id e' = Event.event_id e) ->
  (forall a, In a ats ->
             (exists b, In b (attendees db)
                        /\ Attendee.event_id b = Attendee.event_id a)
             \/ exists e, In e evs /\ Event.event_id e = Attendee.event_id a) ->
  no_orphans {| events := evs; attendees := ats |}.
Proof.
  intros Horph Hev Hat a Ha. cbn [attendees events] in *.
  destruct (Hat a Ha) as [[b [Hb Hbe]] | He]; [|exact He].
  destruct (Horph b Hb) as [e [He Hid]].
  destruct (Hev e He) as [e' [He' Hid']].
  exists e'. split; [assumption | congruence].
Qed.

Lemma register_batch_no_orphans (dup : list string -> Exception)
    (E : Event.t) (B : list AttendeeCsv.t) (db : Database) :
  In E (events db) -> no_orphans db ->
  no_orphans (snd (register_batch dup E B db)).
Proof.
  intros Hin Horph. unfold register_batch.
  destruct (Event.max_attendees E <? _); [exact Horph|].
  destruct (duplicates _); [|exact Horph].
  destruct (existing_emails _ _ _); [|exact Horph].
  cbv zeta. destruct (constraints_ok _); [|exact Horph].
  cbn [snd]. apply no_orphans_same with (db := db); auto.
  - intros e He. now exists e.
  - intros a Ha. apply in_app_iff in Ha. destruct Ha as [Ha | Ha].
    + left. now exists a.
    + right. apply insert_rows_event in Ha. exists E. split; [assumption|].
      symmetry. tauto.
Qed.

Lemma handle_no_orphans (r : Request) (db : Database) :
  db_ok db -> no_orphans db -> no_orphans (handle r db).
Proof.
  intros Hok Horph.
  assert (Hkeep : forall evs,
            (forall e, In e (events db) ->
               exists e', In e' evs /\ Event.event_id e' = Event.event_id e) ->
            forall g : Attendee.t -> Attendee.t,
            (forall a, In a (attendees db) ->
                       Attendee.event_id (g a) = Attendee.event_id a) ->
            no_orphans {| events := evs;
                          attendees := map g (attendees db) |}).
  { intros evs Hev g Hg. apply no_orphans_same with (db := db); auto.
    intros a Ha. apply in_map_iff in Ha. destruct Ha as [b [<- Hb]].
    left. exists b. split; [assumption|]. symmetry. now apply Hg. }
  assert (Hevs : forall e, In e (events db) ->
            exists e', In e' (events db)
                       /\ Event.event_id e' = Event.event_id e)
    by (intros e He; now exists e).
  destruct r as [d | id d | id | now | d | id d | id | id | id ids
                | id d | id file]; cbn [handle].
  - (* create_event *)
    destruct (fits_integer (EventCreate.max_attendees d)) eqn:Hfits;
      [|now rewrite (@run_create_event_overflow db d Hfits)].
    rewrite (@run_create_event db d Hok Hfits). cbn [snd].
    apply no_orphans_same with (db := db); auto.
    + intros e He. exists e. split; [|reflexivity].
      apply in_app_iff. now left.
    + intros a Ha. left. now exists a.
  - (* update_event *)
    rewrite (@run_update_event db id d Hok).
    destruct (find _ (events db)) as [event|] eqn:Hf; [|exact Horph].
    destruct (overflows d); [exact Horph|].
    destruct (apply_event_update d event) as [event'|] eqn:Ha;
      [|exact Horph].
    cbn [snd]. unfold update_events.
    apply no_orphans_same with (db := db); auto.
    + intros e He.
      exists (if Event.event_id e =? Event.event_id event then event' else e).
      split; [apply in_map_iff; now exists e|].
      destruct (Event.event_id e =? Event.event_id event) eqn:Hx; auto.
      apply Z.eqb_eq in Hx. rewrite Hx.
      now apply apply_event_update_id with d.
    + intros a Ha'. left. now exists a.
  - (* delete_event *)
    rewrite (@run_delete_event db id Hok).
    destruct (find _ (events db)) as [event|]; [|exact Horph].
    cbn [snd]. intros a Ha. cbn [attendees events] in *.
    apply filter_In in Ha. destruct Ha as [Ha Hne].
    destruct (Horph a Ha) as [e [He Hid]].
    exists e. split; [|assumption]. apply filter_In. split; [assumption|].
    now rewrite Hid.
  - (* event listing: the sweep *)
    rewrite (@run_update_event_statuses now db Hok). cbn [snd].
    rewrite <- (map_id (attendees db)). apply Hkeep; auto.
    intros e He. exists (sweep_row now e).
    split; [now apply in_map | apply sweep_row_id].
  - (* create_attendee *)
    destruct (find (fun e => Event.event_id e =? AttendeeCreate.event_id d)
                   (events db)) as [E|] eqn:Hf.
    + apply find_key_sound in Hf. destruct Hf as [Hin Hid].
      rewrite (@run_create_attendee db E d Hok Hin (eq_sym Hid)).
      destruct (Event.max_attendees E <=? _); [exact Horph|].
      destruct (find _ (attendees db)); [exact Horph|].
      cbv zeta. destruct (constraints_ok _); [|exact Horph].
      cbn [snd]. apply no_orphans_same with (db := db); auto.
      intros a Ha. apply in_app_iff in Ha. destruct Ha as [Ha | [<- | []]].
      * left. now exists a.
      * right. now exists E.
    + rewrite (run_create_attendee_not_found db d Hf). exact Horph.
  - (* update_attendee *)
    rewrite run_update_attendee.
    destruct (find _ (attendees db)) as [attendee|] eqn:Hf; [|exact Horph].
    destruct (email_conflict id d attendee db); [exact Horph|].
    destruct (apply_attendee_update d attendee) as [attendee'|] eqn:Ha;
      [|exact Horph].
    cbv zeta. destruct (constraints_ok _); [|exact Horph].
    cbn [snd]. unfold update_attendees. apply Hkeep; auto.
    intros a Hin.
    destruct (Attendee.attendee_id a =? Attendee.attendee_id attendee)
      eqn:Hx; [|reflexivity].
    apply Z.eqb_eq in Hx. apply find_key_sound in Hf. destruct Hf as [Hat _].
    assert (a = attendee) by (eapply key_injective; eauto; apply Hok).
    subst a. now apply apply_attendee_update_frame in Ha.
  - (* delete_attendee *)
    rewrite (@run_delete_attendee db id Hok).
    destruct (find _ (attendees db)) as [attendee|]; [|exact Horph].
    cbn [snd]. apply no_orphans_same with (db := db); auto.
    intros a Ha. apply filter_In in Ha. left. exists a. tauto.
  - (* check_in_attendee *)
    destruct (find (fun a => Attendee.attendee_id a =? id) (attendees db))
      as [a|] eqn:Hf.
    + apply find_key_sound in Hf. destruct Hf as [Hin <-].
      rewrite (@run_check_in_attendee db a Hok Hin).
      destruct (Attendee.check_in_status a); [exact Horph|].
      cbn [snd]. unfold update_attendees. apply Hkeep; auto.
      intros x _. now destruct (_ =? _).
    + rewrite (run_check_in_not_found db id Hf). exact Horph.
  - (* bulk_check_in *)
    destruct (find (fun e => Event.event_id e =? id) (events db))
      as [E|] eqn:Hf.
    + apply find_key_sound in Hf. destruct Hf as [Hin <-].
      rewrite (@run_bulk_check_in db E ids Hok Hin). cbn [snd].
      apply Hkeep; auto. intros x _. now destruct (mem_Z _ _).
    + rewrite (run_bulk_check_in_not_found db id ids Hf). exact Horph.
  - (* bulk-create endpoint *)
    unfold bulk_create_endpoint.
    destruct (negb (id =? AttendeeBulkCreate.event_id d)); [exact Horph|].
    destruct (find (fun e => Event.event_id e =? AttendeeBulkCreate.event_id d)
                   (events db)) as [E|] eqn:Hf.
    + apply find_key_sound in Hf. destruct Hf as [Hin Hid].
      destruct d as [eid B]. cbn [AttendeeBulkCreate.event_id] in Hid.
      subst eid.
      rewrite (@run_bulk_create_attendees _ db E B Hok Hin).
      now apply register_batch_no_orphans.
    + rewrite (run_bulk_create_not_found db d Hf). exact Horph.
  - (* CSV upload *)
    destruct (find (fun e => Event.event_id e =? id) (events db))
      as [E|] eqn:Hf.
    + apply find_key_sound in Hf. destruct Hf as [Hin <-].
      destruct (parsed_batch file) as [B|] eqn:Hp.
      * rewrite (@run_process_csv_upload _ db E file B Hok Hin Hp).
        now apply register_batch_no_orphans.
      * destruct (@run_csv_unparsed _ db E file Hok Hin Hp) as [e [-> _]].
        exact Horph.
    + rewrite (run_csv_not_found db id file Hf). exact Horph.
Qed.

(** X16: whatever requests have been served, the store is well formed:
    no two events and no two attendees share a key, no two attendees
    share an email, and every attendee belongs to an event that is still
    stored. *)
Theorem reachable_store_invariants (db : Database) :
  reachable db ->
  NoDup (map Event.event_id (events db))
  /\ NoDup (map Attendee.attendee_id (attendees db))
  /\ NoDup (map Attendee.email (attendees db))
  /\ no_orphans db.
Proof.
  intros Hreach.
  assert (H : db_ok db /\ no_orphans db).
  { induction Hreach as [|r db Hr [Hok Horph]].
    - split; [apply empty_db_ok | intros a []].
    - split; [now apply handle_ok | now apply handle_no_orphans]. }
  destruct H as [[He Ha Hm] Horph]. auto.
Qed.
End Invariants.

(** ** The authentication middleware *)

(** X17: as installed, with its default lists, the middleware lets every
    request through unauthenticated: ["/"] is among the excluded prefixes
    and every path begins with it, so whatever the [Authorization] header
    and the token library, the application is called and no user is
    attached; the same holds when [None] or empty lists are passed. *)
Theorem default_middleware_excludes_every_path {P : Type}
    (jwt_decode : string -> option P) (public : option (list string))
    (scope_type rest : string) (auth_header : option string) :
  AuthMiddleware.call jwt_decode (AuthMiddleware.init None public)
    scope_type (String.append "/" rest) auth_header = AppCalled None
  /\ AuthMiddleware.call jwt_decode (AuthMiddleware.init (Some []) public)
       scope_type (String.append "/" rest) auth_header = AppCalled None.
Proof.
  assert (Hslash : forall l,
            existsb (fun excluded => String.prefix excluded
                                       (String.append "/" rest))
                    ("/"%string :: l) = true).
  { intros l. cbn [existsb String.append String.prefix].
    now destruct rest. }
  split; unfold AuthMiddleware.call, AuthMiddleware.init;
    cbn [AuthMiddleware.exclude_paths AuthMiddleware.or_default];
    unfold AuthMiddleware.default_exclude_paths;
    rewrite Hslash; now destruct (negb _).
Qed.

(** X18: on a path that no excluded prefix covers, the middleware hands a
    request of a protected path (no public prefix either) to the
    application only with the payload of a Bearer token that the token
    library accepts, and answers 401 itself exactly when the header is
    missing or is not a Bearer header; on a public path a request without
    Bearer header is served without user.  On either kind of path a
    Bearer token that the library rejects is not served: the error of
    [verify_token] leaves the middleware. *)
Theorem middleware_on_listed_paths {P : Type}
    (jwt_decode : string -> option P) (self : AuthMiddleware.t)
    (path : string) (auth_header : option string) :
  existsb (fun excluded => String.prefix excluded path)
          (AuthMiddleware.exclude_paths self) = false ->
  let served := AuthMiddleware.call jwt_decode self "http" path auth_header in
  let is_public := existsb (fun public => String.prefix public path)
                           (AuthMiddleware.public_paths self) in
  let token h := str_replace "Bearer " "" h in
  (is_public = false ->
   (forall user, served = AppCalled user ->
      exists h payload,
        auth_header = Some h /\ String.prefix "Bearer " h = true
        /\ jwt_decode (token h) = Some payload /\ user = Some payload)
   /\ (served = Unauthorized401 <->
       AuthMiddleware.has_bearer auth_header = false))
  /\ (is_public = true -> AuthMiddleware.has_bearer auth_header = false ->
      served = AppCalled None)
  /\ (forall h, auth_header = Some h ->
                AuthMiddleware.has_bearer auth_header = true ->
                jwt_decode (token h) = None -> served = CredentialsError).
Proof.
  intros Hex served is_public token. subst served.
  unfold AuthMiddleware.call. rewrite Hex. fold is_public.
  change (negb ("http" =? "http")%string) with false. cbv iota zeta.
  split; [|split].
  - intros Hpub. rewrite Hpub. split.
    + intros user.
      destruct (AuthMiddleware.has_bearer auth_header) eqn:Hb;
        cbn [negb]; [|discriminate].
      destruct auth_header as [h|]; [|discriminate Hb].
      fold (token h). destruct (jwt_decode (token h)) as [payload|] eqn:Hd;
        [|discriminate].
      intros Hs. inversion Hs; subst. exists h, payload.
      unfold AuthMiddleware.has_bearer in Hb.
      apply andb_true_iff in Hb. tauto.
    + destruct (AuthMiddleware.has_bearer auth_header) eqn:Hb; cbn [negb].
      * destruct auth_header as [h|]; [|discriminate Hb].
        destruct (jwt_decode _); split; discriminate.
      * split; reflexivity.
  - intros Hpub Hb. now rewrite Hpub, Hb.
  - intros h -> Hb Hd. rewrite Hb. fold (token h). rewrite Hd.
    now destruct is_public.
Qed.

(** ** Users *)

Lemma find_string_key {A : Type} (key : A -> string) (l : list A) (x : A) :
  NoDup (map key l) -> In x l ->
  find (fun a => String.eqb (key a) (key x)) l = Some x.
Proof.
  intros Hnd Hin.
  destruct (find (fun a => String.eqb (key a) (key x)) l) as [y|] eqn:Hf.
  - apply find_some in Hf. destruct Hf as [Hy Hk]. apply String.eqb_eq in Hk.
    f_equal. eapply key_injective; eauto.
  - eapply find_none in Hf; eauto. cbv beta in Hf.
    rewrite String.eqb_refl in Hf. discriminate.
Qed.

Lemma find_string_absent {A : Type} (key : A -> string) (l : list A)
    (k : string) :
  ~ In k (map key l) -> find (fun a => String.eqb (key a) k) l = None.
Proof.
  intros Hk. destruct (find _ l) as [x|] eqn:Hf; [|reflexivity].
  apply find_some in Hf. destruct Hf as [Hin Heq].
  apply String.eqb_eq in Heq. exfalso. apply Hk. rewrite <- Heq.
  now apply in_map.
Qed.

Lemma find_string_present {A : Type} (key : A -> string) (l : list A)
    (k : string) :
  In k (map key l) ->
  exists x, find (fun a => String.eqb (key a) k) l = Some x.
Proof.
  intros Hk. apply in_map_iff in Hk. destruct Hk as [y [Hy Hin]].
  destruct (find (fun a => String.eqb (key a) k) l) as [x|] eqn:Hf;
    [now exists x|].
  eapply find_none in Hf; eauto. cbv beta in Hf.
  rewrite Hy, String.eqb_refl in Hf. discriminate.
Qed.

Lemma find_app_missed {A : Type} (p : A -> bool) (l l' : list A) :
  find p l = None -> find p (l ++ l') = find p l'.
Proof.
  induction l as [|a r IH]; simpl; [reflexivity|].
  destruct (p a); [discriminate | exact IH].
Qed.

Section Users.
Context {hasher : PasswordHasher}.

(** X19: [create_user] on a well-formed users table refuses a username
    that is taken (whether or not the email is taken too) and, the
    username being free, an email that is taken, leaving the table as it
    is; with both free it succeeds: the new user is appended under a new
    key, active, not an admin, with a stored hash against which the
    password verifies, and the table is still well formed. *)
Theorem create_user_checks (users : list User.t) (salt : string)
    (d : UserCreate.t) :
  users_ok users ->
  let taken_name := In (UserCreate.username d) (map User.username users) in
  let taken_email := In (UserCreate.email d) (map User.email users) in
  (taken_name ->
   create_user users salt d
   = (UserRaise (UsernameExists (UserCreate.username d)), users))
  /\ (~ taken_name -> taken_email ->
      create_user users salt d
      = (UserRaise (EmailExists (UserCreate.email d)), users))
  /\ (~ taken_name -> ~ taken_email ->
      exists user,
        create_user users salt d = (UserOk user, users ++ [user])
        /\ ~ In (User.user_id user) (map User.user_id users)
        /\ User.username user = UserCreate.username d
        /\ User.email user = UserCreate.email d
        /\ User.full_name user = UserCreate.full_name d
        /\ User.is_active user = true
        /\ User.is_admin user = false
        /\ verify_password (UserCreate.password d)
                           (User.hashed_password user) = true
        /\ users_ok (users ++ [user])).
Proof.
  intros [Hids Hnames Hemails] taken_name taken_email.
  unfold create_user, get_user_by_username, get_user_by_email.
  split; [|split].
  - intros Hn. destruct (find_string_present User.username users _ Hn)
      as [u ->]. reflexivity.
  - intros Hn Hm. rewrite (find_string_absent User.username users _ Hn).
    destruct (find_string_present User.email users _ Hm) as [u ->].
    reflexivity.
  - intros Hn Hm. rewrite (find_string_absent User.username users _ Hn),
      (find_string_absent User.email users _ Hm). cbv zeta.
    set (user := User.mk _ _ _ _ _ _ _).
    assert (Hfresh : ~ In (User.user_id user) (map User.user_id users)).
    { intros H. apply next_id_above in H. cbn in H. lia. }
    assert (Hok : users_ok (users ++ [user])).
    { split; rewrite map_app; (apply NoDup_app; auto;
        [repeat constructor; intros [] | intros x Hx [<- | []]; auto]). }
    assert (Hc : users_constraints_ok (users ++ [user]) = true).
    { unfold users_constraints_ok. apply andb_true_iff.
      split; apply distinct_NoDup; apply Hok. }
    rewrite Hc. exists user. repeat split; auto; try apply Hok.
    apply verify_password_hash.
Qed.

(** X20: a user who has just been created can log in: after a successful
    [create_user], [authenticate_user] with the same username and
    password returns the new user; a password that does not verify
    against the stored hash is refused; and whoever could log in before
    can still log in. *)
Theorem register_then_login (users users' : list User.t) (salt : string)
    (d : UserCreate.t) (user : User.t) :
  users_ok users ->
  create_user users salt d = (UserOk user, users') ->
  authenticate_user users' (UserCreate.username d) (UserCreate.password d)
  = Some user
  /\ (forall p, verify_password p (User.hashed_password user) = false ->
                authenticate_user users' (UserCreate.username d) p = None)
  /\ (forall name p u, authenticate_user users name p = Some u ->
                       authenticate_user users' name p = Some u).
Proof.
  intros Hok Hcreate.
  assert (Hshape : ~ In (UserCreate.username d) (map User.username users)
                   /\ users' = users ++ [user]
                   /\ User.username user = UserCreate.username d
                   /\ verify_password (UserCreate.password d)
                                      (User.hashed_password user) = true).
  { unfold create_user, get_user_by_username, get_user_by_email in Hcreate.
    destruct (find _ users) eqn:Hn; [discriminate|].
    destruct (find (fun u => String.eqb (User.email u) (UserCreate.email d))
                   users); [discriminate|].
    cbv zeta in Hcreate.
    destruct (users_constraints_ok _); [|discriminate].
    inversion Hcreate; subst. repeat split; auto; [|apply verify_password_hash].
    intros Hin. destruct (find_string_present User.username users _ Hin)
      as [u Hu]. congruence. }
  destruct Hshape as [Hfree [-> [Hname Hver]]].
  assert (Hfind : get_user_by_username (users ++ [user])
                    (UserCreate.username d) = Some user).
  { unfold get_user_by_username.
    rewrite find_app_missed
      by (apply (find_string_absent User.username); exact Hfree).
    simpl. now rewrite Hname, String.eqb_refl. }
  split; [|split].
  - unfold authenticate_user. now rewrite Hfind, Hver.
  - intros p Hp. unfold authenticate_user. now rewrite Hfind, Hp.
  - intros name p u. unfold authenticate_user, get_user_by_username.
    destruct (find _ users) as [v|] eqn:Hv; [|discriminate].
    now rewrite (find_app_found _ users [user] Hv).
Qed.
End Users.

(** X21: deleting a user of a well-formed table removes that user and
    nobody else: the key is no longer found, the username can no longer
    log in whatever the password, every other user is still stored, and
    the table is still well formed; deleting an unknown key fails with
    the user's 404 and changes nothing. *)
Theorem delete_user_removes {hasher : PasswordHasher} (users : list User.t)
    (U : User.t) :
  users_ok users -> In U users ->
  exists users',
    delete_user users (User.user_id U) = (UserOk tt, users')
    /\ get_user users' (User.user_id U)
       = (UserRaise (UserNotFound (User.user_id U)), users')
    /\ (forall p, authenticate_user users' (User.username U) p = None)
    /\ (forall u, In u users' <-> In u users /\ u <> U)
    /\ users_ok users'
    /\ (forall id, ~ In id (map User.user_id users) ->
                   delete_user users id = (UserRaise (UserNotFound id), users)).
Proof.
  intros [Hids Hnames Hemails] Hin. eexists.
  assert (Hfind : find (fun u => User.user_id u =? User.user_id U) users
                  = Some U) by (apply (find_by_key User.user_id); auto).
  split; [unfold delete_user, get_user; rewrite Hfind; reflexivity|].
  set (users' := filter _ users).
  assert (Hmem : forall u, In u users' <-> In u users /\ u <> U).
  { intros u. unfold users'. rewrite filter_In, negb_true_iff, Z.eqb_neq.
    split.
    - intros [Hu Hne]. split; [assumption|]. intros ->. now apply Hne.
    - intros [Hu Hne]. split; [assumption|]. intros Hid. apply Hne.
      eapply (key_injective User.user_id); eauto. }
  split; [|split; [|split; [exact Hmem|split]]].
  - unfold get_user.
    destruct (find _ users') as [u|] eqn:Hf; [|reflexivity].
    apply find_key_sound in Hf. destruct Hf as [Hu Hid].
    apply Hmem in Hu. destruct Hu as [Hu Hne]. exfalso. apply Hne.
    eapply (key_injective User.user_id); eauto.
  - intros p. unfold authenticate_user, get_user_by_username.
    destruct (find _ users') as [u|] eqn:Hf; [|reflexivity].
    apply find_some in Hf. destruct Hf as [Hu Hname].
    apply String.eqb_eq in Hname.
    apply Hmem in Hu. destruct Hu as [Hu Hne]. exfalso. apply Hne.
    eapply (key_injective User.username); eauto.
  - split; unfold users'; now apply NoDup_map_filter.
  - intros id Hid. unfold delete_user, get_user.
    now rewrite (find_absent_key User.user_id users id Hid).
Qed.

(** ** Listings *)

Lemma In_skipn {A : Type} (n : nat) (l : list A) (x : A) :
  In x (skipn n l) -> In x l.
Proof.
  intros H. rewrite <- (firstn_skipn n l). apply in_app_iff. now right.
Qed.

Lemma StronglySorted_app_l {A : Type} (R : A -> A -> Prop) (l1 l2 : list A) :
  StronglySorted R (l1 ++ l2) -> StronglySorted R l1.
Proof.
  induction l1 as [|a r IH]; simpl; intros H; [constructor|].
  inversion H as [|? ? Hs Hf]; subst. constructor; auto.
  apply Forall_app in Hf. tauto.
Qed.

Lemma StronglySorted_app_r {A : Type} (R : A -> A -> Prop) (l1 l2 : list A) :
  StronglySorted R (l1 ++ l2) -> StronglySorted R l2.
Proof.
  induction l1 as [|a r IH]; simpl; intros H; [assumption|].
  inversion H; subst. auto.
Qed.

(** A page of a list: what [OFFSET skip LIMIT limit] keeps. *)
Lemma page_length {A : Type} (skip limit : nat) (l : list A) :
  List.length (firstn limit (skipn skip l))
  = Nat.min limit (List.length l - skip).
Proof. now rewrite length_firstn, length_skipn. Qed.

Lemma page_In {A : Type} (skip limit : nat) (l : list A) (x : A) :
  In x (firstn limit (skipn skip l)) -> In x l.
Proof. intros H. eapply In_skipn, In_firstn, H. Qed.

Lemma page_sorted {A : Type} (R : A -> A -> Prop) (skip limit : nat)
    (l : list A) :
  StronglySorted R l -> StronglySorted R (firstn limit (skipn skip l)).
Proof.
  intros H. rewrite <- (firstn_skipn skip l) in H.
  apply StronglySorted_app_r in H.
  rewrite <- (firstn_skipn limit (skipn skip l)) in H.
  now apply StronglySorted_app_l in H.
Qed.

Lemma page_NoDup {A : Type} (skip limit : nat) (l : list A) :
  NoDup l -> NoDup (firstn limit (skipn skip l)).
Proof.
  intros H. rewrite <- (firstn_skipn skip l) in H.
  apply NoDup_app_remove_l in H.
  rewrite <- (firstn_skipn limit (skipn skip l)) in H.
  now apply NoDup_app_remove_r in H.
Qed.

Lemma and_true {A : Type} (filters : list (A -> bool)) (x : A)
    (f : A -> bool) :
  and_ filters x = true -> In f filters -> f x = true.
Proof.
  unfold and_. intros H Hf. rewrite forallb_forall in H. now apply H.
Qed.

Lemma filter_length_implied {A : Type} (p q : A -> bool) (l : list A) :
  (forall x, p x = true -> q x = true) ->
  (List.length (filter p l) <= List.length (filter q l))%nat.
Proof.
  intros Hpq. induction l as [|a r IH]; cbn [filter List.length]; [lia|].
  destruct (p a) eqn:Hp.
  - rewrite (Hpq a Hp). cbn [List.length]. lia.
  - destruct (q a); cbn [List.length]; lia.
Qed.

Section ListingProperties.
Context {engine : SqlEngine}.

Lemma run_list_events (db : Database) (skip limit : nat)
    (status : option EventStatus) (location : option string)
    (start_date end_date : option datetime) (search : option string) :
  let matching :=
    filter (and_ (event_filters status location start_date end_date search))
           (events db) in
  run (list_events skip limit status location start_date end_date search) db
  = (Ok (firstn limit (skipn skip (order_by_start_time matching)),
         List.length matching), db).
Proof. reflexivity. Qed.


End ListingProperties.

(** ** The event endpoints and their responses *)

Lemma sweep_session (now : datetime) (db : Database) :
  db_ok db ->
  update_event_statuses now {| committed := db; pending := db |}
  = (Ok {| ongoing := List.length (filter (should_be_ongoing now) (events db));
           completed := List.length (filter (should_be_completed now)
                                            (events db)) |},
     {| committed := snd (run (update_event_statuses now) db);
        pending := snd (run (update_event_statuses now) db) |}).
Proof.
  intros Hok. rewrite (@run_update_event_statuses now db Hok). cbn [snd].
  unfold update_event_statuses, bind, execute. simpl.
  rewrite for_each_write. simpl. rewrite for_each_write. simpl.
  rewrite !fold_set_status. unfold commit, ret. simpl.
  unfold constraints_ok at 1. simpl.
  fold (constraints_ok db). rewrite (db_ok_constraints Hok).
  assert (Hev : map (fun x => if mem_Z (Event.event_id x)
                          (map Event.event_id
                             (filter (should_be_completed now) (events db)))
                        then Event.set_status COMPLETED x else x)
                  (map (fun e => if mem_Z (Event.event_id e)
                            (map Event.event_id
                               (filter (should_be_ongoing now) (events db)))
                          then Event.set_status ONGOING e else e) (events db))
                = map (sweep_row now) (events db)).
  { rewrite map_map. apply map_ext_in. intros e He.
    assert (Hid : forall b : bool, Event.event_id
              (if b then Event.set_status ONGOING e else e) = Event.event_id e)
      by (intros b; destruct b; reflexivity).
    rewrite Hid.
    rewrite (mem_key_filter Event.event_id (should_be_ongoing now) (events db) e),
            (mem_key_filter Event.event_id (should_be_completed now) (events db) e);
      auto; try apply Hok.
    unfold sweep_row.
    destruct (should_be_completed now e), (should_be_ongoing now e);
      reflexivity. }
  now rewrite Hev.
Qed.

Lemma map_m_read {A B C : Type} (q : A -> Database -> B) (g : A -> B -> C)
    (xs : list A) (s : AsyncSession) :
  map_m (fun x => c <- execute (q x) ;; ret (g x c)) xs s
  = (Ok (map (fun x => g x (q x (pending s))) xs), s).
Proof.
  induction xs as [|x r IH]; simpl; [reflexivity|].
  unfold bind at 1. unfold bind at 1. unfold execute at 1. unfold ret at 1.
  unfold bind at 1. rewrite IH. reflexivity.
Qed.

Lemma all_valid_spec {A : Type} (l : list (option A)) :
  match all_valid l with
  | Some xs => map Some xs = l
  | None => In None l
  end.
Proof.
  induction l as [|[a|] r IH]; simpl; auto.
  destruct (all_valid r) as [ys|]; simpl; [now rewrite IH | now right].
Qed.

Section EndpointProperties.
Context {engine : SqlEngine}.

End EndpointProperties.

(** X25: the event responses are validated like the bodies.  Reading an
    event of the store replies with the event and its number of
    attendees when the event meets the constraints of the response
    model, and fails on the response otherwise, the store unchanged.  An
    update that moves [end_time] to or before the stored [start_time]
    is committed although its own reply fails on the response, and from
    then on the event cannot be read. *)
Theorem event_response_validation (db : Database) (E : Event.t)
    (v : datetime) :
  db_ok db -> In E (events db) ->
  respond (read_event_endpoint (Event.event_id E)) db
  = (match event_response E (count_attendees (Event.event_id E) db) with
     | Some r => Replied r
     | None => InvalidResponse
     end, db)
  /\ (v <= Event.start_time E ->
      exists db',
        respond (update_event_endpoint (Event.event_id E) (only_end_time v))
                db = (InvalidResponse, db')
        /\ In (Event.set_end_time v E) (events db')
        /\ attendees db' = attendees db
        /\ respond (read_event_endpoint (Event.event_id E)) db'
           = (InvalidResponse, db')).
Proof.
  intros Hok Hin.
  assert (Hread : forall d F, db_ok d -> In F (events d) ->
            respond (read_event_endpoint (Event.event_id F)) d
            = (match event_response F
                       (count_attendees (Event.event_id F) d) with
               | Some r => Replied r
               | None => InvalidResponse
               end, d)).
  { intros d F Hd HF. unfold respond, run, read_event_endpoint, bind.
    rewrite (@get_event_found d d F Hd HF).
    unfold get_attendee_count, execute, ret. cbn [pending committed].
    now destruct (event_response F _). }
  split; [now apply Hread|].
  intros Hv.
  set (E' := Event.set_end_time v E).
  set (db' := update_events (Event.event_id E) (fun _ => E') db).
  assert (Hinvalid : forall n, event_response E' n = None).
  { intros n. unfold event_response, EventResponse.valid, E'.
    cbn [EventResponse.end_time EventResponse.start_time Event.set_end_time
         Event.end_time Event.start_time].
    assert (Hle : (v <=? Event.start_time E) = true) by now apply Z.leb_le.
    rewrite Hle. cbn [negb]. now rewrite andb_false_r. }
  assert (Hin' : In E' (events db')).
  { unfold db', update_events. cbn [events]. apply in_map_iff.
    exists E. split; [|assumption]. now rewrite Z.eqb_refl. }
  assert (Hok' : db_ok db').
  { destruct Hok as [He Ha Hm]. split; auto. unfold db', update_events.
    cbn [events]. rewrite map_map. erewrite map_ext; [exact He|].
    intros e. cbv beta. destruct (Event.event_id e =? Event.event_id E) eqn:Hx;
      [|reflexivity].
    apply Z.eqb_eq in Hx. now rewrite Hx. }
  exists db'. split; [|split; [exact Hin'|split; [reflexivity|]]].
  - unfold respond, run, update_event_endpoint, update_event, bind.
    rewrite (@get_event_found db db E Hok Hin).
    change (overflows (only_end_time v)) with false. cbv iota.
    change (apply_event_update (only_end_time v) E) with (Some E').
    unfold write, commit, ret. cbn [pending committed].
    fold db'. rewrite (db_ok_constraints Hok').
    unfold get_attendee_count, execute. cbn [pending committed].
    now rewrite Hinvalid.
  - change (Event.event_id E) with (Event.event_id E').
    rewrite (Hread db' E' Hok' Hin'). now rewrite Hinvalid.
Qed.

(** ** An engine to run the listings with *)

Lemma insert_by_perm {A : Type} (le : A -> A -> bool) (x : A) (l : list A) :
  Permutation (insert_by le x l) (x :: l).
Proof.
  induction l as [|y r IH]; simpl; [reflexivity|].
  destruct (le x y); [reflexivity|].
  rewrite IH. apply perm_swap.
Qed.

Lemma sort_by_perm {A : Type} (le : A -> A -> bool) (l : list A) :
  Permutation (sort_by le l) l.
Proof.
  induction l as [|x r IH]; simpl; [reflexivity|].
  unfold sort_by in *. simpl. rewrite insert_by_perm. now constructor.
Qed.

Lemma insert_by_start_time_sorted (x : Event.t) (l : list Event.t) :
  StronglySorted (fun a b => Event.start_time a <= Event.start_time b) l ->
  StronglySorted (fun a b => Event.start_time a <= Event.start_time b)
                 (insert_by start_time_le x l).
Proof.
  induction l as [|y r IH]; intros Hs; simpl.
  - constructor; constructor.
  - inversion Hs as [|? ? Hr Hy]; subst.
    unfold start_time_le at 1.
    destruct (Event.start_time x <=? Event.start_time y) eqn:Hle.
    + apply Z.leb_le in Hle. constructor; [assumption|].
      constructor; [assumption|].
      rewrite Forall_forall in *. intros z Hz. specialize (Hy z Hz). lia.
    + apply Z.leb_gt in Hle. constructor; [now apply IH|].
      rewrite Forall_forall in *. intros z Hz.
      apply (Permutation_in _ (insert_by_perm start_time_le x r)) in Hz.
      destruct Hz as [<- | Hz]; [lia | now apply Hy].
Qed.

Lemma sort_by_start_time_sorted (l : list Event.t) :
  StronglySorted (fun a b => Event.start_time a <= Event.start_time b)
                 (sort_by start_time_le l).
Proof.
  induction l as [|x r IH]; simpl; [constructor|].
  now apply insert_by_start_time_sorted.
Qed.

(** Insertion sort and [like] make an engine. *)
Lemma insertion_sort_engine : SqlEngine.
Proof.
  exact {| ilike := fun value pattern => like pattern value;
           order_by_start_time := sort_by start_time_le;
           order_by_start_time_perm := sort_by_perm start_time_le;
           order_by_start_time_sorted := sort_by_start_time_sorted;
           order_by_names := sort_by names_le;
           order_by_names_perm := sort_by_perm names_le |}.
Defined.

(** * The further properties on the sample data *)

Lemma grace_ok : users_ok [grace].
Proof.
  split; repeat constructor; simpl; intuition.
Qed.

(** A third event is added to the two of the sample store. *)
Lemma create_event_lookup_witness :
  db_ok sample_db /\ fits_integer 5 = true
  /\ exists e db',
       run (create_event (EventCreate.mk "Gala" None 30 40 "Hall" 5 SCHEDULED))
           sample_db = (Ok e, db')
       /\ run (get_event (Event.event_id e)) db' = (Ok e, db')
       /\ attendees db' = attendees sample_db.
Proof.
  split; [exact sample_db_ok|]. split; [reflexivity|].
  destruct (@create_event_lookup sample_db
              (EventCreate.mk "Gala" None 30 40 "Hall" 5 SCHEDULED)
              sample_db_ok) as [Hfits _].
  destruct (Hfits eq_refl) as [e [db' [Hrun [_ [_ [Hget [_ [Hatt _]]]]]]]].
  exists e, db'. repeat split; assumption.
Defined.

(** The launch goes, and Ada with it. *)
Lemma delete_event_cascades_witness :
  db_ok sample_db /\ In launch (events sample_db)
  /\ exists db',
       run (delete_event 1) sample_db = (Ok tt, db')
       /\ run (get_event 1) db' = (Raise (EventNotFound 1), db')
       /\ count_attendees 1 db' = 0%nat.
Proof.
  split; [exact sample_db_ok|]. split; [exact launch_in_sample|].
  destruct (@delete_event_cascades sample_db launch sample_db_ok
              launch_in_sample) as [db' [Hrun [Hget [Hcount _]]]].
  exists db'. repeat split; assumption.
Defined.

Lemma sweep_moves_forward_witness :
  db_ok sample_db
  /\ Forall2 (fun e e' =>
                (stage (Event.status e) <= stage (Event.status e'))%nat
                /\ (Event.status e = COMPLETED \/ Event.status e = CANCELED ->
                    e' = e))
             (events sample_db)
             (events (snd (run (update_event_statuses 15) sample_db))).
Proof.
  split; [exact sample_db_ok|].
  exact (@sweep_moves_forward 15 sample_db sample_db_ok).
Defined.

(** A sweep while the events are under way, then one after they ended. *)
Lemma sweep_later_absorbs_earlier_witness :
  db_ok sample_db /\ 15 <= 25
  /\ snd (run (update_event_statuses 25)
              (snd (run (update_event_statuses 15) sample_db)))
     = snd (run (update_event_statuses 25) sample_db).
Proof.
  split; [exact sample_db_ok|]. split; [lia|].
  apply (@sweep_later_absorbs_earlier 15 25 sample_db sample_db_ok). lia.
Defined.

(** The launch, which starts at 10, is made to end at 5. *)
Lemma end_time_checked_on_create_only_witness :
  db_ok sample_db /\ In launch (events sample_db)
  /\ exists db',
       run (update_event 1 (only_end_time 5)) sample_db
       = (Ok (Event.set_end_time 5 launch), db')
       /\ In (Event.set_end_time 5 launch) (events db').
Proof.
  split; [exact sample_db_ok|]. split; [exact launch_in_sample|].
  destruct (@end_time_checked_on_create_only sample_db launch
              (EventCreate.mk "Gala" None 30 40 "Hall" 5 SCHEDULED) 5
              sample_db_ok launch_in_sample)
    as [_ [_ [db' [Hrun [Hin _]]]]].
  exists db'. split; assumption.
Defined.

(** Eve takes the second and last place of the launch. *)
Lemma registration_respects_capacity_witness :
  db_ok sample_db /\ In launch (events sample_db)
  /\ count_attendees 1
       (snd (run (create_attendee
                    (AttendeeCreate.mk "Eve" "Adams" "eve@example.com" None 1))
                 sample_db)) = 2%nat
  /\ Z.of_nat
       (count_attendees 1
          (snd (run (create_attendee
                       (AttendeeCreate.mk "Eve" "Adams" "eve@example.com"
                          None 1))
                    sample_db))) <= 2.
Proof.
  split; [exact sample_db_ok|]. split; [exact launch_in_sample|].
  destruct (@registration_respects_capacity first_seen sample_db launch
              sample_db_ok launch_in_sample) as [Hsingle _].
  apply (Hsingle (AttendeeCreate.mk "Eve" "Adams" "eve@example.com" None 1)
           (Attendee.mk 2 "Eve" "Adams" "eve@example.com" None 1 false)).
  - reflexivity.
  - vm_compute. reflexivity.
Defined.

Lemma create_attendee_registers_witness :
  db_ok sample_db /\ In launch (events sample_db)
  /\ Z.of_nat (count_attendees 1 sample_db) < Event.max_attendees launch
  /\ exists a,
       run (create_attendee
              (AttendeeCreate.mk "Eve" "Adams" "eve@example.com" None 1))
           sample_db
       = (Ok a, {| events := events sample_db;
                   attendees := attendees sample_db ++ [a] |})
       /\ Attendee.check_in_status a = false.
Proof.
  split; [exact sample_db_ok|]. split; [exact launch_in_sample|].
  split; [vm_compute; reflexivity|].
  destruct (@create_attendee_registers sample_db launch
              (AttendeeCreate.mk "Eve" "Adams" "eve@example.com" None 1)
              sample_db_ok launch_in_sample eq_refl)
    as [a [Hrun [Ha _]]].
  - vm_compute. reflexivity.
  - intros b [<- | []]. discriminate.
  - exists a. split; [exact Hrun|]. rewrite Ha. reflexivity.
Defined.

Lemma delete_attendee_frees_place_witness :
  db_ok sample_db /\ In ada (attendees sample_db)
  /\ exists db',
       run (delete_attendee 1) sample_db = (Ok tt, db')
       /\ run (get_attendee 1) db' = (Raise (AttendeeNotFound 1), db')
       /\ S (count_attendees 1 db') = count_attendees 1 sample_db.
Proof.
  split; [exact sample_db_ok|]. split; [exact ada_in_sample|].
  destruct (@delete_attendee_frees_place sample_db ada sample_db_ok
              ada_in_sample) as [db' [Hrun [Hget [Hcount _]]]].
  exists db'. repeat split; assumption.
Defined.

(** Ada moves to an address nobody has. *)
Lemma update_attendee_email_witness :
  db_ok sample_db /\ In ada (attendees sample_db)
  /\ run (update_attendee 1
            (AttendeeUpdate.mk Unset Unset
               (Given (Some "augusta@example.com"%string)) Unset Unset))
         sample_db
     = (Ok (Attendee.mk 1 "Ada" "Lovelace" "augusta@example.com" None 1 false),
        update_attendees 1
          (fun _ => Attendee.mk 1 "Ada" "Lovelace" "augusta@example.com"
                      None 1 false)
          sample_db).
Proof.
  split; [exact sample_db_ok|]. split; [exact ada_in_sample|].
  destruct (@update_attendee_email sample_db ada
              (AttendeeUpdate.mk Unset Unset
                 (Given (Some "augusta@example.com"%string)) Unset Unset)
              "augusta@example.com" sample_db_ok ada_in_sample eq_refl)
    as [_ Hfree].
  - discriminate.
  - discriminate.
  - destruct (Hfree
                ltac:(intros b [<- | []]; discriminate)
                (Attendee.mk 1 "Ada" "Lovelace" "augusta@example.com"
                   None 1 false) eq_refl) as [Hrun _].
    exact Hrun.
Defined.

Lemma empty_update_changes_nothing_witness :
  db_ok sample_db /\ In launch (events sample_db)
  /\ In ada (attendees sample_db)
  /\ run (update_event 1 EventUpdate.empty) sample_db = (Ok launch, sample_db)
  /\ run (update_attendee 1 AttendeeUpdate.empty) sample_db
     = (Ok ada, sample_db).
Proof.
  split; [exact sample_db_ok|]. split; [exact launch_in_sample|].
  split; [exact ada_in_sample|].
  exact (@empty_update_changes_nothing sample_db launch ada sample_db_ok
           launch_in_sample ada_in_sample).
Defined.


Lemma csv_input_errors_witness :
  db_ok sample_db /\ In launch (events sample_db)
  /\ run (process_csv_upload 1 Unreadable) sample_db
     = (Raise InvalidCsvFormat, sample_db).
Proof.
  split; [exact sample_db_ok|]. split; [exact launch_in_sample|].
  destruct (@csv_input_errors first_seen sample_db launch sample_db_ok
              launch_in_sample) as [Hunreadable _].
  exact Hunreadable.
Defined.

Lemma empty_batch_witness :
  db_ok sample_db /\ In launch (events sample_db)
  /\ run (bulk_create_attendees (AttendeeBulkCreate.mk 1 [])) sample_db
     = (Ok {| total_created := 0; attendee_ids := [] |}, sample_db).
Proof.
  split; [exact sample_db_ok|]. split; [exact launch_in_sample|].
  destruct (@empty_batch first_seen sample_db launch sample_db_ok
              launch_in_sample) as [Hfits _].
  apply Hfits. vm_compute. discriminate.
Defined.



Lemma reachable_store_invariants_witness :
  reachable (set_order := first_seen) checked_in_db
  /\ NoDup (map Attendee.email (attendees checked_in_db))
  /\ no_orphans checked_in_db.
Proof.
  split; [exact checked_in_db_reachable|].
  destruct (@reachable_store_invariants first_seen checked_in_db
              checked_in_db_reachable) as [_ [_ [Hemail Horphans]]].
  split; assumption.
Defined.

(** With only [/docs] excluded, a request for the users without header
    is answered 401. *)
Lemma middleware_on_listed_paths_witness :
  existsb (fun excluded => String.prefix excluded "/api/users")
          (AuthMiddleware.exclude_paths
             (AuthMiddleware.init (Some ["/docs"%string]) None)) = false
  /\ AuthMiddleware.call (fun _ : string => @None unit)
       (AuthMiddleware.init (Some ["/docs"%string]) None)
       "http" "/api/users" None = Unauthorized401.
Proof.
  split; [reflexivity|].
  destruct (@middleware_on_listed_paths unit (fun _ => None)
              (AuthMiddleware.init (Some ["/docs"%string]) None)
              "/api/users" None eq_refl) as [Hprotected _].
  destruct (Hprotected eq_refl) as [_ [_ Hrefused]].
  apply Hrefused. reflexivity.
Defined.

Lemma create_user_checks_witness :
  users_ok [grace]
  /\ create_user [grace] "salt"
       (UserCreate.mk "grace" "other@example.com" None "secret-two")
     = (UserRaise (UsernameExists "grace"), [grace])
  /\ exists user,
       create_user [grace] "salt"
         (UserCreate.mk "alan" "alan@example.com" None "secret-two")
       = (UserOk user, [grace] ++ [user])
       /\ User.is_admin user = false.
Proof.
  split; [exact grace_ok|]. split.
  - destruct (@create_user_checks plain_hasher [grace] "salt"
                (UserCreate.mk "grace" "other@example.com" None "secret-two")
                grace_ok) as [Htaken _].
    apply Htaken. now left.
  - destruct (@create_user_checks plain_hasher [grace] "salt"
                (UserCreate.mk "alan" "alan@example.com" None "secret-two")
                grace_ok) as [_ [_ Hfree]].
    destruct Hfree as [user [Hrun [_ [_ [_ [_ [_ [Hadmin _]]]]]]]].
    + intros [H | []]. discriminate.
    + intros [H | []]. discriminate.
    + exists user. split; assumption.
Defined.

Lemma register_then_login_witness :
  users_ok [grace]
  /\ authenticate_user
       [grace; User.mk 2 "alan" "alan@example.com" None "secret-two" true false]
       "alan" "secret-two"
     = Some (User.mk 2 "alan" "alan@example.com" None "secret-two" true false).
Proof.
  split; [exact grace_ok|].
  destruct (@register_then_login plain_hasher [grace]
              [grace; User.mk 2 "alan" "alan@example.com" None "secret-two"
                        true false]
              "salt"
              (UserCreate.mk "alan" "alan@example.com" None "secret-two")
              (User.mk 2 "alan" "alan@example.com" None "secret-two" true false)
              grace_ok eq_refl) as [Hlogin _].
  exact Hlogin.
Defined.

Lemma delete_user_removes_witness :
  users_ok [grace] /\ In grace [grace]
  /\ exists users',
       delete_user [grace] 1 = (UserOk tt, users')
       /\ get_user users' 1 = (UserRaise (UserNotFound 1), users')
       /\ authenticate_user users' "grace" "secret-one" = None.
Proof.
  split; [exact grace_ok|]. split; [now left|].
  destruct (@delete_user_removes plain_hasher [grace] grace grace_ok
              (or_introl eq_refl)) as [users' [Hrun [Hget [Hlogin _]]]].
  exists users'. split; [exact Hrun|]. split; [exact Hget|].
  exact (Hlogin "secret-one"%string).
Defined.



(** The launch, which starts at 10, is made to end at 5 and can no longer
    be read. *)
Lemma event_response_validation_witness :
  db_ok sample_db /\ In launch (events sample_db) /\ 5 <= Event.start_time launch
  /\ exists db',
       respond (update_event_endpoint 1 (only_end_time 5)) sample_db
       = (InvalidResponse, db')
       /\ respond (read_event_endpoint 1) db' = (InvalidResponse, db').
Proof.
  split; [exact sample_db_ok|]. split; [exact launch_in_sample|].
  split; [vm_compute; discriminate|].
  destruct (@event_response_validation sample_db launch 5 sample_db_ok
              launch_in_sample) as [_ Hupdate].
  destruct Hupdate as [db' [Hrun [_ [_ Hread]]]].
  - vm_compute. discriminate.
  - exists db'. split; assumption.
Defined.

(** ** Creating an event over HTTP *)

Lemma sample_db_no_orphans : no_orphans sample_db.
Proof.
  intros a [<- | []]. exists launch. split; [now left | reflexivity].
Qed.

(** X26: creating an event from a valid body whose [max_attendees] fits
    the [Integer] column replies, on a well-formed store without orphans,
    with the body's fields under a key no stored event has and with no
    attendees, and reading that key right after replies with the same
    response. *)
Theorem create_then_read (db : Database) (d : EventCreate.t) :
  db_ok db -> no_orphans db -> EventCreate.valid d = true ->
  fits_integer (EventCreate.max_attendees d) = true ->
  exists r db',
    respond (create_event_endpoint d) db = (Replied r, db')
    /\ r = EventResponse.mk (EventCreate.name d) (EventCreate.description d)
             (EventCreate.start_time d) (EventCreate.end_time d)
             (EventCreate.location d) (EventCreate.max_attendees d)
             (EventResponse.event_id r) (EventCreate.status d) 0
    /\ ~ In (EventResponse.event_id r) (map Event.event_id (events db))
    /\ respond (read_event_endpoint (EventResponse.event_id r)) db'
       = (Replied r, db').
Proof.
  intros Hok Horph Hvalid Hfits.
  set (e := Event.mk (next_id (map Event.event_id (events db)))
              (EventCreate.name d) (EventCreate.description d)
              (EventCreate.start_time d) (EventCreate.end_time d)
              (EventCreate.location d) (EventCreate.max_attendees d)
              (EventCreate.status d)).
  set (db' := {| events := events db ++ [e]; attendees := attendees db |}).
  set (r := EventResponse.mk (EventCreate.name d) (EventCreate.description d)
              (EventCreate.start_time d) (EventCreate.end_time d)
              (EventCreate.location d) (EventCreate.max_attendees d)
              (Event.event_id e) (EventCreate.status d) 0).
  assert (Hfresh : ~ In (Event.event_id e) (map Event.event_id (events db))).
  { intros H. apply next_id_above in H. cbn [e Event.event_id] in H. lia. }
  assert (Hcount : count_attendees (Event.event_id e) db' = 0%nat).
  { unfold count_attendees. cbn [db' attendees].
    rewrite filter_none; [reflexivity|].
    intros a Ha. apply Z.eqb_neq. intros Heq.
    destruct (Horph a Ha) as [e0 [He0 Hid]].
    apply Hfresh. rewrite <- Heq, <- Hid. now apply in_map. }
  assert (Hresp : event_response e 0 = Some r).
  { unfold event_response.
    change (EventResponse.valid _) with (EventCreate.valid d).
    now rewrite Hvalid. }
  exists r, db'. split; [|split; [reflexivity|split; [exact Hfresh|]]].
  - unfold respond, run, create_event_endpoint, create_event, add_event, bind,
      execute, write, ret, get_attendee_count.
    cbn [pending committed events attendees Event.max_attendees].
    rewrite Hfits. unfold commit. cbn [pending committed events attendees].
    rewrite (@constraints_same_attendees db) by reflexivity.
    rewrite (db_ok_constraints Hok).
    cbn [pending committed]. fold e. fold db'.
    unfold execute. cbn [pending committed].
    now rewrite Hcount, Hresp.
  - cbn [r EventResponse.event_id].
    unfold respond, run, read_event_endpoint, get_event, bind, execute, ret,
      get_attendee_count.
    cbn [pending committed db' events].
    rewrite (find_app_key Event.event_id (events db) e Hfresh).
    fold db'. unfold execute. cbn [pending committed].
    now rewrite Hcount, Hresp.
Qed.

Lemma create_then_read_witness :
  db_ok sample_db /\ no_orphans sample_db
  /\ EventCreate.valid (EventCreate.mk "Gala" None 30 40 "Hall" 5 SCHEDULED)
     = true
  /\ fits_integer 5 = true
  /\ exists r db',
       respond (create_event_endpoint
                  (EventCreate.mk "Gala" None 30 40 "Hall" 5 SCHEDULED))
               sample_db = (Replied r, db')
       /\ respond (read_event_endpoint (EventResponse.event_id r)) db'
          = (Replied r, db').
Proof.
  split; [exact sample_db_ok|]. split; [exact sample_db_no_orphans|].
  split; [reflexivity|]. split; [reflexivity|].
  destruct (@create_then_read sample_db
              (EventCreate.mk "Gala" None 30 40 "Hall" 5 SCHEDULED)
              sample_db_ok sample_db_no_orphans eq_refl eq_refl)
    as [r [db' [Hcreate [_ [_ Hread]]]]].
  exists r, db'. split; assumption.
Defined.
